(** * Smith-Waterman local alignment with a linear gap penalty (gqss)

    A shallow embedding of the scoring kernel, the best-cell locator and the
    traceback ([linear_gap_smith_waterman.c], found in [src/gqss_file_io.c]
    from line 771), of the driver ([src/ednafull_linear_smith_waterman.c]),
    of the body of the pair report ([gqss_alignment_format.c], found in
    [src/gqss_file_io.c] from line 238) and of the functions that read a
    file, a line and a FASTA record ([src/gqss_file_io.c], lines 18-237),
    with the properties of the kernel,
    the locator, the traceback, the mismatch counter, the coordinates of the
    pair format, the TSV rows and the gap penalty of the command line.

    Conventions of the embedding:
    - [int64_t] is a [Z] wrapped into [-2^63, 2^63) after every addition and
      subtraction; C leaves a signed overflow undefined, so the statements
      about the values of cells and scores keep every sum and difference
      inside the range by their hypotheses (a gap penalty that is not
      negative, scores that fit), where the wrap is the identity;
      [uint64_t] counters are [Z] reduced modulo [2^64];
    - [size_t] indices are [nat]: every index the code computes is an offset
      into a block it was given;
    - a [char*] buffer is a [list ascii] written by index, a C string is the
      part of a buffer before its first NUL;
    - an [int64_t*] array is a [list Z] written by index;
    - a store outside a block does nothing and a load outside reads 0 or
      NUL; the statements keep every access inside by their hypotheses on
      lengths;
    - [malloc] returns a block whose prior content is supplied by the caller
      of the model (a function from offsets to cells);
    - a failed [assert] and a read outside the substitution table are
      explicit results. *)

From Stdlib Require Import ZArith Ascii String List Lia Bool.
From stdpp Require Import base list.

Local Open Scope Z_scope.

(** ** Machine integers *)

Definition INT64_MIN : Z := - 2 ^ 63.
Definition INT64_MAX : Z := 2 ^ 63 - 1.
Definition UINT64_MOD : Z := 2 ^ 64.

Definition in_int64 (z : Z) : Prop := INT64_MIN <= z <= INT64_MAX.

(** Two's complement reduction of an integer into the [int64_t] range. *)
Definition wrap64 (z : Z) : Z := (z + 2 ^ 63) mod 2 ^ 64 - 2 ^ 63.

Definition add64 (a b : Z) : Z := wrap64 (a + b).
Definition sub64 (a b : Z) : Z := wrap64 (a - b).

(** [c++] and [c = c + 1] on a [uint64_t]. *)
Definition incr_u64 (c : Z) : Z := (c + 1) mod UINT64_MOD.

(** ** Characters, C strings and arrays *)

Definition NUL : ascii := "000"%char.
Definition GAP : ascii := "-"%char.

Definition chars (s : string) : list ascii := list_ascii_of_string s.

(** [s[i]] for a C string held without its terminator: the cell just after
    the last character is the terminating NUL. *)
Definition char_at (s : list ascii) (i : nat) : ascii := nth i s NUL.

(** [Z[k]] for an [int64_t] array. *)
Definition rd (m : list Z) (k : nat) : Z := default 0 (m !! k).

(** The C string stored in a buffer: the characters before the first NUL. *)
Fixpoint c_str (buf : list ascii) : list ascii :=
  match buf with
  | [] => []
  | c :: rest => if Ascii.eqb c NUL then [] else c :: c_str rest
  end.

(** The block returned by [malloc n]: [n] cells holding whatever was there. *)
Definition malloc {A : Type} (prior : nat -> A) (n : nat) : list A :=
  map prior (seq 0 n).

(** ** linear_gap_smith_waterman.c ([src/gqss_file_io.c], lines 771-960) *)

Module LinearGap.

(** [static int64_t max(int64_t a, int64_t b)] *)
Definition max (a b : Z) : Z := if a <? b then b else a.

(** The two differences and the sum are [int64_t] operations: they are the
    mathematical ones when the result fits, which is where C defines them
    and where the statements on cell values are made. *)
Definition best_linear_gap_smith_waterman_score
    (left up_left up : Z) (a b : ascii)
    (get_substitution_matrix_value : ascii -> ascii -> Z)
    (gap_penalty : Z) : Z :=
  max (max (max (sub64 left gap_penalty) (sub64 up gap_penalty))
           (add64 up_left (get_substitution_matrix_value a b)))
      0.

Section Kernel.
Variables (seq_X seq_Y : list ascii).
Variable get_substitution_matrix_value : ascii -> ascii -> Z.
Variable gap_penalty : Z.

Let len_X : nat := length seq_X.
Let len_Y : nat := length seq_Y.
Let best := fun l ul u a b =>
  best_linear_gap_smith_waterman_score l ul u a b
    get_substitution_matrix_value gap_penalty.

(** Body of [for (size_t j = 1; j < len_Y; j++)] on the first row. *)
Definition first_row_cell (scores : list Z) (j : nat) : list Z :=
  <[ j := best (rd scores (j - 1)) 0 0 (char_at seq_X 0) (char_at seq_Y j) ]>
    scores.

Definition first_row (scores : list Z) : list Z :=
  let scores0 :=
    <[ 0%nat := best 0 0 0 (char_at seq_X 0) (char_at seq_Y 0) ]> scores in
  fold_left first_row_cell (seq 1 (len_Y - 1)) scores0.

(** Body of the inner [for (size_t j = 1; j < len_Y; j++)] of row [i]. *)
Definition inner_cell (i : nat) (scores : list Z) (j : nat) : list Z :=
  <[ (i * len_Y + j)%nat :=
       best (rd scores (i * len_Y + j - 1))
            (rd scores ((i - 1) * len_Y + j - 1))
            (rd scores ((i - 1) * len_Y + j))
            (char_at seq_X i) (char_at seq_Y j) ]> scores.

(** Body of [for (size_t i = 1; i < len_X; i++)]. *)
Definition row (scores : list Z) (i : nat) : list Z :=
  let scores0 :=
    <[ (i * len_Y)%nat :=
         best 0 0 (rd scores ((i - 1) * len_Y))
              (char_at seq_X i) (char_at seq_Y 0) ]> scores in
  fold_left (inner_cell i) (seq 1 (len_Y - 1)) scores0.

Definition linear_gap_smith_waterman (scores : list Z) : list Z :=
  fold_left row (seq 1 (len_X - 1)) (first_row scores).
End Kernel.

(** State of the two nested loops of the best-cell locator. *)
Record locator_state := {
  loc_best_score : Z;
  loc_array_index : nat;
  loc_x : nat;
  loc_y : nat
}.

Definition locator_cell (Zm : list Z) (i : nat) (st : locator_state) (j : nat)
    : locator_state :=
  if rd Zm (loc_array_index st) >? loc_best_score st then
    {| loc_best_score := rd Zm (loc_array_index st);
       loc_array_index := S (loc_array_index st);
       loc_x := i; loc_y := j |}
  else
    {| loc_best_score := loc_best_score st;
       loc_array_index := S (loc_array_index st);
       loc_x := loc_x st; loc_y := loc_y st |}.

Definition locator_row (len_Y : nat) (Zm : list Z) (st : locator_state)
    (i : nat) : locator_state :=
  fold_left (locator_cell Zm i) (seq 0 len_Y) st.

(** [best_linear_gap_smith_waterman_score_indices]: the boolean result and
    the final content of [*x] and [*y] ([x0], [y0] on entry). *)
Definition best_linear_gap_smith_waterman_score_indices
    (len_X len_Y : nat) (Zm : list Z) (x0 y0 : nat) : bool * (nat * nat) :=
  if (len_X =? 0)%nat || (len_Y =? 0)%nat then (false, (x0, y0))
  else
    let st := fold_left (locator_row len_Y Zm) (seq 0 len_X)
                {| loc_best_score := -1; loc_array_index := 0;
                   loc_x := x0; loc_y := y0 |} in
    (true, (loc_x st, loc_y st)).

(** Variables of [trace_linear_gap_smith_waterman] that its loop updates. *)
Record trace_state := {
  ts_x : nat;
  ts_y : nat;
  ts_score : Z;
  ts_alignment_index : nat;
  ts_trace_X : list ascii;
  ts_trace_Y : list ascii
}.

Inductive loop_outcome :=
  | Continue (st : trace_state)
  | Break (st : trace_state)
  | AssertFalse.

Inductive trace_result :=
  | Traced (trace_X trace_Y : list ascii) (x y : nat)
  | TraceAssertionFailed
  | TraceOutOfFuel.

Section Trace.
Variables (seq_X seq_Y : list ascii).
Variable Zm : list Z.
Variable get_substitution_matrix_value : ascii -> ascii -> Z.
Variable gap_penalty : Z.

Let len_Y : nat := length seq_Y.

(** One pass through the body of [while (score != 0)]. *)
Definition trace_body (st : trace_state) : loop_outcome :=
  let x := ts_x st in
  let y := ts_y st in
  let k := ts_alignment_index st in
  if (x =? 0)%nat || (y =? 0)%nat then
    Break {| ts_x := x; ts_y := y; ts_score := ts_score st;
             ts_alignment_index := k;
             ts_trace_X := <[ k := char_at seq_X x ]> (ts_trace_X st);
             ts_trace_Y := <[ k := char_at seq_Y y ]> (ts_trace_Y st) |}
  else if sub64 (rd Zm (x * len_Y + y - 1)) gap_penalty
            =? rd Zm (x * len_Y + y) then
    Continue {| ts_x := x; ts_y := (y - 1)%nat;
                ts_score := rd Zm (x * len_Y + y - 1);
                ts_alignment_index := S k;
                ts_trace_X := <[ k := GAP ]> (ts_trace_X st);
                ts_trace_Y := <[ k := char_at seq_Y y ]> (ts_trace_Y st) |}
  else if add64 (rd Zm ((x - 1) * len_Y + (y - 1)))
                (get_substitution_matrix_value (char_at seq_X x)
                                               (char_at seq_Y y))
            =? rd Zm (x * len_Y + y) then
    let trace_X := <[ k := char_at seq_X x ]> (ts_trace_X st) in
    let trace_Y := <[ k := char_at seq_Y y ]> (ts_trace_Y st) in
    if rd Zm ((x - 1) * len_Y + (y - 1)) =? 0 then
      Break {| ts_x := x; ts_y := y; ts_score := ts_score st;
               ts_alignment_index := k;
               ts_trace_X := trace_X; ts_trace_Y := trace_Y |}
    else
      Continue {| ts_x := (x - 1)%nat; ts_y := (y - 1)%nat;
                  ts_score := rd Zm ((x - 1) * len_Y + (y - 1));
                  ts_alignment_index := S k;
                  ts_trace_X := trace_X; ts_trace_Y := trace_Y |}
  else if sub64 (rd Zm ((x - 1) * len_Y + y)) gap_penalty
            =? rd Zm (x * len_Y + y) then
    Continue {| ts_x := (x - 1)%nat; ts_y := y;
                ts_score := rd Zm ((x - 1) * len_Y + y);
                ts_alignment_index := S k;
                ts_trace_X := <[ k := char_at seq_X x ]> (ts_trace_X st);
                ts_trace_Y := <[ k := GAP ]> (ts_trace_Y st) |}
  else AssertFalse.

(** [while (score != 0) { ... }], at most [fuel] passes. *)
Fixpoint trace_loop (fuel : nat) (st : trace_state)
    : option (option trace_state) :=
  if ts_score st =? 0 then Some (Some st)
  else
    match fuel with
    | O => None
    | S fuel' =>
        match trace_body st with
        | Continue st' => trace_loop fuel' st'
        | Break st' => Some (Some st')
        | AssertFalse => Some None
        end
    end.

(** Body of the final [for (i = 0; i < (alignment_length >> 1); i++)]:
    exchange cells [i] and [alignment_index - i] of one buffer. *)
Definition swap_cells (alignment_index : nat) (buf : list ascii) (i : nat)
    : list ascii :=
  let swap_buffer := char_at buf i in
  let buf1 := <[ i := char_at buf (alignment_index - i) ]> buf in
  <[ (alignment_index - i)%nat := swap_buffer ]> buf1.

Definition reverse_in_place (alignment_index : nat) (buf : list ascii)
    : list ascii :=
  let alignment_length := S alignment_index in
  fold_left (swap_cells alignment_index)
            (seq 0 (Nat.shiftr alignment_length 1)) buf.

(** The whole function: [trace_X], [trace_Y] are the caller's buffers and
    [x], [y] the starting cell; the result holds the buffers and the cell
    where the walk ended.  Every pass that continues decrements [x] or
    [y] and needs both positive, so [x + y + 1] passes always suffice. *)
Definition trace_linear_gap_smith_waterman
    (trace_X trace_Y : list ascii) (x y : nat) : trace_result :=
  if (length seq_X =? 0)%nat || (len_Y =? 0)%nat then TraceAssertionFailed
  else
    let st0 := {| ts_x := x; ts_y := y;
                  ts_score := rd Zm (x * len_Y + y);
                  ts_alignment_index := 0;
                  ts_trace_X := trace_X; ts_trace_Y := trace_Y |} in
    match trace_loop (S (x + y)) st0 with
    | None => TraceOutOfFuel
    | Some None => TraceAssertionFailed
    | Some (Some st) =>
        let alignment_index := ts_alignment_index st in
        let alignment_length := S alignment_index in
        let tX := <[ alignment_length := NUL ]> (ts_trace_X st) in
        let tY := <[ alignment_length := NUL ]> (ts_trace_Y st) in
        Traced (reverse_in_place alignment_index tX)
               (reverse_in_place alignment_index tY)
               (ts_x st) (ts_y st)
    end.
End Trace.

End LinearGap.

(** ** example_linear_gap_smith_waterman.c ([src/unnamed/part_002]) *)

Definition get_example_substitution (a b : ascii) : Z :=
  (if Ascii.eqb a b then 1 else 0) * 6 - 3.

(** ** ednafull_linear_smith_waterman.c *)

(** [EDNAFULL_NUC_4_4[8100]], the 90x90 table of the source, row by row. *)
Definition EDNAFULL_NUC_4_4 : list Z := [
  0; 0; 0; 0; 0; 0; 0; 0; 0; 0; 0; 0; 0; 0; 0; 0; 0; 0; 0; 0; 0; 0; 0; 0; 0; 0; 0; 0; 0; 0; 0; 0; 0; 0; 0; 0; 0; 0; 0; 0; 0; 0; 0; 0; 0; 0; 0; 0; 0; 0; 0; 0; 0; 0; 0; 0; 0; 0; 0; 0; 0; 0; 0; 0; 0; 0; 0; 0; 0; 0; 0; 0; 0; 0; 0; 0; 0; 0; 0; 0; 0; 0; 0; 0; 0; 0; 0; 0; 0; 0;
  0; 0; 0; 0; 0; 0; 0; 0; 0; 0; 0; 0; 0; 0; 0; 0; 0; 0; 0; 0; 0; 0; 0; 0; 0; 0; 0; 0; 0; 0; 0; 0; 0; 0; 0; 0; 0; 0; 0; 0; 0; 0; 0; 0; 0; 0; 0; 0; 0; 0; 0; 0; 0; 0; 0; 0; 0; 0; 0; 0; 0; 0; 0; 0; 0; 0; 0; 0; 0; 0; 0; 0; 0; 0; 0; 0; 0; 0; 0; 0; 0; 0; 0; 0; 0; 0; 0; 0; 0; 0;
  0; 0; 0; 0; 0; 0; 0; 0; 0; 0; 0; 0; 0; 0; 0; 0; 0; 0; 0; 0; 0; 0; 0; 0; 0; 0; 0; 0; 0; 0; 0; 0; 0; 0; 0; 0; 0; 0; 0; 0; 0; 0; 0; 0; 0; 0; 0; 0; 0; 0; 0; 0; 0; 0; 0; 0; 0; 0; 0; 0; 0; 0; 0; 0; 0; 0; 0; 0; 0; 0; 0; 0; 0; 0; 0; 0; 0; 0; 0; 0; 0; 0; 0; 0; 0; 0; 0; 0; 0; 0;
  0; 0; 0; 0; 0; 0; 0; 0; 0; 0; 0; 0; 0; 0; 0; 0; 0; 0; 0; 0; 0; 0; 0; 0; 0; 0; 0; 0; 0; 0; 0; 0; 0; 0; 0; 0; 0; 0; 0; 0; 0; 0; 0; 0; 0; 0; 0; 0; 0; 0; 0; 0; 0; 0; 0; 0; 0; 0; 0; 0; 0; 0; 0; 0; 0; 0; 0; 0; 0; 0; 0; 0; 0; 0; 0; 0; 0; 0; 0; 0; 0; 0; 0; 0; 0; 0; 0; 0; 0; 0;
  0; 0; 0; 0; 0; 0; 0; 0; 0; 0; 0; 0; 0; 0; 0; 0; 0; 0; 0; 0; 0; 0; 0; 0; 0; 0; 0; 0; 0; 0; 0; 0; 0; 0; 0; 0; 0; 0; 0; 0; 0; 0; 0; 0; 0; 0; 0; 0; 0; 0; 0; 0; 0; 0; 0; 0; 0; 0; 0; 0; 0; 0; 0; 0; 0; 0; 0; 0; 0; 0; 0; 0; 0; 0; 0; 0; 0; 0; 0; 0; 0; 0; 0; 0; 0; 0; 0; 0; 0; 0;
  0; 0; 0; 0; 0; 0; 0; 0; 0; 0; 0; 0; 0; 0; 0; 0; 0; 0; 0; 0; 0; 0; 0; 0; 0; 0; 0; 0; 0; 0; 0; 0; 0; 0; 0; 0; 0; 0; 0; 0; 0; 0; 0; 0; 0; 0; 0; 0; 0; 0; 0; 0; 0; 0; 0; 0; 0; 0; 0; 0; 0; 0; 0; 0; 0; 0; 0; 0; 0; 0; 0; 0; 0; 0; 0; 0; 0; 0; 0; 0; 0; 0; 0; 0; 0; 0; 0; 0; 0; 0;
  0; 0; 0; 0; 0; 0; 0; 0; 0; 0; 0; 0; 0; 0; 0; 0; 0; 0; 0; 0; 0; 0; 0; 0; 0; 0; 0; 0; 0; 0; 0; 0; 0; 0; 0; 0; 0; 0; 0; 0; 0; 0; 0; 0; 0; 0; 0; 0; 0; 0; 0; 0; 0; 0; 0; 0; 0; 0; 0; 0; 0; 0; 0; 0; 0; 0; 0; 0; 0; 0; 0; 0; 0; 0; 0; 0; 0; 0; 0; 0; 0; 0; 0; 0; 0; 0; 0; 0; 0; 0;
  0; 0; 0; 0; 0; 0; 0; 0; 0; 0; 0; 0; 0; 0; 0; 0; 0; 0; 0; 0; 0; 0; 0; 0; 0; 0; 0; 0; 0; 0; 0; 0; 0; 0; 0; 0; 0; 0; 0; 0; 0; 0; 0; 0; 0; 0; 0; 0; 0; 0; 0; 0; 0; 0; 0; 0; 0; 0; 0; 0; 0; 0; 0; 0; 0; 0; 0; 0; 0; 0; 0; 0; 0; 0; 0; 0; 0; 0; 0; 0; 0; 0; 0; 0; 0; 0; 0; 0; 0; 0;
  0; 0; 0; 0; 0; 0; 0; 0; 0; 0; 0; 0; 0; 0; 0; 0; 0; 0; 0; 0; 0; 0; 0; 0; 0; 0; 0; 0; 0; 0; 0; 0; 0; 0; 0; 0; 0; 0; 0; 0; 0; 0; 0; 0; 0; 0; 0; 0; 0; 0; 0; 0; 0; 0; 0; 0; 0; 0; 0; 0; 0; 0; 0; 0; 0; 0; 0; 0; 0; 0; 0; 0; 0; 0; 0; 0; 0; 0; 0; 0; 0; 0; 0; 0; 0; 0; 0; 0; 0; 0;
  0; 0; 0; 0; 0; 0; 0; 0; 0; 0; 0; 0; 0; 0; 0; 0; 0; 0; 0; 0; 0; 0; 0; 0; 0; 0; 0; 0; 0; 0; 0; 0; 0; 0; 0; 0; 0; 0; 0; 0; 0; 0; 0; 0; 0; 0; 0; 0; 0; 0; 0; 0; 0; 0; 0; 0; 0; 0; 0; 0; 0; 0; 0; 0; 0; 0; 0; 0; 0; 0; 0; 0; 0; 0; 0; 0; 0; 0; 0; 0; 0; 0; 0; 0; 0; 0; 0; 0; 0; 0;
  0; 0; 0; 0; 0; 0; 0; 0; 0; 0; 0; 0; 0; 0; 0; 0; 0; 0; 0; 0; 0; 0; 0; 0; 0; 0; 0; 0; 0; 0; 0; 0; 0; 0; 0; 0; 0; 0; 0; 0; 0; 0; 0; 0; 0; 0; 0; 0; 0; 0; 0; 0; 0; 0; 0; 0; 0; 0; 0; 0; 0; 0; 0; 0; 0; 0; 0; 0; 0; 0; 0; 0; 0; 0; 0; 0; 0; 0; 0; 0; 0; 0; 0; 0; 0; 0; 0; 0; 0; 0;
  0; 0; 0; 0; 0; 0; 0; 0; 0; 0; 0; 0; 0; 0; 0; 0; 0; 0; 0; 0; 0; 0; 0; 0; 0; 0; 0; 0; 0; 0; 0; 0; 0; 0; 0; 0; 0; 0; 0; 0; 0; 0; 0; 0; 0; 0; 0; 0; 0; 0; 0; 0; 0; 0; 0; 0; 0; 0; 0; 0; 0; 0; 0; 0; 0; 0; 0; 0; 0; 0; 0; 0; 0; 0; 0; 0; 0; 0; 0; 0; 0; 0; 0; 0; 0; 0; 0; 0; 0; 0;
  0; 0; 0; 0; 0; 0; 0; 0; 0; 0; 0; 0; 0; 0; 0; 0; 0; 0; 0; 0; 0; 0; 0; 0; 0; 0; 0; 0; 0; 0; 0; 0; 0; 0; 0; 0; 0; 0; 0; 0; 0; 0; 0; 0; 0; 0; 0; 0; 0; 0; 0; 0; 0; 0; 0; 0; 0; 0; 0; 0; 0; 0; 0; 0; 0; 0; 0; 0; 0; 0; 0; 0; 0; 0; 0; 0; 0; 0; 0; 0; 0; 0; 0; 0; 0; 0; 0; 0; 0; 0;
  0; 0; 0; 0; 0; 0; 0; 0; 0; 0; 0; 0; 0; 0; 0; 0; 0; 0; 0; 0; 0; 0; 0; 0; 0; 0; 0; 0; 0; 0; 0; 0; 0; 0; 0; 0; 0; 0; 0; 0; 0; 0; 0; 0; 0; 0; 0; 0; 0; 0; 0; 0; 0; 0; 0; 0; 0; 0; 0; 0; 0; 0; 0; 0; 0; 0; 0; 0; 0; 0; 0; 0; 0; 0; 0; 0; 0; 0; 0; 0; 0; 0; 0; 0; 0; 0; 0; 0; 0; 0;
  0; 0; 0; 0; 0; 0; 0; 0; 0; 0; 0; 0; 0; 0; 0; 0; 0; 0; 0; 0; 0; 0; 0; 0; 0; 0; 0; 0; 0; 0; 0; 0; 0; 0; 0; 0; 0; 0; 0; 0; 0; 0; 0; 0; 0; 0; 0; 0; 0; 0; 0; 0; 0; 0; 0; 0; 0; 0; 0; 0; 0; 0; 0; 0; 0; 0; 0; 0; 0; 0; 0; 0; 0; 0; 0; 0; 0; 0; 0; 0; 0; 0; 0; 0; 0; 0; 0; 0; 0; 0;
  0; 0; 0; 0; 0; 0; 0; 0; 0; 0; 0; 0; 0; 0; 0; 0; 0; 0; 0; 0; 0; 0; 0; 0; 0; 0; 0; 0; 0; 0; 0; 0; 0; 0; 0; 0; 0; 0; 0; 0; 0; 0; 0; 0; 0; 0; 0; 0; 0; 0; 0; 0; 0; 0; 0; 0; 0; 0; 0; 0; 0; 0; 0; 0; 0; 0; 0; 0; 0; 0; 0; 0; 0; 0; 0; 0; 0; 0; 0; 0; 0; 0; 0; 0; 0; 0; 0; 0; 0; 0;
  0; 0; 0; 0; 0; 0; 0; 0; 0; 0; 0; 0; 0; 0; 0; 0; 0; 0; 0; 0; 0; 0; 0; 0; 0; 0; 0; 0; 0; 0; 0; 0; 0; 0; 0; 0; 0; 0; 0; 0; 0; 0; 0; 0; 0; 0; 0; 0; 0; 0; 0; 0; 0; 0; 0; 0; 0; 0; 0; 0; 0; 0; 0; 0; 0; 0; 0; 0; 0; 0; 0; 0; 0; 0; 0; 0; 0; 0; 0; 0; 0; 0; 0; 0; 0; 0; 0; 0; 0; 0;
  0; 0; 0; 0; 0; 0; 0; 0; 0; 0; 0; 0; 0; 0; 0; 0; 0; 0; 0; 0; 0; 0; 0; 0; 0; 0; 0; 0; 0; 0; 0; 0; 0; 0; 0; 0; 0; 0; 0; 0; 0; 0; 0; 0; 0; 0; 0; 0; 0; 0; 0; 0; 0; 0; 0; 0; 0; 0; 0; 0; 0; 0; 0; 0; 0; 0; 0; 0; 0; 0; 0; 0; 0; 0; 0; 0; 0; 0; 0; 0; 0; 0; 0; 0; 0; 0; 0; 0; 0; 0;
  0; 0; 0; 0; 0; 0; 0; 0; 0; 0; 0; 0; 0; 0; 0; 0; 0; 0; 0; 0; 0; 0; 0; 0; 0; 0; 0; 0; 0; 0; 0; 0; 0; 0; 0; 0; 0; 0; 0; 0; 0; 0; 0; 0; 0; 0; 0; 0; 0; 0; 0; 0; 0; 0; 0; 0; 0; 0; 0; 0; 0; 0; 0; 0; 0; 0; 0; 0; 0; 0; 0; 0; 0; 0; 0; 0; 0; 0; 0; 0; 0; 0; 0; 0; 0; 0; 0; 0; 0; 0;
  0; 0; 0; 0; 0; 0; 0; 0; 0; 0; 0; 0; 0; 0; 0; 0; 0; 0; 0; 0; 0; 0; 0; 0; 0; 0; 0; 0; 0; 0; 0; 0; 0; 0; 0; 0; 0; 0; 0; 0; 0; 0; 0; 0; 0; 0; 0; 0; 0; 0; 0; 0; 0; 0; 0; 0; 0; 0; 0; 0; 0; 0; 0; 0; 0; 0; 0; 0; 0; 0; 0; 0; 0; 0; 0; 0; 0; 0; 0; 0; 0; 0; 0; 0; 0; 0; 0; 0; 0; 0;
  0; 0; 0; 0; 0; 0; 0; 0; 0; 0; 0; 0; 0; 0; 0; 0; 0; 0; 0; 0; 0; 0; 0; 0; 0; 0; 0; 0; 0; 0; 0; 0; 0; 0; 0; 0; 0; 0; 0; 0; 0; 0; 0; 0; 0; 0; 0; 0; 0; 0; 0; 0; 0; 0; 0; 0; 0; 0; 0; 0; 0; 0; 0; 0; 0; 0; 0; 0; 0; 0; 0; 0; 0; 0; 0; 0; 0; 0; 0; 0; 0; 0; 0; 0; 0; 0; 0; 0; 0; 0;
  0; 0; 0; 0; 0; 0; 0; 0; 0; 0; 0; 0; 0; 0; 0; 0; 0; 0; 0; 0; 0; 0; 0; 0; 0; 0; 0; 0; 0; 0; 0; 0; 0; 0; 0; 0; 0; 0; 0; 0; 0; 0; 0; 0; 0; 0; 0; 0; 0; 0; 0; 0; 0; 0; 0; 0; 0; 0; 0; 0; 0; 0; 0; 0; 0; 0; 0; 0; 0; 0; 0; 0; 0; 0; 0; 0; 0; 0; 0; 0; 0; 0; 0; 0; 0; 0; 0; 0; 0; 0;
  0; 0; 0; 0; 0; 0; 0; 0; 0; 0; 0; 0; 0; 0; 0; 0; 0; 0; 0; 0; 0; 0; 0; 0; 0; 0; 0; 0; 0; 0; 0; 0; 0; 0; 0; 0; 0; 0; 0; 0; 0; 0; 0; 0; 0; 0; 0; 0; 0; 0; 0; 0; 0; 0; 0; 0; 0; 0; 0; 0; 0; 0; 0; 0; 0; 0; 0; 0; 0; 0; 0; 0; 0; 0; 0; 0; 0; 0; 0; 0; 0; 0; 0; 0; 0; 0; 0; 0; 0; 0;
  0; 0; 0; 0; 0; 0; 0; 0; 0; 0; 0; 0; 0; 0; 0; 0; 0; 0; 0; 0; 0; 0; 0; 0; 0; 0; 0; 0; 0; 0; 0; 0; 0; 0; 0; 0; 0; 0; 0; 0; 0; 0; 0; 0; 0; 0; 0; 0; 0; 0; 0; 0; 0; 0; 0; 0; 0; 0; 0; 0; 0; 0; 0; 0; 0; 0; 0; 0; 0; 0; 0; 0; 0; 0; 0; 0; 0; 0; 0; 0; 0; 0; 0; 0; 0; 0; 0; 0; 0; 0;
  0; 0; 0; 0; 0; 0; 0; 0; 0; 0; 0; 0; 0; 0; 0; 0; 0; 0; 0; 0; 0; 0; 0; 0; 0; 0; 0; 0; 0; 0; 0; 0; 0; 0; 0; 0; 0; 0; 0; 0; 0; 0; 0; 0; 0; 0; 0; 0; 0; 0; 0; 0; 0; 0; 0; 0; 0; 0; 0; 0; 0; 0; 0; 0; 0; 0; 0; 0; 0; 0; 0; 0; 0; 0; 0; 0; 0; 0; 0; 0; 0; 0; 0; 0; 0; 0; 0; 0; 0; 0;
  0; 0; 0; 0; 0; 0; 0; 0; 0; 0; 0; 0; 0; 0; 0; 0; 0; 0; 0; 0; 0; 0; 0; 0; 0; 0; 0; 0; 0; 0; 0; 0; 0; 0; 0; 0; 0; 0; 0; 0; 0; 0; 0; 0; 0; 0; 0; 0; 0; 0; 0; 0; 0; 0; 0; 0; 0; 0; 0; 0; 0; 0; 0; 0; 0; 0; 0; 0; 0; 0; 0; 0; 0; 0; 0; 0; 0; 0; 0; 0; 0; 0; 0; 0; 0; 0; 0; 0; 0; 0;
  0; 0; 0; 0; 0; 0; 0; 0; 0; 0; 0; 0; 0; 0; 0; 0; 0; 0; 0; 0; 0; 0; 0; 0; 0; 0; 0; 0; 0; 0; 0; 0; 0; 0; 0; 0; 0; 0; 0; 0; 0; 0; 0; 0; 0; 0; 0; 0; 0; 0; 0; 0; 0; 0; 0; 0; 0; 0; 0; 0; 0; 0; 0; 0; 0; 0; 0; 0; 0; 0; 0; 0; 0; 0; 0; 0; 0; 0; 0; 0; 0; 0; 0; 0; 0; 0; 0; 0; 0; 0;
  0; 0; 0; 0; 0; 0; 0; 0; 0; 0; 0; 0; 0; 0; 0; 0; 0; 0; 0; 0; 0; 0; 0; 0; 0; 0; 0; 0; 0; 0; 0; 0; 0; 0; 0; 0; 0; 0; 0; 0; 0; 0; 0; 0; 0; 0; 0; 0; 0; 0; 0; 0; 0; 0; 0; 0; 0; 0; 0; 0; 0; 0; 0; 0; 0; 0; 0; 0; 0; 0; 0; 0; 0; 0; 0; 0; 0; 0; 0; 0; 0; 0; 0; 0; 0; 0; 0; 0; 0; 0;
  0; 0; 0; 0; 0; 0; 0; 0; 0; 0; 0; 0; 0; 0; 0; 0; 0; 0; 0; 0; 0; 0; 0; 0; 0; 0; 0; 0; 0; 0; 0; 0; 0; 0; 0; 0; 0; 0; 0; 0; 0; 0; 0; 0; 0; 0; 0; 0; 0; 0; 0; 0; 0; 0; 0; 0; 0; 0; 0; 0; 0; 0; 0; 0; 0; 0; 0; 0; 0; 0; 0; 0; 0; 0; 0; 0; 0; 0; 0; 0; 0; 0; 0; 0; 0; 0; 0; 0; 0; 0;
  0; 0; 0; 0; 0; 0; 0; 0; 0; 0; 0; 0; 0; 0; 0; 0; 0; 0; 0; 0; 0; 0; 0; 0; 0; 0; 0; 0; 0; 0; 0; 0; 0; 0; 0; 0; 0; 0; 0; 0; 0; 0; 0; 0; 0; 0; 0; 0; 0; 0; 0; 0; 0; 0; 0; 0; 0; 0; 0; 0; 0; 0; 0; 0; 0; 0; 0; 0; 0; 0; 0; 0; 0; 0; 0; 0; 0; 0; 0; 0; 0; 0; 0; 0; 0; 0; 0; 0; 0; 0;
  0; 0; 0; 0; 0; 0; 0; 0; 0; 0; 0; 0; 0; 0; 0; 0; 0; 0; 0; 0; 0; 0; 0; 0; 0; 0; 0; 0; 0; 0; 0; 0; 0; 0; 0; 0; 0; 0; 0; 0; 0; 0; 0; 0; 0; 0; 0; 0; 0; 0; 0; 0; 0; 0; 0; 0; 0; 0; 0; 0; 0; 0; 0; 0; 0; 0; 0; 0; 0; 0; 0; 0; 0; 0; 0; 0; 0; 0; 0; 0; 0; 0; 0; 0; 0; 0; 0; 0; 0; 0;
  0; 0; 0; 0; 0; 0; 0; 0; 0; 0; 0; 0; 0; 0; 0; 0; 0; 0; 0; 0; 0; 0; 0; 0; 0; 0; 0; 0; 0; 0; 0; 0; 0; 0; 0; 0; 0; 0; 0; 0; 0; 0; 0; 0; 0; 0; 0; 0; 0; 0; 0; 0; 0; 0; 0; 0; 0; 0; 0; 0; 0; 0; 0; 0; 0; 0; 0; 0; 0; 0; 0; 0; 0; 0; 0; 0; 0; 0; 0; 0; 0; 0; 0; 0; 0; 0; 0; 0; 0; 0;
  0; 0; 0; 0; 0; 0; 0; 0; 0; 0; 0; 0; 0; 0; 0; 0; 0; 0; 0; 0; 0; 0; 0; 0; 0; 0; 0; 0; 0; 0; 0; 0; 0; 0; 0; 0; 0; 0; 0; 0; 0; 0; 0; 0; 0; 0; 0; 0; 0; 0; 0; 0; 0; 0; 0; 0; 0; 0; 0; 0; 0; 0; 0; 0; 0; 0; 0; 0; 0; 0; 0; 0; 0; 0; 0; 0; 0; 0; 0; 0; 0; 0; 0; 0; 0; 0; 0; 0; 0; 0;
  0; 0; 0; 0; 0; 0; 0; 0; 0; 0; 0; 0; 0; 0; 0; 0; 0; 0; 0; 0; 0; 0; 0; 0; 0; 0; 0; 0; 0; 0; 0; 0; 0; 0; 0; 0; 0; 0; 0; 0; 0; 0; 0; 0; 0; 0; 0; 0; 0; 0; 0; 0; 0; 0; 0; 0; 0; 0; 0; 0; 0; 0; 0; 0; 0; 0; 0; 0; 0; 0; 0; 0; 0; 0; 0; 0; 0; 0; 0; 0; 0; 0; 0; 0; 0; 0; 0; 0; 0; 0;
  0; 0; 0; 0; 0; 0; 0; 0; 0; 0; 0; 0; 0; 0; 0; 0; 0; 0; 0; 0; 0; 0; 0; 0; 0; 0; 0; 0; 0; 0; 0; 0; 0; 0; 0; 0; 0; 0; 0; 0; 0; 0; 0; 0; 0; 0; 0; 0; 0; 0; 0; 0; 0; 0; 0; 0; 0; 0; 0; 0; 0; 0; 0; 0; 0; 0; 0; 0; 0; 0; 0; 0; 0; 0; 0; 0; 0; 0; 0; 0; 0; 0; 0; 0; 0; 0; 0; 0; 0; 0;
  0; 0; 0; 0; 0; 0; 0; 0; 0; 0; 0; 0; 0; 0; 0; 0; 0; 0; 0; 0; 0; 0; 0; 0; 0; 0; 0; 0; 0; 0; 0; 0; 0; 0; 0; 0; 0; 0; 0; 0; 0; 0; 0; 0; 0; 0; 0; 0; 0; 0; 0; 0; 0; 0; 0; 0; 0; 0; 0; 0; 0; 0; 0; 0; 0; 0; 0; 0; 0; 0; 0; 0; 0; 0; 0; 0; 0; 0; 0; 0; 0; 0; 0; 0; 0; 0; 0; 0; 0; 0;
  0; 0; 0; 0; 0; 0; 0; 0; 0; 0; 0; 0; 0; 0; 0; 0; 0; 0; 0; 0; 0; 0; 0; 0; 0; 0; 0; 0; 0; 0; 0; 0; 0; 0; 0; 0; 0; 0; 0; 0; 0; 0; 0; 0; 0; 0; 0; 0; 0; 0; 0; 0; 0; 0; 0; 0; 0; 0; 0; 0; 0; 0; 0; 0; 0; 0; 0; 0; 0; 0; 0; 0; 0; 0; 0; 0; 0; 0; 0; 0; 0; 0; 0; 0; 0; 0; 0; 0; 0; 0;
  0; 0; 0; 0; 0; 0; 0; 0; 0; 0; 0; 0; 0; 0; 0; 0; 0; 0; 0; 0; 0; 0; 0; 0; 0; 0; 0; 0; 0; 0; 0; 0; 0; 0; 0; 0; 0; 0; 0; 0; 0; 0; 0; 0; 0; 0; 0; 0; 0; 0; 0; 0; 0; 0; 0; 0; 0; 0; 0; 0; 0; 0; 0; 0; 0; 0; 0; 0; 0; 0; 0; 0; 0; 0; 0; 0; 0; 0; 0; 0; 0; 0; 0; 0; 0; 0; 0; 0; 0; 0;
  0; 0; 0; 0; 0; 0; 0; 0; 0; 0; 0; 0; 0; 0; 0; 0; 0; 0; 0; 0; 0; 0; 0; 0; 0; 0; 0; 0; 0; 0; 0; 0; 0; 0; 0; 0; 0; 0; 0; 0; 0; 0; 0; 0; 0; 0; 0; 0; 0; 0; 0; 0; 0; 0; 0; 0; 0; 0; 0; 0; 0; 0; 0; 0; 0; 0; 0; 0; 0; 0; 0; 0; 0; 0; 0; 0; 0; 0; 0; 0; 0; 0; 0; 0; 0; 0; 0; 0; 0; 0;
  0; 0; 0; 0; 0; 0; 0; 0; 0; 0; 0; 0; 0; 0; 0; 0; 0; 0; 0; 0; 0; 0; 0; 0; 0; 0; 0; 0; 0; 0; 0; 0; 0; 0; 0; 0; 0; 0; 0; 0; 0; 0; 0; 0; 0; 0; 0; 0; 0; 0; 0; 0; 0; 0; 0; 0; 0; 0; 0; 0; 0; 0; 0; 0; 0; 0; 0; 0; 0; 0; 0; 0; 0; 0; 0; 0; 0; 0; 0; 0; 0; 0; 0; 0; 0; 0; 0; 0; 0; 0;
  0; 0; 0; 0; 0; 0; 0; 0; 0; 0; 0; 0; 0; 0; 0; 0; 0; 0; 0; 0; 0; 0; 0; 0; 0; 0; 0; 0; 0; 0; 0; 0; 0; 0; 0; 0; 0; 0; 0; 0; 0; 0; 0; 0; 0; 0; 0; 0; 0; 0; 0; 0; 0; 0; 0; 0; 0; 0; 0; 0; 0; 0; 0; 0; 0; 0; 0; 0; 0; 0; 0; 0; 0; 0; 0; 0; 0; 0; 0; 0; 0; 0; 0; 0; 0; 0; 0; 0; 0; 0;
  0; 0; 0; 0; 0; 0; 0; 0; 0; 0; 0; 0; 0; 0; 0; 0; 0; 0; 0; 0; 0; 0; 0; 0; 0; 0; 0; 0; 0; 0; 0; 0; 0; 0; 0; 0; 0; 0; 0; 0; 0; 0; 0; 0; 0; 0; 0; 0; 0; 0; 0; 0; 0; 0; 0; 0; 0; 0; 0; 0; 0; 0; 0; 0; 0; 0; 0; 0; 0; 0; 0; 0; 0; 0; 0; 0; 0; 0; 0; 0; 0; 0; 0; 0; 0; 0; 0; 0; 0; 0;
  0; 0; 0; 0; 0; 0; 0; 0; 0; 0; 0; 0; 0; 0; 0; 0; 0; 0; 0; 0; 0; 0; 0; 0; 0; 0; 0; 0; 0; 0; 0; 0; 0; 0; 0; 0; 0; 0; 0; 0; 0; 0; 0; 0; 0; 0; 0; 0; 0; 0; 0; 0; 0; 0; 0; 0; 0; 0; 0; 0; 0; 0; 0; 0; 0; 0; 0; 0; 0; 0; 0; 0; 0; 0; 0; 0; 0; 0; 0; 0; 0; 0; 0; 0; 0; 0; 0; 0; 0; 0;
  0; 0; 0; 0; 0; 0; 0; 0; 0; 0; 0; 0; 0; 0; 0; 0; 0; 0; 0; 0; 0; 0; 0; 0; 0; 0; 0; 0; 0; 0; 0; 0; 0; 0; 0; 0; 0; 0; 0; 0; 0; 0; 0; 0; 0; 0; 0; 0; 0; 0; 0; 0; 0; 0; 0; 0; 0; 0; 0; 0; 0; 0; 0; 0; 0; 0; 0; 0; 0; 0; 0; 0; 0; 0; 0; 0; 0; 0; 0; 0; 0; 0; 0; 0; 0; 0; 0; 0; 0; 0;
  0; 0; 0; 0; 0; 0; 0; 0; 0; 0; 0; 0; 0; 0; 0; 0; 0; 0; 0; 0; 0; 0; 0; 0; 0; 0; 0; 0; 0; 0; 0; 0; 0; 0; 0; 0; 0; 0; 0; 0; 0; 0; 0; 0; 0; 0; 0; 0; 0; 0; 0; 0; 0; 0; 0; 0; 0; 0; 0; 0; 0; 0; 0; 0; 0; 0; 0; 0; 0; 0; 0; 0; 0; 0; 0; 0; 0; 0; 0; 0; 0; 0; 0; 0; 0; 0; 0; 0; 0; 0;
  0; 0; 0; 0; 0; 0; 0; 0; 0; 0; 0; 0; 0; 0; 0; 0; 0; 0; 0; 0; 0; 0; 0; 0; 0; 0; 0; 0; 0; 0; 0; 0; 0; 0; 0; 0; 0; 0; 0; 0; 0; 0; 0; 0; 0; 0; 0; 0; 0; 0; 0; 0; 0; 0; 0; 0; 0; 0; 0; 0; 0; 0; 0; 0; 0; 0; 0; 0; 0; 0; 0; 0; 0; 0; 0; 0; 0; 0; 0; 0; 0; 0; 0; 0; 0; 0; 0; 0; 0; 0;
  0; 0; 0; 0; 0; 0; 0; 0; 0; 0; 0; 0; 0; 0; 0; 0; 0; 0; 0; 0; 0; 0; 0; 0; 0; 0; 0; 0; 0; 0; 0; 0; 0; 0; 0; 0; 0; 0; 0; 0; 0; 0; 0; 0; 0; 0; 0; 0; 0; 0; 0; 0; 0; 0; 0; 0; 0; 0; 0; 0; 0; 0; 0; 0; 0; 0; 0; 0; 0; 0; 0; 0; 0; 0; 0; 0; 0; 0; 0; 0; 0; 0; 0; 0; 0; 0; 0; 0; 0; 0;
  0; 0; 0; 0; 0; 0; 0; 0; 0; 0; 0; 0; 0; 0; 0; 0; 0; 0; 0; 0; 0; 0; 0; 0; 0; 0; 0; 0; 0; 0; 0; 0; 0; 0; 0; 0; 0; 0; 0; 0; 0; 0; 0; 0; 0; 0; 0; 0; 0; 0; 0; 0; 0; 0; 0; 0; 0; 0; 0; 0; 0; 0; 0; 0; 0; 0; 0; 0; 0; 0; 0; 0; 0; 0; 0; 0; 0; 0; 0; 0; 0; 0; 0; 0; 0; 0; 0; 0; 0; 0;
  0; 0; 0; 0; 0; 0; 0; 0; 0; 0; 0; 0; 0; 0; 0; 0; 0; 0; 0; 0; 0; 0; 0; 0; 0; 0; 0; 0; 0; 0; 0; 0; 0; 0; 0; 0; 0; 0; 0; 0; 0; 0; 0; 0; 0; 0; 0; 0; 0; 0; 0; 0; 0; 0; 0; 0; 0; 0; 0; 0; 0; 0; 0; 0; 0; 0; 0; 0; 0; 0; 0; 0; 0; 0; 0; 0; 0; 0; 0; 0; 0; 0; 0; 0; 0; 0; 0; 0; 0; 0;
  0; 0; 0; 0; 0; 0; 0; 0; 0; 0; 0; 0; 0; 0; 0; 0; 0; 0; 0; 0; 0; 0; 0; 0; 0; 0; 0; 0; 0; 0; 0; 0; 0; 0; 0; 0; 0; 0; 0; 0; 0; 0; 0; 0; 0; 0; 0; 0; 0; 0; 0; 0; 0; 0; 0; 0; 0; 0; 0; 0; 0; 0; 0; 0; 0; 0; 0; 0; 0; 0; 0; 0; 0; 0; 0; 0; 0; 0; 0; 0; 0; 0; 0; 0; 0; 0; 0; 0; 0; 0;
  0; 0; 0; 0; 0; 0; 0; 0; 0; 0; 0; 0; 0; 0; 0; 0; 0; 0; 0; 0; 0; 0; 0; 0; 0; 0; 0; 0; 0; 0; 0; 0; 0; 0; 0; 0; 0; 0; 0; 0; 0; 0; 0; 0; 0; 0; 0; 0; 0; 0; 0; 0; 0; 0; 0; 0; 0; 0; 0; 0; 0; 0; 0; 0; 0; 0; 0; 0; 0; 0; 0; 0; 0; 0; 0; 0; 0; 0; 0; 0; 0; 0; 0; 0; 0; 0; 0; 0; 0; 0;
  0; 0; 0; 0; 0; 0; 0; 0; 0; 0; 0; 0; 0; 0; 0; 0; 0; 0; 0; 0; 0; 0; 0; 0; 0; 0; 0; 0; 0; 0; 0; 0; 0; 0; 0; 0; 0; 0; 0; 0; 0; 0; 0; 0; 0; 0; 0; 0; 0; 0; 0; 0; 0; 0; 0; 0; 0; 0; 0; 0; 0; 0; 0; 0; 0; 0; 0; 0; 0; 0; 0; 0; 0; 0; 0; 0; 0; 0; 0; 0; 0; 0; 0; 0; 0; 0; 0; 0; 0; 0;
  0; 0; 0; 0; 0; 0; 0; 0; 0; 0; 0; 0; 0; 0; 0; 0; 0; 0; 0; 0; 0; 0; 0; 0; 0; 0; 0; 0; 0; 0; 0; 0; 0; 0; 0; 0; 0; 0; 0; 0; 0; 0; 0; 0; 0; 0; 0; 0; 0; 0; 0; 0; 0; 0; 0; 0; 0; 0; 0; 0; 0; 0; 0; 0; 0; 0; 0; 0; 0; 0; 0; 0; 0; 0; 0; 0; 0; 0; 0; 0; 0; 0; 0; 0; 0; 0; 0; 0; 0; 0;
  0; 0; 0; 0; 0; 0; 0; 0; 0; 0; 0; 0; 0; 0; 0; 0; 0; 0; 0; 0; 0; 0; 0; 0; 0; 0; 0; 0; 0; 0; 0; 0; 0; 0; 0; 0; 0; 0; 0; 0; 0; 0; 0; 0; 0; 0; 0; 0; 0; 0; 0; 0; 0; 0; 0; 0; 0; 0; 0; 0; 0; 0; 0; 0; 0; 0; 0; 0; 0; 0; 0; 0; 0; 0; 0; 0; 0; 0; 0; 0; 0; 0; 0; 0; 0; 0; 0; 0; 0; 0;
  0; 0; 0; 0; 0; 0; 0; 0; 0; 0; 0; 0; 0; 0; 0; 0; 0; 0; 0; 0; 0; 0; 0; 0; 0; 0; 0; 0; 0; 0; 0; 0; 0; 0; 0; 0; 0; 0; 0; 0; 0; 0; 0; 0; 0; 0; 0; 0; 0; 0; 0; 0; 0; 0; 0; 0; 0; 0; 0; 0; 0; 0; 0; 0; 0; 0; 0; 0; 0; 0; 0; 0; 0; 0; 0; 0; 0; 0; 0; 0; 0; 0; 0; 0; 0; 0; 0; 0; 0; 0;
  0; 0; 0; 0; 0; 0; 0; 0; 0; 0; 0; 0; 0; 0; 0; 0; 0; 0; 0; 0; 0; 0; 0; 0; 0; 0; 0; 0; 0; 0; 0; 0; 0; 0; 0; 0; 0; 0; 0; 0; 0; 0; 0; 0; 0; 0; 0; 0; 0; 0; 0; 0; 0; 0; 0; 0; 0; 0; 0; 0; 0; 0; 0; 0; 0; 0; 0; 0; 0; 0; 0; 0; 0; 0; 0; 0; 0; 0; 0; 0; 0; 0; 0; 0; 0; 0; 0; 0; 0; 0;
  0; 0; 0; 0; 0; 0; 0; 0; 0; 0; 0; 0; 0; 0; 0; 0; 0; 0; 0; 0; 0; 0; 0; 0; 0; 0; 0; 0; 0; 0; 0; 0; 0; 0; 0; 0; 0; 0; 0; 0; 0; 0; 0; 0; 0; 0; 0; 0; 0; 0; 0; 0; 0; 0; 0; 0; 0; 0; 0; 0; 0; 0; 0; 0; 0; 0; 0; 0; 0; 0; 0; 0; 0; 0; 0; 0; 0; 0; 0; 0; 0; 0; 0; 0; 0; 0; 0; 0; 0; 0;
  0; 0; 0; 0; 0; 0; 0; 0; 0; 0; 0; 0; 0; 0; 0; 0; 0; 0; 0; 0; 0; 0; 0; 0; 0; 0; 0; 0; 0; 0; 0; 0; 0; 0; 0; 0; 0; 0; 0; 0; 0; 0; 0; 0; 0; 0; 0; 0; 0; 0; 0; 0; 0; 0; 0; 0; 0; 0; 0; 0; 0; 0; 0; 0; 0; 0; 0; 0; 0; 0; 0; 0; 0; 0; 0; 0; 0; 0; 0; 0; 0; 0; 0; 0; 0; 0; 0; 0; 0; 0;
  0; 0; 0; 0; 0; 0; 0; 0; 0; 0; 0; 0; 0; 0; 0; 0; 0; 0; 0; 0; 0; 0; 0; 0; 0; 0; 0; 0; 0; 0; 0; 0; 0; 0; 0; 0; 0; 0; 0; 0; 0; 0; 0; 0; 0; 0; 0; 0; 0; 0; 0; 0; 0; 0; 0; 0; 0; 0; 0; 0; 0; 0; 0; 0; 0; 0; 0; 0; 0; 0; 0; 0; 0; 0; 0; 0; 0; 0; 0; 0; 0; 0; 0; 0; 0; 0; 0; 0; 0; 0;
  0; 0; 0; 0; 0; 0; 0; 0; 0; 0; 0; 0; 0; 0; 0; 0; 0; 0; 0; 0; 0; 0; 0; 0; 0; 0; 0; 0; 0; 0; 0; 0; 0; 0; 0; 0; 0; 0; 0; 0; 0; 0; 0; 0; 0; 0; 0; 0; 0; 0; 0; 0; 0; 0; 0; 0; 0; 0; 0; 0; 0; 0; 0; 0; 0; 0; 0; 0; 0; 0; 0; 0; 0; 0; 0; 0; 0; 0; 0; 0; 0; 0; 0; 0; 0; 0; 0; 0; 0; 0;
  0; 0; 0; 0; 0; 0; 0; 0; 0; 0; 0; 0; 0; 0; 0; 0; 0; 0; 0; 0; 0; 0; 0; 0; 0; 0; 0; 0; 0; 0; 0; 0; 0; 0; 0; 0; 0; 0; 0; 0; 0; 0; 0; 0; 0; 0; 0; 0; 0; 0; 0; 0; 0; 0; 0; 0; 0; 0; 0; 0; 0; 0; 0; 0; 0; 0; 0; 0; 0; 0; 0; 0; 0; 0; 0; 0; 0; 0; 0; 0; 0; 0; 0; 0; 0; 0; 0; 0; 0; 0;
  0; 0; 0; 0; 0; 0; 0; 0; 0; 0; 0; 0; 0; 0; 0; 0; 0; 0; 0; 0; 0; 0; 0; 0; 0; 0; 0; 0; 0; 0; 0; 0; 0; 0; 0; 0; 0; 0; 0; 0; 0; 0; 0; 0; 0; 0; 0; 0; 0; 0; 0; 0; 0; 0; 0; 0; 0; 0; 0; 0; 0; 0; 0; 0; 0; 0; 0; 0; 0; 0; 0; 0; 0; 0; 0; 0; 0; 0; 0; 0; 0; 0; 0; 0; 0; 0; 0; 0; 0; 0;
  0; 0; 0; 0; 0; 0; 0; 0; 0; 0; 0; 0; 0; 0; 0; 0; 0; 0; 0; 0; 0; 0; 0; 0; 0; 0; 0; 0; 0; 0; 0; 0; 0; 0; 0; 0; 0; 0; 0; 0; 0; 0; 0; 0; 0; 0; 0; 0; 0; 0; 0; 0; 0; 0; 0; 0; 0; 0; 0; 0; 0; 0; 0; 0; 0; 0; 0; 0; 0; 0; 0; 0; 0; 0; 0; 0; 0; 0; 0; 0; 0; 0; 0; 0; 0; 0; 0; 0; 0; 0;
  0; 0; 0; 0; 0; 0; 0; 0; 0; 0; 0; 0; 0; 0; 0; 0; 0; 0; 0; 0; 0; 0; 0; 0; 0; 0; 0; 0; 0; 0; 0; 0; 0; 0; 0; 0; 0; 0; 0; 0; 0; 0; 0; 0; 0; 0; 0; 0; 0; 0; 0; 0; 0; 0; 0; 0; 0; 0; 0; 0; 0; 0; 0; 0; 0; 0; 0; 0; 0; 0; 0; 0; 0; 0; 0; 0; 0; 0; 0; 0; 0; 0; 0; 0; 0; 0; 0; 0; 0; 0;
  0; 0; 0; 0; 0; 0; 0; 0; 0; 0; 0; 0; 0; 0; 0; 0; 0; 0; 0; 0; 0; 0; 0; 0; 0; 0; 0; 0; 0; 0; 0; 0; 0; 0; 0; 0; 0; 0; 0; 0; 0; 0; 0; 0; 0; 0; 0; 0; 0; 0; 0; 0; 0; 0; 0; 0; 0; 0; 0; 0; 0; 0; 0; 0; 0; 0; 0; 0; 0; 0; 0; 0; 0; 0; 0; 0; 0; 0; 0; 0; 0; 0; 0; 0; 0; 0; 0; 0; 0; 0;
  0; 0; 0; 0; 0; 0; 0; 0; 0; 0; 0; 0; 0; 0; 0; 0; 0; 0; 0; 0; 0; 0; 0; 0; 0; 0; 0; 0; 0; 0; 0; 0; 0; 0; 0; 0; 0; 0; 0; 0; 0; 0; 0; 0; 0; 0; 0; 0; 0; 0; 0; 0; 0; 0; 0; 0; 0; 0; 0; 0; 0; 0; 0; 0; 0; 5; (-4); (-4); (-1); 0; 0; (-4); (-1); 0; 0; (-4); 0; 1; (-2); 0; 0; 0; 1; (-4); (-4); 0; (-1); 1; 0; (-4);
  0; 0; 0; 0; 0; 0; 0; 0; 0; 0; 0; 0; 0; 0; 0; 0; 0; 0; 0; 0; 0; 0; 0; 0; 0; 0; 0; 0; 0; 0; 0; 0; 0; 0; 0; 0; 0; 0; 0; 0; 0; 0; 0; 0; 0; 0; 0; 0; 0; 0; 0; 0; 0; 0; 0; 0; 0; 0; 0; 0; 0; 0; 0; 0; 0; (-4); (-1); (-1); (-2); 0; 0; (-1); (-2); 0; 0; (-1); 0; (-3); (-1); 0; 0; 0; (-3); (-1); (-1); 0; (-2); (-3); 0; (-1);
  0; 0; 0; 0; 0; 0; 0; 0; 0; 0; 0; 0; 0; 0; 0; 0; 0; 0; 0; 0; 0; 0; 0; 0; 0; 0; 0; 0; 0; 0; 0; 0; 0; 0; 0; 0; 0; 0; 0; 0; 0; 0; 0; 0; 0; 0; 0; 0; 0; 0; 0; 0; 0; 0; 0; 0; 0; 0; 0; 0; 0; 0; 0; 0; 0; (-4); (-1); 5; (-4); 0; 0; (-4); (-1); 0; 0; (-4); 0; 1; (-2); 0; 0; 0; (-4); 1; (-4); 0; (-1); (-4); 0; 1;
  0; 0; 0; 0; 0; 0; 0; 0; 0; 0; 0; 0; 0; 0; 0; 0; 0; 0; 0; 0; 0; 0; 0; 0; 0; 0; 0; 0; 0; 0; 0; 0; 0; 0; 0; 0; 0; 0; 0; 0; 0; 0; 0; 0; 0; 0; 0; 0; 0; 0; 0; 0; 0; 0; 0; 0; 0; 0; 0; 0; 0; 0; 0; 0; 0; (-1); (-2); (-4); (-1); 0; 0; (-1); (-2); 0; 0; (-1); 0; (-3); (-1); 0; 0; 0; (-1); (-3); (-1); 0; (-2); (-1); 0; (-3);
  0; 0; 0; 0; 0; 0; 0; 0; 0; 0; 0; 0; 0; 0; 0; 0; 0; 0; 0; 0; 0; 0; 0; 0; 0; 0; 0; 0; 0; 0; 0; 0; 0; 0; 0; 0; 0; 0; 0; 0; 0; 0; 0; 0; 0; 0; 0; 0; 0; 0; 0; 0; 0; 0; 0; 0; 0; 0; 0; 0; 0; 0; 0; 0; 0; 0; 0; 0; 0; 0; 0; 0; 0; 0; 0; 0; 0; 0; 0; 0; 0; 0; 0; 0; 0; 0; 0; 0; 0; 0;
  0; 0; 0; 0; 0; 0; 0; 0; 0; 0; 0; 0; 0; 0; 0; 0; 0; 0; 0; 0; 0; 0; 0; 0; 0; 0; 0; 0; 0; 0; 0; 0; 0; 0; 0; 0; 0; 0; 0; 0; 0; 0; 0; 0; 0; 0; 0; 0; 0; 0; 0; 0; 0; 0; 0; 0; 0; 0; 0; 0; 0; 0; 0; 0; 0; 0; 0; 0; 0; 0; 0; 0; 0; 0; 0; 0; 0; 0; 0; 0; 0; 0; 0; 0; 0; 0; 0; 0; 0; 0;
  0; 0; 0; 0; 0; 0; 0; 0; 0; 0; 0; 0; 0; 0; 0; 0; 0; 0; 0; 0; 0; 0; 0; 0; 0; 0; 0; 0; 0; 0; 0; 0; 0; 0; 0; 0; 0; 0; 0; 0; 0; 0; 0; 0; 0; 0; 0; 0; 0; 0; 0; 0; 0; 0; 0; 0; 0; 0; 0; 0; 0; 0; 0; 0; 0; (-4); (-1); (-4); (-1); 0; 0; 5; (-4); 0; 0; 1; 0; (-4); (-2); 0; 0; 0; 1; 1; (-4); 0; (-1); (-4); 0; (-4);
  0; 0; 0; 0; 0; 0; 0; 0; 0; 0; 0; 0; 0; 0; 0; 0; 0; 0; 0; 0; 0; 0; 0; 0; 0; 0; 0; 0; 0; 0; 0; 0; 0; 0; 0; 0; 0; 0; 0; 0; 0; 0; 0; 0; 0; 0; 0; 0; 0; 0; 0; 0; 0; 0; 0; 0; 0; 0; 0; 0; 0; 0; 0; 0; 0; (-1); (-2); (-1); (-2); 0; 0; (-4); (-1); 0; 0; (-3); 0; (-1); (-1); 0; 0; 0; (-3); (-3); (-1); 0; (-2); (-1); 0; (-1);
  0; 0; 0; 0; 0; 0; 0; 0; 0; 0; 0; 0; 0; 0; 0; 0; 0; 0; 0; 0; 0; 0; 0; 0; 0; 0; 0; 0; 0; 0; 0; 0; 0; 0; 0; 0; 0; 0; 0; 0; 0; 0; 0; 0; 0; 0; 0; 0; 0; 0; 0; 0; 0; 0; 0; 0; 0; 0; 0; 0; 0; 0; 0; 0; 0; 0; 0; 0; 0; 0; 0; 0; 0; 0; 0; 0; 0; 0; 0; 0; 0; 0; 0; 0; 0; 0; 0; 0; 0; 0;
  0; 0; 0; 0; 0; 0; 0; 0; 0; 0; 0; 0; 0; 0; 0; 0; 0; 0; 0; 0; 0; 0; 0; 0; 0; 0; 0; 0; 0; 0; 0; 0; 0; 0; 0; 0; 0; 0; 0; 0; 0; 0; 0; 0; 0; 0; 0; 0; 0; 0; 0; 0; 0; 0; 0; 0; 0; 0; 0; 0; 0; 0; 0; 0; 0; 0; 0; 0; 0; 0; 0; 0; 0; 0; 0; 0; 0; 0; 0; 0; 0; 0; 0; 0; 0; 0; 0; 0; 0; 0;
  0; 0; 0; 0; 0; 0; 0; 0; 0; 0; 0; 0; 0; 0; 0; 0; 0; 0; 0; 0; 0; 0; 0; 0; 0; 0; 0; 0; 0; 0; 0; 0; 0; 0; 0; 0; 0; 0; 0; 0; 0; 0; 0; 0; 0; 0; 0; 0; 0; 0; 0; 0; 0; 0; 0; 0; 0; 0; 0; 0; 0; 0; 0; 0; 0; (-4); (-1); (-4); (-1); 0; 0; 1; (-3); 0; 0; (-1); 0; (-4); (-1); 0; 0; 0; (-2); (-2); 1; 0; (-3); (-2); 0; (-2);
  0; 0; 0; 0; 0; 0; 0; 0; 0; 0; 0; 0; 0; 0; 0; 0; 0; 0; 0; 0; 0; 0; 0; 0; 0; 0; 0; 0; 0; 0; 0; 0; 0; 0; 0; 0; 0; 0; 0; 0; 0; 0; 0; 0; 0; 0; 0; 0; 0; 0; 0; 0; 0; 0; 0; 0; 0; 0; 0; 0; 0; 0; 0; 0; 0; 0; 0; 0; 0; 0; 0; 0; 0; 0; 0; 0; 0; 0; 0; 0; 0; 0; 0; 0; 0; 0; 0; 0; 0; 0;
  0; 0; 0; 0; 0; 0; 0; 0; 0; 0; 0; 0; 0; 0; 0; 0; 0; 0; 0; 0; 0; 0; 0; 0; 0; 0; 0; 0; 0; 0; 0; 0; 0; 0; 0; 0; 0; 0; 0; 0; 0; 0; 0; 0; 0; 0; 0; 0; 0; 0; 0; 0; 0; 0; 0; 0; 0; 0; 0; 0; 0; 0; 0; 0; 0; 1; (-3); 1; (-3); 0; 0; (-4); (-1); 0; 0; (-4); 0; (-1); (-1); 0; 0; 0; (-2); (-2); (-4); 0; (-1); (-2); 0; (-2);
  0; 0; 0; 0; 0; 0; 0; 0; 0; 0; 0; 0; 0; 0; 0; 0; 0; 0; 0; 0; 0; 0; 0; 0; 0; 0; 0; 0; 0; 0; 0; 0; 0; 0; 0; 0; 0; 0; 0; 0; 0; 0; 0; 0; 0; 0; 0; 0; 0; 0; 0; 0; 0; 0; 0; 0; 0; 0; 0; 0; 0; 0; 0; 0; 0; (-2); (-1); (-2); (-1); 0; 0; (-2); (-1); 0; 0; (-1); 0; (-1); (-1); 0; 0; 0; (-1); (-1); (-2); 0; (-1); (-1); 0; (-1);
  0; 0; 0; 0; 0; 0; 0; 0; 0; 0; 0; 0; 0; 0; 0; 0; 0; 0; 0; 0; 0; 0; 0; 0; 0; 0; 0; 0; 0; 0; 0; 0; 0; 0; 0; 0; 0; 0; 0; 0; 0; 0; 0; 0; 0; 0; 0; 0; 0; 0; 0; 0; 0; 0; 0; 0; 0; 0; 0; 0; 0; 0; 0; 0; 0; 0; 0; 0; 0; 0; 0; 0; 0; 0; 0; 0; 0; 0; 0; 0; 0; 0; 0; 0; 0; 0; 0; 0; 0; 0;
  0; 0; 0; 0; 0; 0; 0; 0; 0; 0; 0; 0; 0; 0; 0; 0; 0; 0; 0; 0; 0; 0; 0; 0; 0; 0; 0; 0; 0; 0; 0; 0; 0; 0; 0; 0; 0; 0; 0; 0; 0; 0; 0; 0; 0; 0; 0; 0; 0; 0; 0; 0; 0; 0; 0; 0; 0; 0; 0; 0; 0; 0; 0; 0; 0; 0; 0; 0; 0; 0; 0; 0; 0; 0; 0; 0; 0; 0; 0; 0; 0; 0; 0; 0; 0; 0; 0; 0; 0; 0;
  0; 0; 0; 0; 0; 0; 0; 0; 0; 0; 0; 0; 0; 0; 0; 0; 0; 0; 0; 0; 0; 0; 0; 0; 0; 0; 0; 0; 0; 0; 0; 0; 0; 0; 0; 0; 0; 0; 0; 0; 0; 0; 0; 0; 0; 0; 0; 0; 0; 0; 0; 0; 0; 0; 0; 0; 0; 0; 0; 0; 0; 0; 0; 0; 0; 0; 0; 0; 0; 0; 0; 0; 0; 0; 0; 0; 0; 0; 0; 0; 0; 0; 0; 0; 0; 0; 0; 0; 0; 0;
  0; 0; 0; 0; 0; 0; 0; 0; 0; 0; 0; 0; 0; 0; 0; 0; 0; 0; 0; 0; 0; 0; 0; 0; 0; 0; 0; 0; 0; 0; 0; 0; 0; 0; 0; 0; 0; 0; 0; 0; 0; 0; 0; 0; 0; 0; 0; 0; 0; 0; 0; 0; 0; 0; 0; 0; 0; 0; 0; 0; 0; 0; 0; 0; 0; 1; (-3); (-4); (-1); 0; 0; 1; (-3); 0; 0; (-2); 0; (-2); (-1); 0; 0; 0; (-1); (-2); (-4); 0; (-1); (-2); 0; (-4);
  0; 0; 0; 0; 0; 0; 0; 0; 0; 0; 0; 0; 0; 0; 0; 0; 0; 0; 0; 0; 0; 0; 0; 0; 0; 0; 0; 0; 0; 0; 0; 0; 0; 0; 0; 0; 0; 0; 0; 0; 0; 0; 0; 0; 0; 0; 0; 0; 0; 0; 0; 0; 0; 0; 0; 0; 0; 0; 0; 0; 0; 0; 0; 0; 0; (-4); (-1); 1; (-3); 0; 0; 1; (-3); 0; 0; (-2); 0; (-2); (-1); 0; 0; 0; (-2); (-1); (-4); 0; (-1); (-4); 0; (-2);
  0; 0; 0; 0; 0; 0; 0; 0; 0; 0; 0; 0; 0; 0; 0; 0; 0; 0; 0; 0; 0; 0; 0; 0; 0; 0; 0; 0; 0; 0; 0; 0; 0; 0; 0; 0; 0; 0; 0; 0; 0; 0; 0; 0; 0; 0; 0; 0; 0; 0; 0; 0; 0; 0; 0; 0; 0; 0; 0; 0; 0; 0; 0; 0; 0; (-4); (-1); (-4); (-1); 0; 0; (-4); (-1); 0; 0; 1; 0; (-4); (-2); 0; 0; 0; (-4); (-4); 5; 0; (-4); 1; 0; 1;
  0; 0; 0; 0; 0; 0; 0; 0; 0; 0; 0; 0; 0; 0; 0; 0; 0; 0; 0; 0; 0; 0; 0; 0; 0; 0; 0; 0; 0; 0; 0; 0; 0; 0; 0; 0; 0; 0; 0; 0; 0; 0; 0; 0; 0; 0; 0; 0; 0; 0; 0; 0; 0; 0; 0; 0; 0; 0; 0; 0; 0; 0; 0; 0; 0; 0; 0; 0; 0; 0; 0; 0; 0; 0; 0; 0; 0; 0; 0; 0; 0; 0; 0; 0; 0; 0; 0; 0; 0; 0;
  0; 0; 0; 0; 0; 0; 0; 0; 0; 0; 0; 0; 0; 0; 0; 0; 0; 0; 0; 0; 0; 0; 0; 0; 0; 0; 0; 0; 0; 0; 0; 0; 0; 0; 0; 0; 0; 0; 0; 0; 0; 0; 0; 0; 0; 0; 0; 0; 0; 0; 0; 0; 0; 0; 0; 0; 0; 0; 0; 0; 0; 0; 0; 0; 0; (-1); (-2); (-1); (-2); 0; 0; (-1); (-2); 0; 0; (-3); 0; (-1); (-1); 0; 0; 0; (-1); (-1); (-4); 0; (-1); (-3); 0; (-3);
  0; 0; 0; 0; 0; 0; 0; 0; 0; 0; 0; 0; 0; 0; 0; 0; 0; 0; 0; 0; 0; 0; 0; 0; 0; 0; 0; 0; 0; 0; 0; 0; 0; 0; 0; 0; 0; 0; 0; 0; 0; 0; 0; 0; 0; 0; 0; 0; 0; 0; 0; 0; 0; 0; 0; 0; 0; 0; 0; 0; 0; 0; 0; 0; 0; 1; (-3); (-4); (-1); 0; 0; (-4); (-1); 0; 0; (-2); 0; (-2); (-1); 0; 0; 0; (-2); (-4); 1; 0; (-3); (-1); 0; (-2);
  0; 0; 0; 0; 0; 0; 0; 0; 0; 0; 0; 0; 0; 0; 0; 0; 0; 0; 0; 0; 0; 0; 0; 0; 0; 0; 0; 0; 0; 0; 0; 0; 0; 0; 0; 0; 0; 0; 0; 0; 0; 0; 0; 0; 0; 0; 0; 0; 0; 0; 0; 0; 0; 0; 0; 0; 0; 0; 0; 0; 0; 0; 0; 0; 0; 0; 0; 0; 0; 0; 0; 0; 0; 0; 0; 0; 0; 0; 0; 0; 0; 0; 0; 0; 0; 0; 0; 0; 0; 0;
  0; 0; 0; 0; 0; 0; 0; 0; 0; 0; 0; 0; 0; 0; 0; 0; 0; 0; 0; 0; 0; 0; 0; 0; 0; 0; 0; 0; 0; 0; 0; 0; 0; 0; 0; 0; 0; 0; 0; 0; 0; 0; 0; 0; 0; 0; 0; 0; 0; 0; 0; 0; 0; 0; 0; 0; 0; 0; 0; 0; 0; 0; 0; 0; 0; (-4); (-1); 1; (-3); 0; 0; (-4); (-1); 0; 0; (-2); 0; (-2); (-1); 0; 0; 0; (-4); (-2); 1; 0; (-3); (-2); 0; (-1)
].

(** [(size_t)c] for a [char] (signed, as on the platforms the Makefile
    targets): codes below 128 keep their value, the others are sign
    extended. *)
Definition size_t_of_char (c : ascii) : Z :=
  let n := Z.of_N (N_of_ascii c) in
  if n <? 128 then n else (n - 256) mod UINT64_MOD.

Definition get_nuc_4_4_index (a b : ascii) : Z :=
  (size_t_of_char a + 90 * size_t_of_char b) mod UINT64_MOD.

(** [get_nuc_4_4_value]: [None] stands for a read past the end of the
    table, which C leaves undefined. *)
Definition get_nuc_4_4_value (a b : ascii) : option Z :=
  EDNAFULL_NUC_4_4 !! Z.to_nat (get_nuc_4_4_index a b).

(** The function pointer handed to the kernel and to the traceback.  Where
    the read is outside the table the value is a placeholder: every
    statement below that depends on it keeps both characters below 90. *)
Definition nuc_4_4_score (a b : ascii) : Z :=
  default 0 (get_nuc_4_4_value a b).

Definition complement_dna_base (base : ascii) : ascii :=
  if Ascii.eqb base "A" then "T"
  else if Ascii.eqb base "a" then "t"
  else if Ascii.eqb base "B" then "V"
  else if Ascii.eqb base "b" then "v"
  else if Ascii.eqb base "C" then "G"
  else if Ascii.eqb base "c" then "g"
  else if Ascii.eqb base "D" then "H"
  else if Ascii.eqb base "d" then "h"
  else if Ascii.eqb base "G" then "C"
  else if Ascii.eqb base "g" then "c"
  else if Ascii.eqb base "H" then "D"
  else if Ascii.eqb base "h" then "d"
  else if Ascii.eqb base "M" then "K"
  else if Ascii.eqb base "m" then "k"
  else if Ascii.eqb base "N" then "N"
  else if Ascii.eqb base "n" then "n"
  else if Ascii.eqb base "S" then "S"
  else if Ascii.eqb base "s" then "s"
  else if Ascii.eqb base "T" then "A"
  else if Ascii.eqb base "t" then "a"
  else if Ascii.eqb base "U" then "A"
  else if Ascii.eqb base "u" then "a"
  else if Ascii.eqb base "V" then "B"
  else if Ascii.eqb base "v" then "b"
  else if Ascii.eqb base "W" then "W"
  else if Ascii.eqb base "w" then "w"
  else if Ascii.eqb base "Y" then "R"
  else if Ascii.eqb base "y" then "r"
  else NUL.

(** [get_reverse_complement]: the buffer of [sequence_length + 1] cells
    after the terminator and the loop's stores. *)
Definition get_reverse_complement (prior : nat -> ascii)
    (sequence : list ascii) : list ascii :=
  let sequence_length := length sequence in
  let buf := <[ sequence_length := NUL ]> (malloc prior (S sequence_length)) in
  fold_left
    (fun b i =>
       <[ (sequence_length - 1 - i)%nat :=
            complement_dna_base (char_at sequence i) ]> b)
    (seq 0 sequence_length) buf.

(** Prior content of the three blocks one alignment allocates. *)
Record allocation := {
  prior_Z : nat -> Z;
  prior_trace_X : nat -> ascii;
  prior_trace_Y : nat -> ascii
}.

(** What [get_linear_gap_smith_waterman_score] returns and stores through
    its pointers. *)
Record alignment := {
  al_score : Z;
  al_trace_X : list ascii;
  al_trace_Y : list ascii;
  al_start_X : nat;
  al_start_Y : nat;
  al_stop_X : nat;
  al_stop_Y : nat
}.

(** [None]: an [assert] stopped the process. *)
Definition get_linear_gap_smith_waterman_score (mem : allocation)
    (seq_X seq_Y : list ascii) (gap_penalty : Z) : option alignment :=
  let len_X := length seq_X in
  let len_Y := length seq_Y in
  let Zm :=
    LinearGap.linear_gap_smith_waterman seq_X seq_Y nuc_4_4_score gap_penalty
      (malloc (prior_Z mem) (len_X * len_Y)) in
  match LinearGap.best_linear_gap_smith_waterman_score_indices
          len_X len_Y Zm 0 0 with
  | (false, _) => None
  | (true, (stop_X, stop_Y)) =>
      let trace_X := malloc (prior_trace_X mem) (stop_X + stop_Y + 3) in
      let trace_Y := malloc (prior_trace_Y mem) (stop_X + stop_Y + 3) in
      match LinearGap.trace_linear_gap_smith_waterman seq_X seq_Y Zm
              nuc_4_4_score gap_penalty trace_X trace_Y stop_X stop_Y with
      | LinearGap.Traced tX tY start_X start_Y =>
          Some {| al_score := rd Zm (stop_X * len_Y + stop_Y);
                  al_trace_X := tX; al_trace_Y := tY;
                  al_start_X := start_X; al_start_Y := start_Y;
                  al_stop_X := stop_X; al_stop_Y := stop_Y |}
      | _ => None
      end
  end.

(** The four counters of [count_mismatches]. *)
Record counters := {
  identical : Z;
  gaps_X : Z;
  gaps_Y : Z;
  mismatches : Z
}.

(** Body of [for (size_t i = 0; i < strlen(trace_X); i++)]. *)
Definition count_column (trace_X trace_Y : list ascii) (c : counters)
    (i : nat) : counters :=
  if Ascii.eqb (char_at trace_X i) (char_at trace_Y i) then
    if Ascii.eqb (char_at trace_X i) GAP then
      {| identical := identical c;
         gaps_X := incr_u64 (gaps_X c);
         gaps_Y := incr_u64 (gaps_Y c);
         mismatches := incr_u64 (mismatches c) |}
    else
      {| identical := incr_u64 (identical c);
         gaps_X := gaps_X c; gaps_Y := gaps_Y c;
         mismatches := mismatches c |}
  else
    let c1 :=
      if Ascii.eqb (char_at trace_X i) GAP then
        {| identical := identical c; gaps_X := incr_u64 (gaps_X c);
           gaps_Y := gaps_Y c; mismatches := mismatches c |}
      else if Ascii.eqb (char_at trace_Y i) GAP then
        {| identical := identical c; gaps_X := gaps_X c;
           gaps_Y := incr_u64 (gaps_Y c); mismatches := mismatches c |}
      else c in
    {| identical := identical c1; gaps_X := gaps_X c1; gaps_Y := gaps_Y c1;
       mismatches := incr_u64 (mismatches c1) |}.

(** The counters after the first [n] passes of the loop. *)
Definition count_loop (trace_X trace_Y : list ascii) (n : nat) : counters :=
  fold_left (count_column trace_X trace_Y) (seq 0 n)
    {| identical := 0; gaps_X := 0; gaps_Y := 0; mismatches := 0 |}.

(** [count_mismatches] on two C strings; [None] when
    [assert(strlen(trace_X) == strlen(trace_Y))] fails. *)
Definition count_mismatches (trace_X trace_Y : list ascii) : option counters :=
  if (length trace_X =? length trace_Y)%nat
  then Some (count_loop trace_X trace_Y (length trace_X))
  else None.

(** The arguments of one [fprintf] of a row in [handle_fastq_tsv]. *)
Record tsv_row := {
  row_reference_identifier : list ascii;
  row_sequence_identifier : list ascii;
  row_score : Z;
  row_gap_penalty : Z;
  row_matrix : string;
  row_alignment_length : nat;
  row_identities : Z;
  row_gaps : Z;
  row_mismatches : Z;
  row_reference_alignment : list ascii;
  row_sequence_alignment : list ascii;
  row_base_quality : list ascii
}.

Definition Reverse_Complement_ : list ascii := chars "Reverse_Complement_".

(** The slice of the quality line copied next to an alignment. *)
Definition alignment_phred_scores (phred_scores : list ascii)
    (sequence_start sequence_stop : nat) : list ascii :=
  take (sequence_stop - sequence_start + 1) (drop sequence_start phred_scores).

(** The two rows [handle_fastq_tsv] writes for one FASTQ record, in order;
    [None] when an [assert] stops the process first.  [mem1], [mem2] are the
    blocks of the first and of the second alignment. *)
Definition handle_fastq_tsv_record (mem1 mem2 : allocation)
    (query_sequence_identifier query_sequence reverse_complement_sequence
     sequence_id sequence phred_scores : list ascii)
    (gap_penalty : Z) : option (tsv_row * tsv_row) :=
  match get_linear_gap_smith_waterman_score mem1 query_sequence sequence
          gap_penalty with
  | None => None
  | Some fwd =>
    let smith_waterman_score := al_score fwd in
    let sequence_alignment := c_str (al_trace_X fwd) in
    let query_sequence_alignment := c_str (al_trace_Y fwd) in
    match count_mismatches sequence_alignment query_sequence_alignment with
    | None => None
    | Some c =>
      let row1 :=
        {| row_reference_identifier := tail query_sequence_identifier;
           row_sequence_identifier := sequence_id;
           row_score := smith_waterman_score;
           row_gap_penalty := gap_penalty;
           row_matrix := "NUC4.4";
           row_alignment_length := length sequence_alignment;
           row_identities := identical c;
           row_gaps := (gaps_X c + gaps_Y c) mod UINT64_MOD;
           row_mismatches := mismatches c;
           row_reference_alignment := sequence_alignment;
           row_sequence_alignment := query_sequence_alignment;
           row_base_quality :=
             alignment_phred_scores phred_scores
               (al_start_Y fwd) (al_stop_Y fwd) |} in
      match get_linear_gap_smith_waterman_score mem2
              reverse_complement_sequence sequence gap_penalty with
      | None => None
      | Some rc =>
        let reverse_complement_smith_waterman_score := al_score rc in
        let sequence_alignment := c_str (al_trace_X rc) in
        let query_sequence_alignment := c_str (al_trace_Y rc) in
        match count_mismatches sequence_alignment query_sequence_alignment with
        | None => None
        | Some c =>
          Some (row1,
            {| row_reference_identifier :=
                 Reverse_Complement_ ++ tail query_sequence_identifier;
               row_sequence_identifier := sequence_id;
               row_score := smith_waterman_score;
               row_gap_penalty := gap_penalty;
               row_matrix := "NUC4.4";
               row_alignment_length := length sequence_alignment;
               row_identities := identical c;
               row_gaps := (gaps_X c + gaps_Y c) mod UINT64_MOD;
               row_mismatches := mismatches c;
               row_reference_alignment := sequence_alignment;
               row_sequence_alignment := query_sequence_alignment;
               row_base_quality :=
                 alignment_phred_scores phred_scores
                   (al_start_Y rc) (al_stop_Y rc) |})
        end
      end
    end
  end.

(** The score argument of the reverse-complement report in
    [handle_fastq_pair], the sibling of [handle_fastq_tsv]. *)
Definition handle_fastq_pair_reverse_complement_score (mem2 : allocation)
    (reverse_complement_sequence sequence : list ascii) (gap_penalty : Z)
    : option Z :=
  match get_linear_gap_smith_waterman_score mem2 reverse_complement_sequence
          sequence gap_penalty with
  | None => None
  | Some rc => Some (al_score rc)
  end.

(** *** Command line *)

(** What [sscanf(optarg, "%lld", gap_penalty)] does: it returns [EOF] when
    the input ends before a conversion, 0 when the input does not start an
    integer (nothing stored), 1 after storing the integer read. *)
Inductive sscanf_result :=
  | ScanEOF
  | ScanNoMatch
  | ScanStored (v : Z).

(** One return of [getopt_long] with the globals it sets. *)
Inductive getopt_event :=
  | OptLong (name optarg : string)
  | OptQuery (optarg : string)
  | OptHelp
  | OptVersion
  | OptGapPenalty (optarg : string)
  | OptError (optopt : ascii)
  | OptUnexpected (c : ascii).

(** The variables of [main] the parser writes through its pointers. *)
Record options := {
  query_sequence : option string;
  sequence : option string;
  gap_penalty : Z;
  output_flag : Z
}.

Inductive parse_result :=
  | ParseReturn (status : Z) (o : options)
  | ParseExit (status : Z).

(** [strstr(haystack, needle) != NULL] *)
Fixpoint strstr_found (haystack needle : string) : bool :=
  String.prefix needle haystack ||
  match haystack with
  | EmptyString => false
  | String _ rest => strstr_found rest needle
  end.

Section CommandLine.
(** [sscanf] with the format ["%lld"] belongs to the C library. *)
Variable sscanf_lld : string -> sscanf_result.
(** The two macros come from a header that is not part of the sources. *)
Variables OUTPUT_TSV OUTPUT_PAIR : Z.

(** One pass through [while ((c = getopt_long(...)) != -1) switch (c)]:
    [inl] leaves the function, [inr] goes on with the next option. *)
Definition parse_option (o : options) (ev : getopt_event)
    : parse_result + options :=
  match ev with
  | OptLong name optarg =>
      if String.eqb name "type" then
        if String.eqb optarg "tsv" then
          inr {| query_sequence := query_sequence o; sequence := sequence o;
                 gap_penalty := gap_penalty o; output_flag := OUTPUT_TSV |}
        else if String.eqb optarg "pair" then
          inr {| query_sequence := query_sequence o; sequence := sequence o;
                 gap_penalty := gap_penalty o; output_flag := OUTPUT_PAIR |}
        else inl (ParseReturn 1 o)
      else inr o
  | OptQuery optarg =>
      if (String.length optarg =? 0)%nat then inl (ParseReturn 1 o)
      else inr {| query_sequence := Some optarg; sequence := sequence o;
                  gap_penalty := gap_penalty o;
                  output_flag := output_flag o |}
  | OptHelp => inl (ParseExit 0)
  | OptVersion => inl (ParseExit 0)
  | OptGapPenalty optarg =>
      match sscanf_lld optarg with
      | ScanEOF => inl (ParseReturn 1 o)
      | ScanNoMatch => inr o
      | ScanStored v =>
          inr {| query_sequence := query_sequence o; sequence := sequence o;
                 gap_penalty := v; output_flag := output_flag o |}
      end
  | OptError _ => inl (ParseReturn 1 o)
  | OptUnexpected _ => inl (ParseReturn 2 o)
  end.

Fixpoint parse_loop (o : options) (evs : list getopt_event)
    : parse_result + options :=
  match evs with
  | [] => inr o
  | ev :: rest =>
      match parse_option o ev with
      | inl r => inl r
      | inr o' => parse_loop o' rest
      end
  end.

(** [parse_ednafull_linear_smith_waterman_options]: [evs] are the returns
    of [getopt_long] up to its -1, [operands] is [argv] from [optind]. *)
Definition parse_ednafull_linear_smith_waterman_options
    (evs : list getopt_event) (operands : list string) (o : options)
    : parse_result :=
  let o0 := {| query_sequence := None; sequence := None;
               gap_penalty := gap_penalty o;
               output_flag := output_flag o |} in
  match parse_loop o0 evs with
  | inl r => r
  | inr o1 =>
      match query_sequence o1 with
      | None => ParseReturn 1 o1
      | Some _ =>
          match operands with
          | [file] =>
              if negb (strstr_found file ".fq")
                 && negb (strstr_found file ".fastq")
              then ParseReturn 1 o1
              else ParseReturn 0
                     {| query_sequence := query_sequence o1;
                        sequence := Some file;
                        gap_penalty := gap_penalty o1;
                        output_flag := output_flag o1 |}
          | _ => ParseReturn 1 o1
          end
      end
  end.

End CommandLine.

(** A reading of ["%lld"] for plain decimal arguments: leading white space
    is skipped, then an optional sign and the longest run of digits are
    converted; the value is clamped to the [long long] range. *)
Definition is_space (c : ascii) : bool :=
  Ascii.eqb c " " || Ascii.eqb c "009" || Ascii.eqb c "010"
  || Ascii.eqb c "011" || Ascii.eqb c "012" || Ascii.eqb c "013".

Definition digit_value (c : ascii) : option Z :=
  let n := Z.of_N (N_of_ascii c) in
  if (48 <=? n) && (n <=? 57) then Some (n - 48) else None.

Fixpoint read_digits (s : string) (acc : Z) : Z :=
  match s with
  | EmptyString => acc
  | String c rest =>
      match digit_value c with
      | Some d => read_digits rest (10 * acc + d)
      | None => acc
      end
  end.

Definition clamp64 (z : Z) : Z := Z.max INT64_MIN (Z.min INT64_MAX z).

Definition read_unsigned (s : string) : option Z :=
  match s with
  | EmptyString => None
  | String c _ =>
      match digit_value c with
      | Some _ => Some (read_digits s 0)
      | None => None
      end
  end.

Fixpoint decimal_sscanf_lld (s : string) : sscanf_result :=
  match s with
  | EmptyString => ScanEOF
  | String c rest =>
      if is_space c then decimal_sscanf_lld rest
      else if Ascii.eqb c "-" then
        match read_unsigned rest with
        | Some v => ScanStored (clamp64 (- v))
        | None => ScanNoMatch
        end
      else if Ascii.eqb c "+" then
        match read_unsigned rest with
        | Some v => ScanStored (clamp64 v)
        | None => ScanNoMatch
        end
      else
        match read_unsigned s with
        | Some v => ScanStored (clamp64 v)
        | None => ScanNoMatch
        end
  end.

(** ** gqss_alignment_format.c ([src/gqss_file_io.c], lines 238-770) *)

(** The arguments of one [sprintf] with the format built from
    ["%%-%llus %%20llu %%s %%20llu\n"]. *)
Record body_line := {
  line_identifier : list ascii;
  line_start : Z;
  line_alignment : list ascii;
  line_end : Z
}.

(** One wrapped block of the body: the [trace_Y] line, the indicator line
    and the [trace_X] line. *)
Record body_segment := {
  segment_Y : body_line;
  segment_matches : list ascii;
  segment_X : body_line
}.

Record body_state := {
  prev_X : Z;
  current_X : Z;
  prev_Y : Z;
  current_Y : Z;
  segments : list body_segment
}.

(** [get_first_string_token_space_delimited] *)
Fixpoint get_first_string_token_space_delimited (s : list ascii)
    : list ascii :=
  match s with
  | [] => []
  | c :: rest =>
      if Ascii.eqb c " " then []
      else c :: get_first_string_token_space_delimited rest
  end.

Section PairBody.
Variables (query_sequence_identifier sequence_identifier : list ascii).
Variables (trace_X trace_Y : list ascii).

(** Body of the loops that advance [current_X] and [current_Y]. *)
Definition advance (cur : Z * Z) (i : nat) : Z * Z :=
  (if Ascii.eqb (char_at trace_X i) GAP then fst cur
   else incr_u64 (fst cur),
   if Ascii.eqb (char_at trace_Y i) GAP then snd cur
   else incr_u64 (snd cur)).

(** The indicator characters of the [n] columns from [first]. *)
Definition indicator (first n : nat) : list ascii :=
  map (fun j =>
         if Ascii.eqb (char_at trace_X (first + j))
                      (char_at trace_Y (first + j))
         then if Ascii.eqb (char_at trace_X (first + j)) GAP
              then " "%char else "|"%char
         else " "%char)
      (seq 0 n).

(** The common part of a full block and of the remainder block: the [n]
    columns from [first] are counted and the three lines are formatted. *)
Definition format_block (st : body_state) (first n : nat)
    : Z * Z * body_segment :=
  let sequence_id_token :=
    get_first_string_token_space_delimited sequence_identifier in
  let query_sequence_id_token :=
    get_first_string_token_space_delimited query_sequence_identifier in
  let '(cX, cY) :=
    fold_left advance (seq first n) (current_X st, current_Y st) in
  let starting_X :=
    if cX >? prev_X st then (prev_X st + 1) mod UINT64_MOD else prev_X st in
  let starting_Y :=
    if cY >? prev_Y st then (prev_Y st + 1) mod UINT64_MOD else prev_Y st in
  (cX, cY,
   {| segment_Y :=
        {| line_identifier := tail sequence_id_token;
           line_start := starting_Y;
           line_alignment := take n (drop first trace_Y);
           line_end := cY |};
      segment_matches := indicator first n;
      segment_X :=
        {| line_identifier := tail query_sequence_id_token;
           line_start := starting_X;
           line_alignment := take n (drop first trace_X);
           line_end := cX |} |}).

(** Body of [for (size_t i = 0; i < alignment_quotient; i++)]. *)
Definition full_block (st : body_state) (i : nat) : body_state :=
  let '(cX, cY, seg) := format_block st (i * 50) 50 in
  {| prev_X := cX; current_X := cX; prev_Y := cY; current_Y := cY;
     segments := segments st ++ [seg] |}.

(** [if (alignment_remaining != 0) { ... }] *)
Definition remainder_block (st : body_state)
    (alignment_quotient alignment_remaining : nat) : body_state :=
  if (alignment_remaining =? 0)%nat then st
  else
    let '(cX, cY, seg) :=
      format_block st (alignment_quotient * 50) alignment_remaining in
    {| prev_X := prev_X st; current_X := cX;
       prev_Y := prev_Y st; current_Y := cY;
       segments := segments st ++ [seg] |}.

(** The body blocks of [generate_int_linear_gap_penalty_pair_alignment],
    in the order they are written.  [None]: the function does not return,
    because [assert(strlen(trace_X) == strlen(trace_Y))],
    [assert(strlen(sequence_identifier) > 1)] or
    [assert(strlen(query_sequence_identifier) > 1)] fails, or because an
    identifier starts with a space: its token is then the empty string in a
    block of one byte, and [token + 1], which every line of the report
    prints, is past that block. *)
Definition pair_alignment_body : option (list body_segment) :=
  if negb (length trace_X =? length trace_Y)%nat then None
  else if negb (1 <? length sequence_identifier)%nat then None
  else if negb (1 <? length query_sequence_identifier)%nat then None
  else
    match get_first_string_token_space_delimited sequence_identifier,
          get_first_string_token_space_delimited query_sequence_identifier
    with
    | _ :: _, _ :: _ =>
        let alignment_length := length trace_X in
        let alignment_quotient := (alignment_length / 50)%nat in
        let alignment_remaining := (alignment_length mod 50)%nat in
        let st0 := {| prev_X := 0; current_X := 0; prev_Y := 0;
                      current_Y := 0; segments := [] |} in
        let st1 := fold_left full_block (seq 0 alignment_quotient) st0 in
        Some (segments
                (remainder_block st1 alignment_quotient alignment_remaining))
    | _, _ => None
    end.
End PairBody.

(** ** Reference definitions used by the statements *)

(** An identifier the pair report takes: longer than one character, as its
    assertion asks, and not starting with a space, so that its token is not
    empty. *)
Definition report_identifier (s : list ascii) : Prop :=
  (1 < length s)%nat /\ char_at s 0 <> " "%char.

(** Number of characters of a trace that are not the gap character. *)
Fixpoint bases (t : list ascii) : Z :=
  match t with
  | [] => 0
  | c :: rest => (if Ascii.eqb c GAP then 0 else 1) + bases rest
  end.

(** Whether a piece of a trace holds a character that is not a gap. *)
Definition has_base (t : list ascii) : bool :=
  existsb (fun c => negb (Ascii.eqb c GAP)) t.

(** The [k]-th block of 50 columns of a trace (the last one may be short). *)
Definition block (k : nat) (t : list ascii) : list ascii :=
  take 50 (drop (50 * k) t).


(** The walk of the traceback as the specification words it: columns in
    the order they are emitted, from cell [(i, j)].  At a cell of the first
    row or column one last column is emitted; elsewhere the left gap is
    tried first, then the diagonal (which ends the walk when the diagonal
    predecessor is zero), then the up gap; [None] when no rule applies. *)
Section Walk.
Variables (seq_X seq_Y : list ascii).
Variable Zm : list Z.
Variable score_fn : ascii -> ascii -> Z.
Variable G : Z.

Definition cell (i j : nat) : Z := rd Zm (i * length seq_Y + j).

(** What the traceback from [(i, j)] needs of the matrix: a gap move must
    not land on a zero cell.  It is so when the entries and the gap
    penalty are non-negative [int64_t], the floor of the kernel, and also
    when no cell above and to the left of the start is zero. *)
Definition well_scored (i j : nat) : Prop :=
  (0 <= G <= INT64_MAX /\ forall k : nat, 0 <= rd Zm k <= INT64_MAX)
  \/ (forall i' j' : nat,
        (i' <= i)%nat -> (j' <= j)%nat -> cell i' j' <> 0).

Fixpoint walk (i : nat) : nat -> option (list (ascii * ascii)) :=
  match i with
  | O => fun j => Some [(char_at seq_X 0, char_at seq_Y j)]
  | S i' =>
      fix walk_row (j : nat) : option (list (ascii * ascii)) :=
        match j with
        | O => Some [(char_at seq_X (S i'), char_at seq_Y 0)]
        | S j' =>
            if sub64 (cell (S i') j') G =? cell (S i') (S j') then
              option_map (cons (GAP, char_at seq_Y (S j'))) (walk_row j')
            else if add64 (cell i' j')
                          (score_fn (char_at seq_X (S i'))
                                    (char_at seq_Y (S j')))
                      =? cell (S i') (S j') then
              if cell i' j' =? 0
              then Some [(char_at seq_X (S i'), char_at seq_Y (S j'))]
              else option_map
                     (cons (char_at seq_X (S i'), char_at seq_Y (S j')))
                     (walk i' j')
            else if sub64 (cell i' (S j')) G =? cell (S i') (S j') then
              option_map (cons (char_at seq_X (S i'), GAP))
                         (walk i' (S j'))
            else None
        end
  end.
End Walk.

(** The value the kernel computes for cell [(i, j)] from the cells of the
    array [scores] stored before it; a neighbour outside the matrix is
    passed as the constant 0. *)
Section Stored.
Variables (seq_X seq_Y : list ascii).
Variable score_fn : ascii -> ascii -> Z.
Variable G : Z.

Definition stored_value (scores : list Z) (i j : nat) : Z :=
  let len_Y := length seq_Y in
  let left :=
    match j with O => 0 | S j' => rd scores (i * len_Y + j') end in
  let up :=
    match i with O => 0 | S i' => rd scores (i' * len_Y + j) end in
  let up_left :=
    match i, j with
    | S i', S j' => rd scores (i' * len_Y + j')
    | _, _ => 0
    end in
  LinearGap.best_linear_gap_smith_waterman_score left up_left up
    (char_at seq_X i) (char_at seq_Y j) score_fn G.

(** Every cell with a flat index below [n] holds its stored value. *)
Definition filled (scores : list Z) (n : nat) : Prop :=
  forall i j : nat,
    (j < length seq_Y)%nat -> (i * length seq_Y + j < n)%nat ->
    rd scores (i * length seq_Y + j) = stored_value scores i j.
End Stored.

(** [store k cs buf]: the buffer [buf] after the characters [cs] have been
    written from offset [k] on. *)
Definition store (k : nat) (cs buf : list ascii) : list ascii :=
  take k buf ++ cs ++ drop (k + length cs) buf.

(** The matrix of the example program, ["GGTTGACTA"] against ["TGTTACGG"]
    with [+3/-3] scores and gap penalty 2. *)
Definition example_matrix : list Z :=
  Eval vm_compute in
    LinearGap.linear_gap_smith_waterman (chars "GGTTGACTA") (chars "TGTTACGG")
      get_example_substitution 2 (repeat 0 72).

(** The codes for which the table has an entry. *)
Definition recognized (c : ascii) : bool :=
  existsb (Ascii.eqb c) (chars "ABCDGHKMNRSTVWY").






(** The check run over the pairs of codes whose index is inside the
    table: the entry exists, and it is 0 unless both codes are recognized. *)
Definition table_entry_ok (a b : ascii) : bool :=
  if get_nuc_4_4_index a b <? 8100 then
    match get_nuc_4_4_value a b with
    | Some v => (recognized a && recognized b) || (v =? 0)
    | None => false
    end
  else true.

(** The coordinates a block of [n] columns from column [first] must show:
    the start is the count of non-gap characters before the block, plus one
    when the block holds a non-gap character; the end is the count up to
    the end of the block. *)
Definition block_coordinates (trace_X trace_Y : list ascii) (first n : nat)
    (seg : body_segment) : Prop :=
  line_start (segment_X seg)
  = bases (take first trace_X)
    + (if has_base (take n (drop first trace_X)) then 1 else 0)
  /\ line_end (segment_X seg) = bases (take (first + n) trace_X)
  /\ line_start (segment_Y seg)
     = bases (take first trace_Y)
       + (if has_base (take n (drop first trace_Y)) then 1 else 0)
  /\ line_end (segment_Y seg) = bases (take (first + n) trace_Y).

(** The four bases that score positively against themselves. *)
Definition is_acgt (c : ascii) : bool :=
  existsb (Ascii.eqb c) (chars "ACGT").


(** With scores of at most [M], the most a cell [(i, j)] can hold. *)
Definition cell_limit (M : Z) (i j : nat) : Z :=
  M * (Z.of_nat (Nat.min i j) + 1).

(** ** Reference definitions for the further properties *)

(** A trace without its gap characters. *)
Definition ungapped (t : list ascii) : list ascii :=
  List.filter (fun c => negb (Ascii.eqb c GAP)) t.

(** [s[first..last]], both ends included. *)
Definition slice (s : list ascii) (first last : nat) : list ascii :=
  take (S last - first) (drop first s).

(** The columns [cols], in the order the traceback emits them (last column
    of the alignment first), align [seq_X[x'..x]] with [seq_Y[y'..y]]: the
    characters that are not gaps are those of the two substrings, no column
    holds a NUL and no column holds two gaps. *)
Definition spans (seq_X seq_Y : list ascii) (cols : list (ascii * ascii))
    (x' y' x y : nat) : Prop :=
  (x' <= x)%nat /\ (y' <= y)%nat
  /\ ungapped (map fst cols) = rev (slice seq_X x' x)
  /\ ungapped (map snd cols) = rev (slice seq_Y y' y)
  /\ Forall (fun c => fst c <> NUL /\ snd c <> NUL
                      /\ ~ (fst c = GAP /\ snd c = GAP)) cols.

(** The codes below 90: a pair of them is always inside the 90x90 table. *)
Definition table_code (c : ascii) : bool := (nat_of_ascii c <? 90)%nat.

(** The bytes for which [complement_dna_base] has a [case]. *)
Definition complemented (c : ascii) : bool :=
  existsb (Ascii.eqb c) (chars "AaBbCcDdGgHhMmNnSsTtUuVvWwYy").

(** The bytes that the complement of their complement gives back. *)
Definition self_inverse_base (c : ascii) : bool :=
  existsb (Ascii.eqb c) (chars "AaBbCcDdGgHhNnSsTtVvWw").

(** *** What a command line says, for the statements on [main] *)

(** The returns of [getopt_long] the loop of the parser goes past: a long
    option other than [--type], [--type] with [tsv] or [pair], [-q] with a
    non-empty argument and [-P] unless [sscanf] returns [EOF]. *)
Definition accepted (sscanf_lld : string -> sscanf_result)
    (ev : getopt_event) : bool :=
  match ev with
  | OptLong name optarg =>
      negb (String.eqb name "type")
      || String.eqb optarg "tsv" || String.eqb optarg "pair"
  | OptQuery optarg => negb (String.length optarg =? 0)%nat
  | OptGapPenalty optarg =>
      match sscanf_lld optarg with ScanEOF => false | _ => true end
  | _ => false
  end.

(** The status the process ends with at an option that is not accepted. *)
Definition rejection_status (ev : getopt_event) : Z :=
  match ev with
  | OptHelp | OptVersion => 0
  | OptUnexpected _ => 2
  | _ => 1
  end.

(** The arguments of the [-q] options, in order. *)
Definition stored_queries (evs : list getopt_event) : list string :=
  flat_map (fun ev => match ev with OptQuery q => [q] | _ => [] end) evs.

(** The output types the [--type] options name, in order. *)
Definition chosen_types (OUTPUT_TSV OUTPUT_PAIR : Z)
    (evs : list getopt_event) : list Z :=
  flat_map
    (fun ev =>
       match ev with
       | OptLong name optarg =>
           if String.eqb name "type" then
             if String.eqb optarg "tsv" then [OUTPUT_TSV]
             else if String.eqb optarg "pair" then [OUTPUT_PAIR]
             else []
           else []
       | _ => []
       end) evs.

(** The integers the [-P] options store, in order. *)
Definition stored_gap_penalties (sscanf_lld : string -> sscanf_result)
    (evs : list getopt_event) : list Z :=
  flat_map
    (fun ev =>
       match ev with
       | OptGapPenalty optarg =>
           match sscanf_lld optarg with ScanStored v => [v] | _ => [] end
       | _ => []
       end) evs.

(** The operand names a FASTQ file for the parser: [".fq"] or [".fastq"]
    occurs somewhere in it. *)
Definition fastq_name (file : string) : bool :=
  strstr_found file ".fq" || strstr_found file ".fastq".

(** Number of ['|'] in an indicator line of the pair format. *)
Fixpoint bars (l : list ascii) : Z :=
  match l with
  | [] => 0
  | c :: rest => (if Ascii.eqb c "|" then 1 else 0) + bars rest
  end.

(** ** gqss_file_io.c *)

Definition LF : ascii := "010"%char.
Definition CR : ascii := "013"%char.

(** [extract_line]: the block of [line_length + 1] cells it returns, after
    the terminator, the [memcpy] from [data + (idx - line_length)] and the
    test of the carriage return.  [None]: [line_length] is 0 and the test
    reads [line[-1]], before the block. *)
Definition extract_line (prior : nat -> ascii) (data : list ascii)
    (idx line_length : nat) : option (list ascii) :=
  let line0 := <[ line_length := NUL ]> (malloc prior (S line_length)) in
  let line :=
    store 0 (map (char_at data) (seq (idx - line_length) line_length)) line0 in
  if (line_length =? 0)%nat then None
  else if Ascii.eqb (char_at line (line_length - 1)) CR
  then Some (<[ (line_length - 1)%nat := NUL ]> line)
  else Some line.

(** *** The loop over the lines of a FASTQ file
    ([handle_fastq_tsv] and [handle_fastq_pair]) *)

(** The three strings the body of the loop works on at a fourth line. *)
Record fastq_record := {
  fq_id : list ascii;
  fq_bases : list ascii;
  fq_quality : list ascii
}.

(** The variables of the loop, and the records it has run its two
    alignments on so far, each with what was written for it;
    [fq_sequence_id] and [fq_sequence] are [None] for a NULL pointer. *)
Record fastq_state (Out : Type) := {
  fq_line_count : Z;
  fq_last_newline : nat;
  fq_sequence_id : option (list ascii);
  fq_sequence : option (list ascii);
  fq_records : list (fastq_record * Out)
}.
Arguments fq_line_count {Out} _.
Arguments fq_last_newline {Out} _.
Arguments fq_sequence_id {Out} _.
Arguments fq_sequence {Out} _.
Arguments fq_records {Out} _.

Section FastqLoop.
Context {Out : Type}.
(** What the loop does at a fourth line with the three strings of the
    record, from the two calls of [get_linear_gap_smith_waterman_score] to
    the last [fprintf]; [current_index] tells the allocations of one pass
    from those of another.  [None]: it does not return (an assertion stops
    the process, or the behaviour is undefined).  In [handle_fastq_tsv] it
    is [handle_fastq_tsv_record] on the query, its reverse complement and
    the three strings. *)
Variable body : nat -> fastq_record -> option Out.
(** The prior content of the block [extract_line] allocates. *)
Variable line_prior : nat -> nat -> ascii.
Variable fastq_data : list ascii.

(** Body of [if (fastq_data[current_index] == '\n')].  [None]: the loop
    does not go on (a read before a block in [extract_line], or the body
    of the fourth line does not return). *)
Definition fastq_newline (st : fastq_state Out) (current_index : nat)
    : option (fastq_state Out) :=
  let line_count := incr_u64 (fq_line_count st) in
  let current_line_length := (current_index - fq_last_newline st)%nat in
  let last_newline := S current_index in
  let sequence_row := line_count mod 4 in
  if sequence_row =? 1 then
    match extract_line (line_prior current_index) fastq_data current_index
            current_line_length with
    | None => None
    | Some line =>
        Some {| fq_line_count := line_count; fq_last_newline := last_newline;
                fq_sequence_id := Some line; fq_sequence := fq_sequence st;
                fq_records := fq_records st |}
    end
  else if sequence_row =? 2 then
    match extract_line (line_prior current_index) fastq_data current_index
            current_line_length with
    | None => None
    | Some line =>
        Some {| fq_line_count := line_count; fq_last_newline := last_newline;
                fq_sequence_id := fq_sequence_id st; fq_sequence := Some line;
                fq_records := fq_records st |}
    end
  else if sequence_row =? 0 then
    match extract_line (line_prior current_index) fastq_data current_index
            current_line_length with
    | None => None
    | Some phred_scores =>
        match fq_sequence_id st, fq_sequence st with
        | Some sequence_id, Some sequence =>
            let record := {| fq_id := c_str sequence_id;
                             fq_bases := c_str sequence;
                             fq_quality := c_str phred_scores |} in
            match body current_index record with
            | None => None
            | Some out =>
                Some {| fq_line_count := line_count;
                        fq_last_newline := last_newline;
                        fq_sequence_id := None; fq_sequence := None;
                        fq_records := fq_records st ++ [(record, out)] |}
            end
        | _, _ => None
        end
    end
  else
    Some {| fq_line_count := line_count; fq_last_newline := last_newline;
            fq_sequence_id := fq_sequence_id st; fq_sequence := fq_sequence st;
            fq_records := fq_records st |}.

(** One pass through the body of [while (current_index < total_bytes)]. *)
Definition fastq_step (st : option (fastq_state Out)) (current_index : nat)
    : option (fastq_state Out) :=
  match st with
  | None => None
  | Some s =>
      if Ascii.eqb (char_at fastq_data current_index) LF
      then fastq_newline s current_index
      else Some s
  end.

(** The loop on the text [fastq_data] of a file ([total_bytes] is its
    length): the records it ran the body on, in order, each with what the
    body gave. *)
Definition fastq_records : option (list (fastq_record * Out)) :=
  option_map fq_records
    (fold_left fastq_step (seq 0 (length fastq_data))
       (Some {| fq_line_count := 0; fq_last_newline := 0;
                fq_sequence_id := None; fq_sequence := None;
                fq_records := [] |})).
End FastqLoop.

(** *** FASTA *)

(** A loop over indices whose body may return from the function. *)
Fixpoint scan_loop {St R : Type} (step : St -> nat -> R + St)
    (indices : list nat) (st : St) : R + St :=
  match indices with
  | [] => inr st
  | i :: rest =>
      match step st i with
      | inl r => inl r
      | inr st' => scan_loop step rest st'
      end
  end.

(** The variables of the loop of [get_length_fasta_sequence]. *)
Record fasta_length_state := {
  fl_encountered_sequence_identifier : bool;
  fl_sequence_length : nat;
  fl_last_newline : nat
}.

Definition fasta_length_step (fasta_data : list ascii)
    (st : fasta_length_state) (current_index : nat)
    : nat + fasta_length_state :=
  if Ascii.eqb (char_at fasta_data current_index) LF then
    let current_line_length := (current_index - fl_last_newline st)%nat in
    let last_newline := S current_index in
    let first := char_at fasta_data (current_index - current_line_length) in
    let sequence_length := fl_sequence_length st in
    let continue (seen : bool) (n : nat) :=
      inr {| fl_encountered_sequence_identifier := seen;
             fl_sequence_length := n; fl_last_newline := last_newline |} in
    if negb (fl_encountered_sequence_identifier st) then
      if Ascii.eqb first ">" then continue true sequence_length
      else if Ascii.eqb first ";" || Ascii.eqb first LF
      then continue false sequence_length
      else inl sequence_length
    else
      if Ascii.eqb first ">" then inl sequence_length
      else if Ascii.eqb first ";" then continue true sequence_length
      else if (current_line_length =? 0)%nat then inl sequence_length
      else if Ascii.eqb (char_at fasta_data (current_index - 1)) CR then
        if (current_line_length =? 1)%nat then inl sequence_length
        else continue true (sequence_length + current_line_length - 1)%nat
      else continue true (sequence_length + current_line_length)%nat
  else inr st.

Definition get_length_fasta_sequence (fasta_data : list ascii) : nat :=
  match scan_loop (fasta_length_step fasta_data)
          (seq 0 (length fasta_data))
          {| fl_encountered_sequence_identifier := false;
             fl_sequence_length := 0; fl_last_newline := 0 |} with
  | inl sequence_length => sequence_length
  | inr st => fl_sequence_length st
  end.

(** What [extract_fasta_sequence] returns and stores through its two
    pointers ([None] for NULL), or how it stops. *)
Inductive fasta_result :=
  | FastaReturn (bytes_parsed : nat)
      (fasta_sequence_identifier sequence : option (list ascii))
  | FastaAssertionFailed
  | FastaUndefined.

Record fasta_state := {
  fa_encountered_sequence_identifier : bool;
  fa_total_bytes_copied : nat;
  fa_last_newline : nat;
  fa_identifier : option (list ascii);
  fa_sequence : list ascii
}.

(** The [assert] on the length of the string in the sequence block, then
    [return bytes_parsed]. *)
Definition fasta_return (sequence_length bytes_parsed : nat)
    (st : fasta_state) : fasta_result :=
  if (length (c_str (fa_sequence st)) =? sequence_length)%nat
  then FastaReturn bytes_parsed (fa_identifier st) (Some (fa_sequence st))
  else FastaAssertionFailed.

Definition fasta_step (line_prior : nat -> nat -> ascii)
    (fasta_data : list ascii) (sequence_length : nat)
    (st : fasta_state) (current_index : nat) : fasta_result + fasta_state :=
  if Ascii.eqb (char_at fasta_data current_index) LF then
    let current_line_length := (current_index - fa_last_newline st)%nat in
    let last_newline := S current_index in
    let first := char_at fasta_data (current_index - current_line_length) in
    let skip :=
      inr {| fa_encountered_sequence_identifier :=
               fa_encountered_sequence_identifier st;
             fa_total_bytes_copied := fa_total_bytes_copied st;
             fa_last_newline := last_newline;
             fa_identifier := fa_identifier st;
             fa_sequence := fa_sequence st |} in
    let copy (n : nat) :=
      inr {| fa_encountered_sequence_identifier := true;
             fa_total_bytes_copied := (fa_total_bytes_copied st + n)%nat;
             fa_last_newline := last_newline;
             fa_identifier := fa_identifier st;
             fa_sequence :=
               store (fa_total_bytes_copied st)
                 (map (char_at fasta_data)
                    (seq (current_index - current_line_length) n))
                 (fa_sequence st) |} in
    if negb (fa_encountered_sequence_identifier st) then
      if Ascii.eqb first ">" then
        match extract_line (line_prior current_index) fasta_data
                current_index current_line_length with
        | None => inl FastaUndefined
        | Some line =>
            inr {| fa_encountered_sequence_identifier := true;
                   fa_total_bytes_copied := fa_total_bytes_copied st;
                   fa_last_newline := last_newline;
                   fa_identifier := Some line;
                   fa_sequence := fa_sequence st |}
        end
      else if Ascii.eqb first ";" || Ascii.eqb first LF then skip
      else inl (FastaReturn current_index (fa_identifier st) None)
    else
      if Ascii.eqb first ">" then
        inl (fasta_return sequence_length
               (current_index - current_line_length) st)
      else if Ascii.eqb first ";" then skip
      else if (current_line_length =? 0)%nat then
        inl (fasta_return sequence_length current_index st)
      else if Ascii.eqb (char_at fasta_data (current_index - 1)) CR then
        if (current_line_length =? 1)%nat then
          inl (fasta_return sequence_length current_index st)
        else copy (current_line_length - 1)%nat
      else copy current_line_length
  else inr st.

(** [extract_fasta_sequence]; [sequence_prior] is the prior content of the
    block allocated for the sequence. *)
Definition extract_fasta_sequence (sequence_prior : nat -> ascii)
    (line_prior : nat -> nat -> ascii) (fasta_data : list ascii)
    : fasta_result :=
  let sequence_length := get_length_fasta_sequence fasta_data in
  if (sequence_length =? 0)%nat then FastaReturn 0 None None
  else
    let sequence :=
      <[ sequence_length := NUL ]>
        (malloc sequence_prior (S sequence_length)) in
    match scan_loop (fasta_step line_prior fasta_data sequence_length)
            (seq 0 (length fasta_data))
            {| fa_encountered_sequence_identifier := false;
               fa_total_bytes_copied := 0; fa_last_newline := 0;
               fa_identifier := None; fa_sequence := sequence |} with
    | inl r => r
    | inr st => fasta_return sequence_length (length fasta_data) st
    end.

(** A line as [extract_line] gives it back: without one final carriage
    return. *)
Definition chomp (line : list ascii) : list ascii :=
  match rev line with
  | c :: r => if Ascii.eqb c CR then rev r else line
  | [] => line
  end.

(** The text of a file made of the lines [lines], each followed by a line
    feed. *)
Definition unlines (lines : list (list ascii)) : list ascii :=
  flat_map (fun line => line ++ [LF]) lines.

(** A line of a text file: it holds no line feed and, as part of a C
    string, no NUL. *)
Definition text_line (line : list ascii) : Prop :=
  ~ In LF line /\ ~ In NUL line.

(** The text of a FASTQ file made of records of four lines. *)
Definition fastq_text
    (records : list (list ascii * list ascii * list ascii * list ascii))
    : list ascii :=
  flat_map (fun '(a, b, c, d) => unlines [a; b; c; d]) records.

(** A record of four lines the loop can take: the third line may be empty
    (it is never extracted), the others may not. *)
Definition fastq_well_formed
    (r : list ascii * list ascii * list ascii * list ascii) : Prop :=
  let '(a, b, c, d) := r in
  a <> [] /\ b <> [] /\ d <> []
  /\ text_line a /\ text_line b /\ text_line c /\ text_line d.

(** What the loop makes of it. *)
Definition fastq_record_of
    (r : list ascii * list ascii * list ascii * list ascii) : fastq_record :=
  let '(a, b, c, d) := r in
  {| fq_id := chomp a; fq_bases := chomp b; fq_quality := chomp d |}.

(** *** The shape of a FASTA text, for the statements *)

(** Before the identifier: an empty line or a line that starts with [;]. *)
Definition comment_line (line : list ascii) : Prop :=
  text_line line /\ (line = [] \/ char_at line 0 = ";"%char).

(** A line of the sequence: not empty, not a lone carriage return, and it
    starts neither with [>] nor with [;]. *)
Definition sequence_line (line : list ascii) : Prop :=
  text_line line /\ line <> [] /\ line <> [CR]
  /\ char_at line 0 <> ">"%char /\ char_at line 0 <> ";"%char.

(** What follows the lines of the first sequence: the end of the text,
    perhaps after a last line without line feed; an empty line; or the
    identifier line of a second sequence. *)
Inductive fasta_ending :=
  | EndOfText (tail : list ascii)
  | BlankLine (rest : list ascii)
  | NextRecord (name rest : list ascii).

Definition ending_text (e : fasta_ending) : list ascii :=
  match e with
  | EndOfText tail => tail
  | BlankLine rest => LF :: rest
  | NextRecord name rest => (">"%char :: name) ++ LF :: rest
  end.

Definition ending_ok (e : fasta_ending) : Prop :=
  match e with
  | EndOfText tail => text_line tail
  | BlankLine rest => ~ In NUL rest
  | NextRecord name rest => text_line name /\ ~ In NUL rest
  end.

(** The index [extract_fasta_sequence] returns, [before] being the number
    of bytes up to the end of the last line of the sequence. *)
Definition ending_parsed (before : nat) (e : fasta_ending) : nat :=
  match e with
  | EndOfText tail => (before + length tail)%nat
  | BlankLine _ => before
  | NextRecord _ _ => before
  end.

Definition fasta_text (comments : list (list ascii)) (name : list ascii)
    (lines : list (list ascii)) (e : fasta_ending) : list ascii :=
  unlines comments ++ unlines [">"%char :: name] ++ unlines lines
  ++ ending_text e.


(** ** [read_file] and [main] *)

(** What the file system holds under a name, as [read_file] meets it:
    nothing that [stat] finds to be a regular file; a regular file that
    [fopen] cannot open; or a regular file whose [st_size] bytes are all
    read. *)
Inductive file_status :=
  | NoRegularFile
  | NotOpened
  | Opened (content : list ascii).

(** What [read_file] does: it stops the process on its assertion, returns
    NULL, or returns the block of [st_size + 1] bytes it has filled. *)
Inductive read_result :=
  | ReadAssertionFailed
  | ReadNull
  | ReadData (file_data : list ascii).

Definition read_file (file_system : string -> file_status)
    (filename : string) : read_result :=
  match file_system filename with
  | NoRegularFile => ReadAssertionFailed
  | NotOpened => ReadNull
  | Opened content => ReadData (content ++ [NUL])
  end.

(** How [main] ends, or the handler it calls with its arguments
    ([fastq_data] is [None] for NULL; the two query strings are the blocks
    [extract_fasta_sequence] stored). *)
Inductive main_outcome :=
  | MainExit (status : Z)
  | MainAssertionFailed
  | MainUndefined
  | MainHandleFastqTsv (fastq_filename : string)
      (fastq_data : option (list ascii))
      (query_sequence_identifier query_sequence : list ascii)
      (gap_penalty : Z)
  | MainHandleFastqPair (fastq_filename : string)
      (fastq_data : option (list ascii))
      (query_sequence_identifier query_sequence : list ascii)
      (gap_penalty : Z).

Section Main.
Variable sscanf_lld : string -> sscanf_result.
Variables OUTPUT_TSV OUTPUT_PAIR : Z.
Variable file_system : string -> file_status.
(** Prior content of the blocks [extract_fasta_sequence] allocates. *)
Variable sequence_prior : nat -> ascii.
Variable line_prior : nat -> nat -> ascii.

(** [main] up to the call of a handler; [output_flag0] is the indeterminate
    initial value of the local [output_flag].  [MainUndefined]: a NULL or an
    indeterminate pointer is read as a string. *)
Definition main (evs : list getopt_event) (operands : list string)
    (output_flag0 : Z) : main_outcome :=
  let o := {| query_sequence := None; sequence := None;
              gap_penalty := 16; output_flag := output_flag0 |} in
  match parse_ednafull_linear_smith_waterman_options sscanf_lld OUTPUT_TSV
          OUTPUT_PAIR evs operands o with
  | ParseExit status => MainExit status
  | ParseReturn parse_status o1 =>
      if parse_status =? 0 then
        match query_sequence o1, sequence o1 with
        | Some query_sequence_filename, Some sequence_filename =>
            match read_file file_system query_sequence_filename with
            | ReadAssertionFailed => MainAssertionFailed
            | ReadNull => MainUndefined
            | ReadData fasta_data =>
                match extract_fasta_sequence sequence_prior line_prior
                        (c_str fasta_data) with
                | FastaAssertionFailed => MainAssertionFailed
                | FastaUndefined => MainUndefined
                | FastaReturn _ _ None => MainExit 1
                | FastaReturn _ None (Some _) => MainUndefined
                | FastaReturn _ (Some fasta_sequence_identifier)
                    (Some query) =>
                    match read_file file_system sequence_filename with
                    | ReadAssertionFailed => MainAssertionFailed
                    | data =>
                        let fastq_data :=
                          match data with
                          | ReadData d => Some d
                          | _ => None
                          end in
                        if output_flag o1 =? OUTPUT_TSV then
                          MainHandleFastqTsv sequence_filename fastq_data
                            fasta_sequence_identifier query (gap_penalty o1)
                        else if output_flag o1 =? OUTPUT_PAIR then
                          MainHandleFastqPair sequence_filename fastq_data
                            fasta_sequence_identifier query (gap_penalty o1)
                        else MainExit 1
                    end
                end
            end
        | _, _ => MainUndefined
        end
      else MainExit parse_status
  end.
End Main.



(** What [main] makes of the query file named by [-q]: the identifier and
    the sequence it hands to a handler, when it gets that far. *)
Definition query_of (file_system : string -> file_status)
    (sequence_prior : nat -> ascii) (line_prior : nat -> nat -> ascii)
    (query_sequence_filename : string)
    : option (list ascii * list ascii) :=
  match read_file file_system query_sequence_filename with
  | ReadData fasta_data =>
      match extract_fasta_sequence sequence_prior line_prior
              (c_str fasta_data) with
      | FastaReturn _ (Some identifier) (Some query) =>
          Some (identifier, query)
      | _ => None
      end
  | _ => None
  end.

(** The FASTQ text [main] hands to a handler: [None] when [read_file]
    stops on its assertion, [Some None] for NULL. *)
Definition fastq_of (file_system : string -> file_status)
    (sequence_filename : string) : option (option (list ascii)) :=
  match read_file file_system sequence_filename with
  | ReadAssertionFailed => None
  | ReadNull => Some None
  | ReadData d => Some (Some d)
  end.

(** A file system for the examples: a query file with one record and a
    file of reads with one record. *)
Definition example_files (filename : string) : file_status :=
  if String.eqb filename "gene.fasta" then
    Opened (chars ">gene" ++ LF :: chars "ACGT" ++ [LF])
  else if String.eqb filename "reads.fastq" then
    Opened (chars "@r1" ++ LF :: chars "ACGT" ++ LF :: chars "+" ++ LF
            :: chars "IIII" ++ [LF])
  else NoRegularFile.

(** Whether an outcome of [main] is the call of a handler. *)
Definition calls_handler (out : main_outcome) : bool :=
  match out with
  | MainHandleFastqTsv _ _ _ _ _ | MainHandleFastqPair _ _ _ _ _ => true
  | _ => false
  end.
(** * Properties *)

(** ** Machine integers *)

Ltac int64_consts :=
  unfold in_int64, INT64_MIN, INT64_MAX, UINT64_MOD in *;
  change (2 ^ 63) with 9223372036854775808 in *;
  change (2 ^ 64) with 18446744073709551616 in *.

Lemma wrap64_id (z : Z) : in_int64 z -> wrap64 z = z.
Proof.
  intros H. unfold wrap64. int64_consts.
  rewrite Z.mod_small by lia. lia.
Qed.

Lemma wrap64_range (z : Z) : in_int64 (wrap64 z).
Proof.
  unfold wrap64. int64_consts.
  pose proof (Z.mod_pos_bound (z + 9223372036854775808) 18446744073709551616).
  lia.
Qed.

Lemma incr_u64_small (c : Z) : 0 <= c < UINT64_MOD - 1 -> incr_u64 c = c + 1.
Proof.
  intros H. unfold incr_u64. int64_consts. apply Z.mod_small. lia.
Qed.

Lemma max_spec (a b : Z) : LinearGap.max a b = Z.max a b.
Proof. unfold LinearGap.max. destruct (Z.ltb_spec a b); lia. Qed.

(** ** Loops over index ranges *)

Lemma fold_left_seq_S {A : Type} (f : A -> nat -> A) (start n : nat) (a : A) :
  fold_left f (seq start (S n)) a = f (fold_left f (seq start n) a) (start + n)%nat.
Proof. rewrite seq_S, fold_left_app. reflexivity. Qed.

(** An invariant indexed by the loop variable holds when the loop ends. *)
Lemma fold_left_seq_invariant {A : Type} (I : nat -> A -> Prop)
    (f : A -> nat -> A) (start n : nat) (a : A) :
  I start a ->
  (forall k x, (start <= k < start + n)%nat -> I k x -> I (S k) (f x k)) ->
  I (start + n)%nat (fold_left f (seq start n) a).
Proof.
  intros H0 Hstep. induction n as [|n IH].
  - rewrite Nat.add_0_r. exact H0.
  - rewrite fold_left_seq_S, Nat.add_succ_r.
    apply Hstep; [lia|]. apply IH. intros k x Hk. apply Hstep. lia.
Qed.

(** ** The mismatch and gap counter *)

Lemma count_loop_S (trace_X trace_Y : list ascii) (n : nat) :
  count_loop trace_X trace_Y (S n)
  = count_column trace_X trace_Y (count_loop trace_X trace_Y n) n.
Proof. unfold count_loop. rewrite fold_left_seq_S. reflexivity. Qed.

(** No counter can exceed the number of columns seen, and every column is
    counted either as identical or as a mismatch. *)
Lemma count_loop_bounds (trace_X trace_Y : list ascii) (n : nat) :
  Z.of_nat n < UINT64_MOD ->
  let c := count_loop trace_X trace_Y n in
  0 <= identical c /\ 0 <= gaps_X c <= Z.of_nat n
  /\ 0 <= gaps_Y c <= Z.of_nat n /\ 0 <= mismatches c
  /\ identical c + mismatches c = Z.of_nat n.
Proof.
  induction n as [|n IH]; intros Hn.
  - cbn. lia.
  - rewrite count_loop_S.
    destruct IH as (Hi & Hx & Hy & Hm & Hsum); [lia|].
    set (c := count_loop trace_X trace_Y n) in *.
    unfold count_column.
    destruct (Ascii.eqb (char_at trace_X n) (char_at trace_Y n));
      destruct (Ascii.eqb (char_at trace_X n) GAP);
      try destruct (Ascii.eqb (char_at trace_Y n) GAP);
      cbn [identical gaps_X gaps_Y mismatches];
      rewrite ?incr_u64_small by lia; lia.
Qed.

(** C6. For two traces of equal length, column [n] changes the counters as
    follows: when both characters are the gap character, [gaps_X], [gaps_Y]
    and [mismatches] grow by one; when the characters are equal and not the
    gap character, [identical] grows by one; in every other column
    [mismatches] grows by one, and [gaps_X] (resp. [gaps_Y]) grows by one
    when [trace_X] (resp. [trace_Y]) holds the gap character.  The counters
    start at zero and the result is their value after the last column. *)
Theorem count_mismatches_columns (trace_X trace_Y : list ascii) :
  length trace_X = length trace_Y ->
  Z.of_nat (length trace_X) < UINT64_MOD ->
  count_mismatches trace_X trace_Y
    = Some (count_loop trace_X trace_Y (length trace_X))
  /\ count_loop trace_X trace_Y 0
     = {| identical := 0; gaps_X := 0; gaps_Y := 0; mismatches := 0 |}
  /\ forall n : nat, (n < length trace_X)%nat ->
     let a := char_at trace_X n in
     let b := char_at trace_Y n in
     let c := count_loop trace_X trace_Y n in
     let c' := count_loop trace_X trace_Y (S n) in
     (a = GAP /\ b = GAP ->
        gaps_X c' = gaps_X c + 1 /\ gaps_Y c' = gaps_Y c + 1
        /\ mismatches c' = mismatches c + 1 /\ identical c' = identical c)
     /\ (a = b /\ a <> GAP ->
        identical c' = identical c + 1 /\ gaps_X c' = gaps_X c
        /\ gaps_Y c' = gaps_Y c /\ mismatches c' = mismatches c)
     /\ (~ (a = GAP /\ b = GAP) /\ ~ (a = b /\ a <> GAP) ->
        mismatches c' = mismatches c + 1 /\ identical c' = identical c
        /\ gaps_X c' = gaps_X c + (if Ascii.eqb a GAP then 1 else 0)
        /\ gaps_Y c' = gaps_Y c + (if Ascii.eqb b GAP then 1 else 0)).
Proof.
  intros Hlen Hsize. split; [|split].
  - unfold count_mismatches. rewrite Hlen, Nat.eqb_refl. reflexivity.
  - reflexivity.
  - intros n Hn a b c c'.
    destruct (count_loop_bounds trace_X trace_Y n) as (Hi & Hx & Hy & Hm & Hsum);
      [lia|].
    fold c in Hi, Hx, Hy, Hm, Hsum.
    subst c'. rewrite count_loop_S. fold c. unfold count_column. fold a b.
    destruct (Ascii.eqb_spec a b) as [Hab|Hab];
      destruct (Ascii.eqb_spec a GAP) as [Ha|Ha];
      destruct (Ascii.eqb_spec b GAP) as [Hb|Hb];
      cbn [identical gaps_X gaps_Y mismatches];
      rewrite ?incr_u64_small by lia;
      repeat split; intros; try lia; try congruence; intuition congruence.
Qed.

Lemma count_mismatches_columns_witness :
  count_mismatches (chars "A-C-") (chars "AG--")
  = Some (count_loop (chars "A-C-") (chars "AG--") 4).
Proof.
  exact (proj1 (count_mismatches_columns (chars "A-C-") (chars "AG--")
                  eq_refl eq_refl)).
Defined.



(** ** Arrays *)

Lemma rd_insert_eq (m : list Z) (k : nat) (v : Z) :
  (k < length m)%nat -> rd (<[ k := v ]> m) k = v.
Proof. intros H. unfold rd. rewrite list_lookup_insert_eq by exact H. reflexivity. Qed.

Lemma rd_insert_ne (m : list Z) (k k' : nat) (v : Z) :
  k <> k' -> rd (<[ k := v ]> m) k' = rd m k'.
Proof. intros H. unfold rd. rewrite list_lookup_insert_ne by exact H. reflexivity. Qed.

Lemma flat_index_inj (len i j i' j' : nat) :
  (j < len)%nat -> (j' < len)%nat ->
  (i * len + j = i' * len + j')%nat -> i = i' /\ j = j'.
Proof.
  intros Hj Hj' H. apply (Nat.div_mod_unique len); try assumption. lia.
Qed.

Lemma flat_index_lt (len_X len_Y i j : nat) :
  (i < len_X)%nat -> (j < len_Y)%nat -> (i * len_Y + j < len_X * len_Y)%nat.
Proof. intros Hi Hj. nia. Qed.

Lemma malloc_length {A : Type} (prior : nat -> A) (n : nat) :
  length (malloc prior n) = n.
Proof. unfold malloc. rewrite length_map, length_seq. reflexivity. Qed.

(** ** The scoring kernel *)

Section KernelFacts.
Variables (seq_X seq_Y : list ascii).
Variable score_fn : ascii -> ascii -> Z.
Variable G : Z.

Local Abbreviation len_X := (length seq_X).
Local Abbreviation len_Y := (length seq_Y).

(** A store at or after a cell does not change what that cell was
    computed from. *)
Lemma stored_value_insert (scores : list Z) (k : nat) (v : Z) (i j : nat) :
  (j < len_Y)%nat -> (i * len_Y + j <= k)%nat ->
  stored_value seq_X seq_Y score_fn G (<[ k := v ]> scores) i j
  = stored_value seq_X seq_Y score_fn G scores i j.
Proof.
  intros Hj Hk. unfold stored_value.
  destruct i as [|i'], j as [|j']; cbn zeta;
    rewrite ?rd_insert_ne by (cbn in *; lia); reflexivity.
Qed.

Lemma filled_insert (scores : list Z) (i j : nat) :
  (j < len_Y)%nat -> (i * len_Y + j < length scores)%nat ->
  filled seq_X seq_Y score_fn G scores (i * len_Y + j) ->
  filled seq_X seq_Y score_fn G
    (<[ (i * len_Y + j)%nat := stored_value seq_X seq_Y score_fn G scores i j ]>
       scores)
    (S (i * len_Y + j)).
Proof.
  intros Hj Hlen Hfilled i' j' Hj' Hlt.
  rewrite stored_value_insert by lia.
  destruct (Nat.eq_dec (i' * len_Y + j')%nat (i * len_Y + j)%nat) as [Heq|Hne].
  - destruct (flat_index_inj len_Y i' j' i j Hj' Hj Heq) as [-> ->].
    apply rd_insert_eq. exact Hlen.
  - rewrite rd_insert_ne by lia. apply Hfilled; [exact Hj'|lia].
Qed.

Lemma first_row_filled (scores : list Z) :
  (1 <= len_Y)%nat -> (len_Y <= length scores)%nat ->
  let scores' :=
    LinearGap.first_row seq_X seq_Y score_fn G scores in
  length scores' = length scores
  /\ filled seq_X seq_Y score_fn G scores' len_Y.
Proof.
  intros Hy Hlen. cbn zeta. unfold LinearGap.first_row.
  replace len_Y with (1 + (len_Y - 1))%nat at 3 by lia.
  apply (fold_left_seq_invariant
           (fun n sc => length sc = length scores
                        /\ filled seq_X seq_Y score_fn G sc n)).
  - split; [apply length_insert|].
    pose proof (filled_insert scores 0 0) as H. cbn in H. apply H; try lia.
    intros i j _ Hlt. lia.
  - intros k sc Hk [Hl Hf]. split.
    + unfold LinearGap.first_row_cell. rewrite length_insert. exact Hl.
    + pose proof (filled_insert sc 0 k) as H. cbn [Nat.mul Nat.add] in H.
      unfold LinearGap.first_row_cell.
      replace (LinearGap.best_linear_gap_smith_waterman_score _ _ _ _ _ _ _)
        with (stored_value seq_X seq_Y score_fn G sc 0 k).
      * apply H; [lia|lia|exact Hf].
      * unfold stored_value. destruct k as [|k']; [lia|].
        cbn. rewrite Nat.sub_0_r. reflexivity.
Qed.

Lemma row_filled (scores : list Z) (i : nat) :
  (1 <= len_Y)%nat -> (1 <= i)%nat ->
  (i * len_Y + len_Y <= length scores)%nat ->
  filled seq_X seq_Y score_fn G scores (i * len_Y) ->
  let scores' := LinearGap.row seq_X seq_Y score_fn G scores i in
  length scores' = length scores
  /\ filled seq_X seq_Y score_fn G scores' (S i * len_Y).
Proof.
  intros Hy Hi Hlen Hf. cbn zeta. unfold LinearGap.row.
  replace (S i * len_Y)%nat with (1 + (len_Y - 1) + i * len_Y)%nat by lia.
  apply (fold_left_seq_invariant
           (fun n sc => length sc = length scores
                        /\ filled seq_X seq_Y score_fn G sc (n + i * len_Y))).
  - split; [apply length_insert|].
    pose proof (filled_insert scores i 0) as H.
    rewrite Nat.add_0_r in H. cbn [Nat.add].
    replace (LinearGap.best_linear_gap_smith_waterman_score _ _ _ _ _ _ _)
      with (stored_value seq_X seq_Y score_fn G scores i 0).
    + apply H; [lia|lia|exact Hf].
    + unfold stored_value. destruct i as [|i']; [lia|].
      cbn [Nat.sub]. rewrite Nat.sub_0_r, Nat.add_0_r. reflexivity.
  - intros k sc Hk [Hl Hfk]. split.
    + unfold LinearGap.inner_cell. rewrite length_insert. exact Hl.
    + unfold LinearGap.inner_cell.
      replace (LinearGap.best_linear_gap_smith_waterman_score _ _ _ _ _ _ _)
        with (stored_value seq_X seq_Y score_fn G sc i k).
      * replace (S k + i * len_Y)%nat with (S (i * len_Y + k)) by lia.
        apply filled_insert; [lia|lia|].
        replace (i * len_Y + k)%nat with (k + i * len_Y)%nat by lia.
        exact Hfk.
      * unfold stored_value.
        destruct i as [|i']; [lia|]. destruct k as [|k']; [lia|].
        cbn [Nat.sub]. rewrite Nat.sub_0_r.
        replace (S i' * len_Y + S k' - 1)%nat
          with (S i' * len_Y + k')%nat by lia.
        replace (i' * len_Y + S k' - 1)%nat
          with (i' * len_Y + k')%nat by lia.
        reflexivity.
Qed.

(** After the kernel every cell of the matrix holds its stored value. *)
Lemma kernel_filled (scores : list Z) :
  (1 <= len_X)%nat -> (1 <= len_Y)%nat ->
  (len_X * len_Y <= length scores)%nat ->
  let Zm := LinearGap.linear_gap_smith_waterman seq_X seq_Y score_fn G scores in
  length Zm = length scores
  /\ filled seq_X seq_Y score_fn G Zm (len_X * len_Y).
Proof.
  intros Hx Hy Hlen. cbn zeta. unfold LinearGap.linear_gap_smith_waterman.
  replace (len_X * len_Y)%nat with ((1 + (len_X - 1)) * len_Y)%nat by
    (f_equal; lia).
  apply (fold_left_seq_invariant
           (fun n sc => length sc = length scores
                        /\ filled seq_X seq_Y score_fn G sc (n * len_Y))).
  - rewrite Nat.mul_1_l. apply first_row_filled; [exact Hy|nia].
  - intros k sc Hk [Hl Hf].
    destruct (row_filled sc k) as [Hl' Hf']; try lia; try exact Hf.
    + rewrite Hl. nia.
    + split; [congruence|exact Hf'].
Qed.
End KernelFacts.

Lemma best_score_spec (left up_left up : Z) (a b : ascii)
    (score_fn : ascii -> ascii -> Z) (G : Z) :
  LinearGap.best_linear_gap_smith_waterman_score left up_left up a b score_fn G
  = Z.max 0 (Z.max (sub64 left G)
                   (Z.max (sub64 up G) (add64 up_left (score_fn a b)))).
Proof.
  unfold LinearGap.best_linear_gap_smith_waterman_score.
  rewrite !max_spec. lia.
Qed.

(** The floor at zero: a stored value is a non-negative [int64_t]. *)
Lemma stored_value_range (seq_X seq_Y : list ascii)
    (score_fn : ascii -> ascii -> Z) (G : Z) (scores : list Z) (i j : nat) :
  0 <= stored_value seq_X seq_Y score_fn G scores i j <= INT64_MAX.
Proof.
  unfold stored_value. cbn zeta. rewrite best_score_spec.
  match goal with
  | |- context [Z.max (sub64 ?a ?b) (Z.max (sub64 ?c ?d) (add64 ?e ?f))] =>
      pose proof (wrap64_range (a - b));
      pose proof (wrap64_range (c - d));
      pose proof (wrap64_range (e + f))
  end.
  unfold sub64, add64. int64_consts. lia.
Qed.

Lemma sub64_zero_nonneg (G : Z) : 0 <= G <= INT64_MAX -> sub64 0 G = - G.
Proof. intros H. unfold sub64. apply wrap64_id. int64_consts. lia. Qed.

Lemma add64_zero (s : Z) : in_int64 s -> add64 0 s = s.
Proof. intros H. unfold add64. apply wrap64_id. exact H. Qed.

(** C1, as the code has it.  For non-empty sequences, a score function with
    [int64_t] values and a gap penalty [G] that is not negative, the kernel
    fills the matrix [Z] (row-major in the array) so that
    [Z[0,0] = max(0, s(0,0))],
    [Z[0,j] = max(0, Z[0,j-1] - G, s(0,j))] for [j >= 1],
    [Z[i,0] = max(0, Z[i-1,0] - G, s(i,0))] for [i >= 1] and
    [Z[i,j] = max(0, Z[i,j-1] - G, Z[i-1,j] - G, Z[i-1,j-1] + s(i,j))] for
    [i, j >= 1], with [s(i,j) = score_fn(X[i], Y[j])] and the subtraction
    and addition of [int64_t]; no diagonal term enters the first row and
    the first column. *)
Theorem linear_gap_smith_waterman_recurrence
    (seq_X seq_Y : list ascii) (score_fn : ascii -> ascii -> Z) (G : Z)
    (scores : list Z) :
  seq_X <> [] -> seq_Y <> [] ->
  (length seq_X * length seq_Y <= length scores)%nat ->
  (forall a b, in_int64 (score_fn a b)) ->
  0 <= G <= INT64_MAX ->
  let Zm := LinearGap.linear_gap_smith_waterman seq_X seq_Y score_fn G scores in
  let Z_ := fun i j : nat => rd Zm (i * length seq_Y + j) in
  let s := fun i j : nat => score_fn (char_at seq_X i) (char_at seq_Y j) in
  Z_ 0%nat 0%nat = Z.max 0 (s 0%nat 0%nat)
  /\ (forall j : nat, (1 <= j < length seq_Y)%nat ->
        Z_ 0%nat j
        = Z.max 0 (Z.max (sub64 (Z_ 0%nat (j - 1)%nat) G) (s 0%nat j)))
  /\ (forall i : nat, (1 <= i < length seq_X)%nat ->
        Z_ i 0%nat
        = Z.max 0 (Z.max (sub64 (Z_ (i - 1)%nat 0%nat) G) (s i 0%nat)))
  /\ (forall i j : nat,
        (1 <= i < length seq_X)%nat -> (1 <= j < length seq_Y)%nat ->
        Z_ i j
        = Z.max 0
            (Z.max (sub64 (Z_ i (j - 1)%nat) G)
               (Z.max (sub64 (Z_ (i - 1)%nat j) G)
                      (add64 (Z_ (i - 1)%nat (j - 1)%nat) (s i j))))).
Proof.
  intros HX HY Hlen Hs HG Zm Z_ s.
  assert (1 <= length seq_X)%nat as HlX by (destruct seq_X; cbn; [congruence|lia]).
  assert (1 <= length seq_Y)%nat as HlY by (destruct seq_Y; cbn; [congruence|lia]).
  destruct (kernel_filled seq_X seq_Y score_fn G scores HlX HlY Hlen)
    as [_ Hfilled].
  fold Zm in Hfilled.
  assert (forall i j, (i < length seq_X)%nat -> (j < length seq_Y)%nat ->
            Z_ i j = stored_value seq_X seq_Y score_fn G Zm i j) as Hcell.
  { intros i j Hi Hj. apply Hfilled; [exact Hj|nia]. }
  pose proof (sub64_zero_nonneg G HG) as HG0.
  repeat split.
  - rewrite Hcell by lia. unfold stored_value. cbn zeta.
    rewrite best_score_spec, HG0, add64_zero by apply Hs. fold (s 0%nat 0%nat). lia.
  - intros j Hj. rewrite Hcell by lia. unfold stored_value. cbn zeta.
    destruct j as [|j']; [lia|].
    rewrite best_score_spec, HG0, add64_zero by apply Hs.
    unfold Z_. cbn [Nat.mul Nat.add Nat.sub]. rewrite Nat.sub_0_r.
    fold (s 0%nat (S j')). lia.
  - intros i Hi. rewrite Hcell by lia. unfold stored_value. cbn zeta.
    destruct i as [|i']; [lia|].
    rewrite best_score_spec, HG0, add64_zero by apply Hs.
    unfold Z_. cbn [Nat.sub]. rewrite Nat.sub_0_r.
    fold (s (S i') 0%nat). lia.
  - intros i j Hi Hj. rewrite Hcell by lia. unfold stored_value. cbn zeta.
    destruct i as [|i']; [lia|]. destruct j as [|j']; [lia|].
    rewrite best_score_spec. unfold Z_. cbn [Nat.sub]. rewrite !Nat.sub_0_r.
    reflexivity.
Qed.

Lemma linear_gap_smith_waterman_recurrence_witness :
  rd (LinearGap.linear_gap_smith_waterman (chars "GA") (chars "GT")
        get_example_substitution 2 [7; 7; 7; 7]) 0
  = Z.max 0 (get_example_substitution "G" "G").
Proof.
  refine (proj1 (linear_gap_smith_waterman_recurrence (chars "GA") (chars "GT")
                   get_example_substitution 2 [7; 7; 7; 7] _ _ _ _ _)).
  - discriminate.
  - discriminate.
  - cbn. lia.
  - intros a b. unfold get_example_substitution.
    destruct (Ascii.eqb a b); vm_compute; split; discriminate.
  - vm_compute. split; discriminate.
Defined.

(** C1 as stated fails for a negative gap penalty: the constant 0 passed
    for a missing neighbour then contributes [0 - G > 0]. *)
Lemma linear_gap_smith_waterman_negative_gap :
  let Zm := LinearGap.linear_gap_smith_waterman (chars "A") (chars "C")
              get_example_substitution (-1) [0] in
  rd Zm 0 = 1
  /\ Z.max 0 (get_example_substitution "A" "C") = 0
  /\ rd Zm 0 <> Z.max 0 (get_example_substitution "A" "C").
Proof. vm_compute. repeat split; discriminate. Qed.

(** *** Scores that fit: the kernel without overflow *)

Lemma sub64_cell (G z : Z) :
  0 <= G <= INT64_MAX -> 0 <= z <= INT64_MAX -> sub64 z G = z - G.
Proof. intros HG H. unfold sub64. apply wrap64_id. int64_consts. lia. Qed.

Lemma add64_cell (M z sc b : Z) :
  0 <= z <= b -> in_int64 sc -> sc <= M -> b + M <= INT64_MAX ->
  add64 z sc = z + sc.
Proof. intros H1 H2 H3 H4. unfold add64. apply wrap64_id. int64_consts. lia. Qed.

Lemma cell_limit_mono (M : Z) (i j i' j' : nat) :
  0 <= M -> (i' <= i)%nat -> (j' <= j)%nat ->
  cell_limit M i' j' <= cell_limit M i j.
Proof. intros HM Hi Hj. unfold cell_limit. nia. Qed.

Lemma cell_limit_diag (M : Z) (i j : nat) :
  cell_limit M i j + M = cell_limit M (S i) (S j).
Proof. unfold cell_limit. rewrite <- Nat.succ_min_distr. lia. Qed.

Section Bounded.
Variables (seq_X seq_Y : list ascii).
Variable score_fn : ascii -> ascii -> Z.
Variable G : Z.
Variable scores : list Z.
(** An upper bound of the scores met on these two sequences. *)
Variable M : Z.

Local Abbreviation len_X := (length seq_X).
Local Abbreviation len_Y := (length seq_Y).
Local Abbreviation Zm :=
  (LinearGap.linear_gap_smith_waterman seq_X seq_Y score_fn G scores).
Local Abbreviation Z_ i j := (rd Zm (i * length seq_Y + j)%nat).
Local Abbreviation s i j := (score_fn (char_at seq_X i) (char_at seq_Y j)).

Hypothesis HX : (1 <= len_X)%nat.
Hypothesis HY : (1 <= len_Y)%nat.
Hypothesis Hlen : (len_X * len_Y <= length scores)%nat.
Hypothesis Hrange : forall a b, in_int64 (score_fn a b).
Hypothesis HG : 0 <= G <= INT64_MAX.
Hypothesis HM : 0 <= M.
Hypothesis HsM :
  forall i j, (i < len_X)%nat -> (j < len_Y)%nat -> s i j <= M.
Hypothesis Hfit : M * Z.of_nat (Nat.min len_X len_Y) <= INT64_MAX.

Lemma cell_stored (i j : nat) :
  (i < len_X)%nat -> (j < len_Y)%nat ->
  Z_ i j = stored_value seq_X seq_Y score_fn G Zm i j.
Proof using HX HY Hlen.
  intros Hi Hj.
  destruct (kernel_filled seq_X seq_Y score_fn G scores HX HY Hlen)
    as [_ Hfilled].
  apply Hfilled; [exact Hj|apply flat_index_lt; assumption].
Qed.

Lemma cell_range (i j : nat) :
  (i < len_X)%nat -> (j < len_Y)%nat -> 0 <= Z_ i j <= INT64_MAX.
Proof using HX HY Hlen.
  intros Hi Hj. rewrite cell_stored by assumption. apply stored_value_range.
Qed.

Lemma cell_limit_fits (i j : nat) :
  (i < len_X)%nat -> (j < len_Y)%nat -> cell_limit M i j <= INT64_MAX.
Proof using HM Hfit.
  intros Hi Hj. clear - HM Hfit Hi Hj. unfold cell_limit. nia.
Qed.

(** A cell is at most [M] times the length of the shortest way back to
    the first row or column. *)
Lemma cell_bound (n i j : nat) :
  (i + j = n)%nat -> (i < len_X)%nat -> (j < len_Y)%nat ->
  Z_ i j <= cell_limit M i j.
Proof.
  revert i j. induction n as [n IH] using lt_wf_ind. intros i j Hn Hi Hj.
  rewrite cell_stored by assumption. unfold stored_value. cbn zeta.
  rewrite best_score_spec.
  assert (0 <= cell_limit M i j) as Hpos by (unfold cell_limit; nia).
  pose proof (cell_limit_fits i j Hi Hj) as Hfits.
  destruct i as [|i'], j as [|j'].
  - rewrite sub64_zero_nonneg, add64_zero by auto.
    pose proof (HsM 0 0 Hi Hj). unfold cell_limit in *. cbn in *. lia.
  - pose proof (IH j' ltac:(lia) 0%nat j' eq_refl Hi ltac:(lia)) as Hl.
    pose proof (cell_range 0 j' Hi ltac:(lia)) as Hr.
    pose proof (cell_limit_mono M 0 (S j') 0 j' HM ltac:(lia) ltac:(lia)).
    cbn [Nat.mul Nat.add] in *.
    rewrite sub64_zero_nonneg, (sub64_cell G), add64_zero by auto.
    pose proof (HsM 0 (S j') Hi Hj). unfold cell_limit in *. cbn in *. lia.
  - pose proof (IH i' ltac:(lia) i' 0%nat ltac:(lia) ltac:(lia) Hj) as Hl.
    pose proof (cell_range i' 0 ltac:(lia) Hj) as Hr.
    pose proof (cell_limit_mono M (S i') 0 i' 0 HM ltac:(lia) ltac:(lia)).
    rewrite sub64_zero_nonneg, (sub64_cell G), add64_zero by auto.
    pose proof (HsM (S i') 0 Hi Hj).
    unfold cell_limit in *. rewrite Nat.min_0_r in *. cbn in *. lia.
  - pose proof (IH (S i' + j')%nat ltac:(lia) (S i') j' eq_refl Hi ltac:(lia)) as Hl.
    pose proof (IH (i' + S j')%nat ltac:(lia) i' (S j') eq_refl ltac:(lia) Hj) as Hu.
    pose proof (IH (i' + j')%nat ltac:(lia) i' j' eq_refl ltac:(lia) ltac:(lia)) as Hd.
    pose proof (cell_range (S i') j' Hi ltac:(lia)) as Hrl.
    pose proof (cell_range i' (S j') ltac:(lia) Hj) as Hru.
    pose proof (cell_range i' j' ltac:(lia) ltac:(lia)) as Hrd.
    pose proof (cell_limit_mono M (S i') (S j') (S i') j' HM ltac:(lia) ltac:(lia)).
    pose proof (cell_limit_mono M (S i') (S j') i' (S j') HM ltac:(lia) ltac:(lia)).
    pose proof (cell_limit_diag M i' j') as Hdiag.
    pose proof (HsM (S i') (S j') Hi Hj) as HsM'.
    rewrite !(sub64_cell G) by auto.
    rewrite (add64_cell M _ _ (cell_limit M i' j')); auto; lia.
Qed.




End Bounded.

(** ** Buffers *)

Lemma char_at_lookup (buf : list ascii) (i : nat) :
  char_at buf i = default NUL (buf !! i).
Proof. apply nth_lookup. Qed.

Lemma rev_lookup {A : Type} (l : list A) (i : nat) :
  (i < length l)%nat -> rev l !! i = l !! (length l - S i)%nat.
Proof. intros H. rewrite rev_alt. apply (reverse_lookup l i H). Qed.

Lemma store_one (k : nat) (c : ascii) (buf : list ascii) :
  (k < length buf)%nat -> store k [c] buf = <[ k := c ]> buf.
Proof.
  intros H. unfold store. cbn [length app].
  rewrite Nat.add_1_r. symmetry. apply insert_take_drop. exact H.
Qed.

Lemma store_cons (k : nat) (c : ascii) (cs buf : list ascii) :
  (k < length buf)%nat ->
  store (S k) cs (<[ k := c ]> buf) = store k (c :: cs) buf.
Proof.
  intros H. unfold store.
  rewrite take_insert_lt, drop_insert_lt by lia.
  rewrite (take_S_r buf k (char_at buf k)).
  - rewrite insert_app_r_alt by (rewrite length_take; lia).
    rewrite length_take, Nat.min_l, Nat.sub_diag by lia.
    cbn [length]. rewrite <- app_assoc.
    replace (S k + length cs)%nat with (k + S (length cs))%nat by lia.
    reflexivity.
  - rewrite char_at_lookup.
    destruct (lookup_lt_is_Some_2 buf k H) as [x ->]. reflexivity.
Qed.

(** The exchange loop at the end of the traceback reverses the first
    [alignment_index + 1] cells and leaves the others alone. *)
Lemma reverse_in_place_lookup (n : nat) (buf : list ascii) (p : nat) :
  (n < length buf)%nat ->
  LinearGap.reverse_in_place n buf !! p
  = if (p <=? n)%nat then buf !! (n - p)%nat else buf !! p.
Proof.
  intros Hn. unfold LinearGap.reverse_in_place.
  rewrite Nat.shiftr_div_pow2. change (2 ^ 1)%nat with 2%nat.
  set (q := (S n / 2)%nat).
  assert (2 * q <= S n < 2 * q + 2)%nat as Hq.
  { subst q. pose proof (Nat.div_mod_eq (S n) 2).
    pose proof (Nat.mod_upper_bound (S n) 2). lia. }
  clearbody q.
  assert (forall m, (m <= q)%nat ->
            let cur := fold_left (LinearGap.swap_cells n) (seq 0 m) buf in
            length cur = length buf
            /\ forall p, cur !! p
                 = if (p <? m)%nat || ((n - m <? p)%nat && (p <=? n)%nat)
                   then buf !! (n - p)%nat else buf !! p) as Hinv.
  { induction m as [|m IH]; intros Hm.
    - cbn [seq fold_left]. split; [reflexivity|]. intros p'.
      destruct (Nat.ltb_spec p' 0), (Nat.ltb_spec (n - 0) p'),
        (Nat.leb_spec p' n); cbn; try reflexivity; lia.
    - rewrite fold_left_seq_S. cbn [Nat.add]. cbn zeta.
      destruct IH as [Hl Hp]; [lia|].
      set (cur := fold_left (LinearGap.swap_cells n) (seq 0 m) buf) in *.
      unfold LinearGap.swap_cells. rewrite !length_insert.
      split; [exact Hl|]. intros p'.
      assert (cur !! m = buf !! m) as Hm1.
      { rewrite Hp. destruct (Nat.ltb_spec m m), (Nat.ltb_spec (n - m) m);
          cbn; try reflexivity; lia. }
      assert (cur !! (n - m)%nat = buf !! (n - m)%nat) as Hm2.
      { rewrite Hp.
        destruct (Nat.ltb_spec (n - m) m), (Nat.ltb_spec (n - m) (n - m));
          cbn; try reflexivity; lia. }
      destruct (lookup_lt_is_Some_2 buf m ltac:(lia)) as [cm Hcm].
      destruct (lookup_lt_is_Some_2 buf (n - m) ltac:(lia)) as [cn Hcn].
      rewrite !char_at_lookup, Hm1, Hm2, Hcm, Hcn. cbn [default].
      destruct (Nat.eq_dec p' (n - m)%nat) as [->|Hne1].
      + rewrite list_lookup_insert_eq by (rewrite length_insert; lia).
        replace (n - (n - m))%nat with m by lia.
        destruct (Nat.ltb_spec (n - m) (S m)), (Nat.ltb_spec (n - S m) (n - m)),
          (Nat.leb_spec (n - m) n); cbn; try (symmetry; assumption); lia.
      + rewrite list_lookup_insert_ne by lia.
        destruct (Nat.eq_dec p' m) as [->|Hne2].
        * rewrite list_lookup_insert_eq by lia.
          destruct (Nat.ltb_spec m (S m)); cbn; [symmetry; assumption|lia].
        * rewrite list_lookup_insert_ne by lia. rewrite Hp.
          destruct (Nat.ltb_spec p' m), (Nat.ltb_spec p' (S m)),
            (Nat.ltb_spec (n - m) p'), (Nat.ltb_spec (n - S m) p'),
            (Nat.leb_spec p' n); cbn; try reflexivity; lia. }
  destruct (Hinv q (Nat.le_refl q)) as [_ Hp]. rewrite Hp.
  destruct (Nat.ltb_spec p q), (Nat.ltb_spec (n - q) p), (Nat.leb_spec p n);
    cbn; try reflexivity; try lia.
  f_equal. lia.
Qed.

Lemma reverse_in_place_length (n : nat) (buf : list ascii) :
  length (LinearGap.reverse_in_place n buf) = length buf.
Proof.
  unfold LinearGap.reverse_in_place.
  generalize (seq 0 (Nat.shiftr (S n) 1)). intros l. revert buf.
  induction l as [|i l IH]; intros buf; cbn [fold_left]; [reflexivity|].
  rewrite IH. unfold LinearGap.swap_cells. rewrite !length_insert. reflexivity.
Qed.

Lemma reverse_in_place_spec (n : nat) (buf : list ascii) :
  (n < length buf)%nat ->
  LinearGap.reverse_in_place n buf = rev (take (S n) buf) ++ drop (S n) buf.
Proof.
  intros Hn. apply list_eq. intros p.
  rewrite reverse_in_place_lookup by exact Hn.
  assert (length (rev (take (S n) buf)) = S n) as Hl.
  { rewrite length_rev, length_take. lia. }
  destruct (Nat.leb_spec p n).
  - rewrite lookup_app_l by lia.
    rewrite rev_lookup by (rewrite length_take; lia).
    rewrite length_take, Nat.min_l by lia.
    rewrite lookup_take_lt by lia. reflexivity.
  - rewrite lookup_app_r by lia. rewrite Hl, lookup_drop. f_equal. lia.
Qed.

(** ** The traceback *)

Section TraceFacts.
Variables (seq_X seq_Y : list ascii).
Variable Zm : list Z.
Variable score_fn : ascii -> ascii -> Z.
Variable G : Z.

Local Abbreviation Z_ i j := (cell seq_Y Zm i j).
Local Abbreviation body := (LinearGap.trace_body seq_X seq_Y Zm score_fn G).
Local Abbreviation loop := (LinearGap.trace_loop seq_X seq_Y Zm score_fn G).
Local Abbreviation path := (walk seq_X seq_Y Zm score_fn G).

Lemma walk_S_S (i j : nat) :
  path (S i) (S j)
  = if sub64 (Z_ (S i) j) G =? Z_ (S i) (S j) then
      option_map (cons (GAP, char_at seq_Y (S j))) (path (S i) j)
    else if add64 (Z_ i j) (score_fn (char_at seq_X (S i)) (char_at seq_Y (S j)))
              =? Z_ (S i) (S j) then
      if Z_ i j =? 0
      then Some [(char_at seq_X (S i), char_at seq_Y (S j))]
      else option_map (cons (char_at seq_X (S i), char_at seq_Y (S j)))
                      (path i j)
    else if sub64 (Z_ i (S j)) G =? Z_ (S i) (S j) then
      option_map (cons (char_at seq_X (S i), GAP)) (path i (S j))
    else None.
Proof. reflexivity. Qed.

(** The loop body at a cell of the first row or of the first column. *)
Lemma trace_body_boundary (st : LinearGap.trace_state) :
  LinearGap.ts_x st = 0%nat \/ LinearGap.ts_y st = 0%nat ->
  body st
  = LinearGap.Break
      {| LinearGap.ts_x := LinearGap.ts_x st;
         LinearGap.ts_y := LinearGap.ts_y st;
         LinearGap.ts_score := LinearGap.ts_score st;
         LinearGap.ts_alignment_index := LinearGap.ts_alignment_index st;
         LinearGap.ts_trace_X :=
           <[ LinearGap.ts_alignment_index st :=
                char_at seq_X (LinearGap.ts_x st) ]> (LinearGap.ts_trace_X st);
         LinearGap.ts_trace_Y :=
           <[ LinearGap.ts_alignment_index st :=
                char_at seq_Y (LinearGap.ts_y st) ]> (LinearGap.ts_trace_Y st) |}.
Proof.
  intros H. unfold LinearGap.trace_body. cbn zeta.
  destruct (Nat.eqb_spec (LinearGap.ts_x st) 0),
    (Nat.eqb_spec (LinearGap.ts_y st) 0); cbn [orb]; try reflexivity; lia.
Qed.

(** The loop body at an interior cell, in terms of the matrix cells. *)
Lemma trace_body_interior (i j : nat) (score : Z) (k : nat)
    (bX bY : list ascii) :
  body {| LinearGap.ts_x := S i; LinearGap.ts_y := S j;
          LinearGap.ts_score := score;
          LinearGap.ts_alignment_index := k;
          LinearGap.ts_trace_X := bX; LinearGap.ts_trace_Y := bY |}
  = if sub64 (Z_ (S i) j) G =? Z_ (S i) (S j) then
      LinearGap.Continue
        {| LinearGap.ts_x := S i; LinearGap.ts_y := j;
           LinearGap.ts_score := Z_ (S i) j;
           LinearGap.ts_alignment_index := S k;
           LinearGap.ts_trace_X := <[ k := GAP ]> bX;
           LinearGap.ts_trace_Y := <[ k := char_at seq_Y (S j) ]> bY |}
    else if add64 (Z_ i j) (score_fn (char_at seq_X (S i)) (char_at seq_Y (S j)))
              =? Z_ (S i) (S j) then
      if Z_ i j =? 0 then
        LinearGap.Break
          {| LinearGap.ts_x := S i; LinearGap.ts_y := S j;
             LinearGap.ts_score := score;
             LinearGap.ts_alignment_index := k;
             LinearGap.ts_trace_X := <[ k := char_at seq_X (S i) ]> bX;
             LinearGap.ts_trace_Y := <[ k := char_at seq_Y (S j) ]> bY |}
      else
        LinearGap.Continue
          {| LinearGap.ts_x := i; LinearGap.ts_y := j;
             LinearGap.ts_score := Z_ i j;
             LinearGap.ts_alignment_index := S k;
             LinearGap.ts_trace_X := <[ k := char_at seq_X (S i) ]> bX;
             LinearGap.ts_trace_Y := <[ k := char_at seq_Y (S j) ]> bY |}
    else if sub64 (Z_ i (S j)) G =? Z_ (S i) (S j) then
      LinearGap.Continue
        {| LinearGap.ts_x := i; LinearGap.ts_y := S j;
           LinearGap.ts_score := Z_ i (S j);
           LinearGap.ts_alignment_index := S k;
           LinearGap.ts_trace_X := <[ k := char_at seq_X (S i) ]> bX;
           LinearGap.ts_trace_Y := <[ k := GAP ]> bY |}
    else LinearGap.AssertFalse.
Proof.
  unfold LinearGap.trace_body, cell.
  cbn [LinearGap.ts_x LinearGap.ts_y LinearGap.ts_score
       LinearGap.ts_alignment_index LinearGap.ts_trace_X
       LinearGap.ts_trace_Y Nat.eqb orb Nat.sub].
  rewrite !Nat.sub_0_r.
  replace (S i * length seq_Y + S j - 1)%nat
    with (S i * length seq_Y + j)%nat by lia.
  reflexivity.
Qed.

(** The loop ends within [x + y + 1] passes, whatever the matrix holds:
    a pass that continues needs both indices positive and decrements one. *)
Lemma trace_loop_terminates (fuel : nat) :
  forall st : LinearGap.trace_state,
    (LinearGap.ts_x st + LinearGap.ts_y st < fuel)%nat ->
    loop fuel st <> None.
Proof.
  induction fuel as [|fuel IH]; intros st Hfuel; [lia|].
  cbn [LinearGap.trace_loop].
  destruct (LinearGap.ts_score st =? 0); [discriminate|].
  destruct st as [x y score k bX bY]. cbn [LinearGap.ts_x LinearGap.ts_y] in Hfuel.
  destruct x as [|i].
  { rewrite trace_body_boundary by (left; reflexivity). discriminate. }
  destruct y as [|j].
  { rewrite trace_body_boundary by (right; reflexivity). discriminate. }
  rewrite trace_body_interior.
  destruct (sub64 (Z_ (S i) j) G =? Z_ (S i) (S j)).
  { apply IH. cbn. lia. }
  destruct (add64 (Z_ i j) _ =? Z_ (S i) (S j)).
  { destruct (Z_ i j =? 0); [discriminate|]. apply IH. cbn. lia. }
  destruct (sub64 (Z_ i (S j)) G =? Z_ (S i) (S j)); [|discriminate].
  apply IH. cbn. lia.
Qed.

Lemma trace_never_out_of_fuel (bX bY : list ascii) (x y : nat) :
  LinearGap.trace_linear_gap_smith_waterman seq_X seq_Y Zm score_fn G
    bX bY x y
  <> LinearGap.TraceOutOfFuel.
Proof.
  unfold LinearGap.trace_linear_gap_smith_waterman. cbn zeta.
  destruct ((length seq_X =? 0)%nat || (length seq_Y =? 0)%nat);
    [discriminate|].
  pose proof (trace_loop_terminates (S (x + y))
                {| LinearGap.ts_x := x; LinearGap.ts_y := y;
                   LinearGap.ts_score := rd Zm (x * length seq_Y + y);
                   LinearGap.ts_alignment_index := 0;
                   LinearGap.ts_trace_X := bX; LinearGap.ts_trace_Y := bY |}
                ltac:(cbn; lia)) as H.
  destruct (LinearGap.trace_loop _ _ _ _ _ _ _) as [[st|]|];
    [discriminate|discriminate|contradiction].
Qed.

Local Abbreviation scored := (well_scored seq_Y Zm G).

Lemma well_scored_mono (i j i' j' : nat) :
  (i' <= i)%nat -> (j' <= j)%nat -> scored i j -> scored i' j'.
Proof.
  intros Hi Hj [H|H]; [left; exact H|right].
  intros i2 j2 Hi2 Hj2. apply H; lia.
Qed.

(** A gap move never lands on a zero cell. *)
Lemma gap_move_nonzero (i j i' j' : nat) :
  (i' <= i)%nat -> (j' <= j)%nat -> scored i j -> Z_ i j <> 0 ->
  sub64 (Z_ i' j') G = Z_ i j -> Z_ i' j' <> 0.
Proof.
  intros Hi Hj [[HG Hcells]|H] Hnz Hmove; [|apply H; assumption].
  intros Hzero. rewrite Hzero, sub64_zero_nonneg in Hmove by exact HG.
  pose proof (Hcells (i * length seq_Y + j)%nat) as Hc. unfold cell in *. lia.
Qed.

(** From a non-zero cell the loop writes, from offset [k] on, exactly the
    columns of the walk, and stops with [alignment_index] on the last one;
    it fails its assertion exactly when the walk has no rule to apply. *)
Lemma trace_loop_walk (i : nat) :
  forall (j fuel k : nat) (bX bY : list ascii),
    (i + j < fuel)%nat -> scored i j -> Z_ i j <> 0 ->
    (k + i + j < length bX)%nat -> (k + i + j < length bY)%nat ->
    match path i j with
    | Some cols =>
        (1 <= length cols <= S (i + j))%nat
        /\ exists st',
             loop fuel
               {| LinearGap.ts_x := i; LinearGap.ts_y := j;
                  LinearGap.ts_score := Z_ i j;
                  LinearGap.ts_alignment_index := k;
                  LinearGap.ts_trace_X := bX; LinearGap.ts_trace_Y := bY |}
             = Some (Some st')
             /\ LinearGap.ts_alignment_index st' = (k + length cols - 1)%nat
             /\ LinearGap.ts_trace_X st' = store k (map fst cols) bX
             /\ LinearGap.ts_trace_Y st' = store k (map snd cols) bY
    | None =>
        loop fuel
          {| LinearGap.ts_x := i; LinearGap.ts_y := j;
             LinearGap.ts_score := Z_ i j;
             LinearGap.ts_alignment_index := k;
             LinearGap.ts_trace_X := bX; LinearGap.ts_trace_Y := bY |}
        = Some None
    end.
Proof.
  induction i as [|i IHi].
  - (* first row *)
    intros j fuel k bX bY Hfuel Hsc Hpos HbX HbY. cbn [walk].
    split; [cbn; lia|].
    destruct fuel as [|fuel]; [lia|]. cbn [LinearGap.trace_loop LinearGap.ts_score].
    destruct (Z.eqb_spec (Z_ 0 j) 0) as [Hz|_]; [contradiction|].
    rewrite trace_body_boundary by (left; reflexivity).
    eexists. split; [reflexivity|].
    cbn [LinearGap.ts_alignment_index LinearGap.ts_trace_X LinearGap.ts_trace_Y
         LinearGap.ts_x LinearGap.ts_y map fst snd length].
    rewrite !store_one by lia. repeat split. lia.
  - induction j as [|j IHj].
    + (* first column *)
      intros fuel k bX bY Hfuel Hsc Hpos HbX HbY. cbn [walk].
      split; [cbn; lia|].
      destruct fuel as [|fuel]; [lia|].
      cbn [LinearGap.trace_loop LinearGap.ts_score].
      destruct (Z.eqb_spec (Z_ (S i) 0) 0) as [Hz|_]; [contradiction|].
      rewrite trace_body_boundary by (right; reflexivity).
      eexists. split; [reflexivity|].
      cbn [LinearGap.ts_alignment_index LinearGap.ts_trace_X
           LinearGap.ts_trace_Y LinearGap.ts_x LinearGap.ts_y
           map fst snd length].
      rewrite !store_one by lia. repeat split. lia.
    + (* interior cell *)
      intros fuel k bX bY Hfuel Hsc Hpos HbX HbY.
      rewrite walk_S_S.
      destruct fuel as [|fuel]; [lia|].
      cbn [LinearGap.trace_loop LinearGap.ts_score].
      destruct (Z.eqb_spec (Z_ (S i) (S j)) 0) as [Hz|_]; [contradiction|].
      rewrite trace_body_interior.
      destruct (Z.eqb_spec (sub64 (Z_ (S i) j) G) (Z_ (S i) (S j))) as [Hleft|_].
      { (* left gap *)
        pose proof (gap_move_nonzero (S i) (S j) (S i) j ltac:(lia) ltac:(lia)
                      Hsc Hpos Hleft) as Hpos'.
        specialize (IHj fuel (S k) (<[ k := GAP ]> bX)
                        (<[ k := char_at seq_Y (S j) ]> bY)
                        ltac:(lia)
                        (well_scored_mono (S i) (S j) (S i) j
                           ltac:(lia) ltac:(lia) Hsc)
                        Hpos'
                        ltac:(rewrite length_insert; lia)
                        ltac:(rewrite length_insert; lia)).
        destruct (path (S i) j) as [cols|]; cbn [option_map]; [|exact IHj].
        destruct IHj as (Hlen & st' & Hloop & Hidx & HtX & HtY).
        split; [cbn [length]; lia|].
        exists st'. split; [exact Hloop|].
        cbn [map fst snd length].
        rewrite <- !store_cons by lia. repeat split; try assumption. lia. }
      destruct (Z.eqb_spec
                  (add64 (Z_ i j)
                     (score_fn (char_at seq_X (S i)) (char_at seq_Y (S j))))
                  (Z_ (S i) (S j))) as [Hdiag|_].
      { (* diagonal *)
        destruct (Z.eqb_spec (Z_ i j) 0) as [Hzero|Hnz].
        - split; [cbn; lia|]. eexists. split; [reflexivity|].
          cbn [LinearGap.ts_alignment_index LinearGap.ts_trace_X
               LinearGap.ts_trace_Y map fst snd length].
          rewrite !store_one by lia. repeat split. lia.
        - specialize (IHi j fuel (S k) (<[ k := char_at seq_X (S i) ]> bX)
                          (<[ k := char_at seq_Y (S j) ]> bY)
                          ltac:(lia)
                          (well_scored_mono (S i) (S j) i j
                             ltac:(lia) ltac:(lia) Hsc)
                          Hnz
                          ltac:(rewrite length_insert; lia)
                          ltac:(rewrite length_insert; lia)).
          destruct (path i j) as [cols|]; cbn [option_map]; [|exact IHi].
          destruct IHi as (Hlen & st' & Hloop & Hidx & HtX & HtY).
          split; [cbn [length]; lia|].
          exists st'. split; [exact Hloop|].
          cbn [map fst snd length].
          rewrite <- !store_cons by lia. repeat split; try assumption. lia. }
      destruct (Z.eqb_spec (sub64 (Z_ i (S j)) G) (Z_ (S i) (S j))) as [Hup|_].
      { (* up gap *)
        pose proof (gap_move_nonzero (S i) (S j) i (S j) ltac:(lia) ltac:(lia)
                      Hsc Hpos Hup) as Hpos'.
        specialize (IHi (S j) fuel (S k) (<[ k := char_at seq_X (S i) ]> bX)
                        (<[ k := GAP ]> bY)
                        ltac:(lia)
                        (well_scored_mono (S i) (S j) i (S j)
                           ltac:(lia) ltac:(lia) Hsc)
                        Hpos'
                        ltac:(rewrite length_insert; lia)
                        ltac:(rewrite length_insert; lia)).
        destruct (path i (S j)) as [cols|]; cbn [option_map]; [|exact IHi].
        destruct IHi as (Hlen & st' & Hloop & Hidx & HtX & HtY).
        split; [cbn [length]; lia|].
        exists st'. split; [exact Hloop|].
        cbn [map fst snd length].
        rewrite <- !store_cons by lia. repeat split; try assumption. lia. }
      reflexivity.
Qed.

(** The whole traceback from a non-zero cell: the two buffers receive the
    columns of the walk in reverse order, then a NUL; what follows in the
    buffers is not touched. *)
Lemma trace_refines_walk (i j : nat) (bX bY : list ascii) :
  seq_X <> [] -> seq_Y <> [] ->
  scored i j -> Z_ i j <> 0 ->
  (S (i + j) < length bX)%nat -> (S (i + j) < length bY)%nat ->
  match path i j with
  | Some cols =>
      (1 <= length cols <= S (i + j))%nat
      /\ exists x y,
           LinearGap.trace_linear_gap_smith_waterman seq_X seq_Y Zm score_fn G
             bX bY i j
           = LinearGap.Traced
               (rev (map fst cols) ++ NUL :: drop (S (length cols)) bX)
               (rev (map snd cols) ++ NUL :: drop (S (length cols)) bY)
               x y
  | None =>
      LinearGap.trace_linear_gap_smith_waterman seq_X seq_Y Zm score_fn G
        bX bY i j
      = LinearGap.TraceAssertionFailed
  end.
Proof.
  intros HX HY Hsc Hpos HbX HbY.
  pose proof (trace_loop_walk i j (S (i + j)) 0 bX bY
                ltac:(lia) Hsc Hpos ltac:(lia) ltac:(lia)) as H.
  unfold LinearGap.trace_linear_gap_smith_waterman. cbn zeta.
  destruct seq_X as [|cx rX]; [congruence|].
  destruct seq_Y as [|cy rY] eqn:EY; [congruence|].
  cbn [length Nat.eqb orb]. rewrite <- EY in *.
  assert (length seq_Y = S (length rY)) as HlY by (rewrite EY; reflexivity).
  unfold cell in H. rewrite HlY in H.
  destruct (walk (cx :: rX) seq_Y Zm score_fn G i j) as [cols|].
  - destruct H as (Hlen & st' & Hloop & Hidx & HtX & HtY).
    split; [exact Hlen|].
    rewrite Hloop. exists (LinearGap.ts_x st'), (LinearGap.ts_y st').
    rewrite Hidx, HtX, HtY. cbn [Nat.add].
    replace (S (length cols - 1)) with (length cols) by lia.
    assert (forall (cs buf : list ascii),
              length cs = length cols -> (S (i + j) < length buf)%nat ->
              LinearGap.reverse_in_place (length cols - 1)
                (<[ length cols := NUL ]> (store 0 cs buf))
              = rev cs ++ NUL :: drop (S (length cols)) buf) as Hrev.
    { intros cs buf Hcs Hbuf. unfold store. rewrite take_0.
      cbn [app Nat.add].
      rewrite <- Hcs.
      rewrite insert_app_r_alt, Nat.sub_diag by lia.
      rewrite (insert_take_drop (drop (length cs) buf) 0)
        by (rewrite length_drop; lia).
      cbn [take app]. rewrite drop_drop.
      rewrite reverse_in_place_spec
        by (rewrite length_app; cbn [length]; lia).
      replace (S (length cs - 1)) with (length cs) by lia.
      rewrite take_app_length, drop_app_length.
      replace (length cs + 1)%nat with (S (length cs)) by lia.
      reflexivity. }
    rewrite !Hrev by (rewrite ?length_map; (reflexivity || assumption)).
    reflexivity.
  - rewrite H. reflexivity.
Qed.
End TraceFacts.

Lemma rd_range_forallb (m : list Z) :
  forallb (fun z => (0 <=? z) && (z <=? INT64_MAX)) m = true ->
  forall k : nat, 0 <= rd m k <= INT64_MAX.
Proof.
  intros H k. unfold rd.
  destruct (m !! k) as [z|] eqn:E; cbn.
  - rewrite forallb_forall in H.
    specialize (H z ltac:(apply list_elem_of_In, list_elem_of_lookup; eauto)).
    apply andb_true_iff in H. destruct H as [H1 H2].
    apply Z.leb_le in H1, H2. lia.
  - int64_consts. lia.
Qed.

(** C2. On a scored matrix (entries and gap penalty non-negative
    [int64_t], or no zero cell above and left of the start) and from a cell
    [(i, j)] with [Z[i,j] > 0], the traceback follows the walk of the
    specification: at a cell with [i = 0] or [j = 0]
    it emits the column [(X[i], Y[j])] and stops; elsewhere it tries the
    left gap, then the diagonal (stopping after the column when the
    diagonal predecessor is zero), then the up gap; the two buffers end up
    holding the emitted columns in reverse order, NUL terminated.  When no
    rule applies the assertion of the source fails. *)
Theorem trace_linear_gap_smith_waterman_priority
    (seq_X seq_Y : list ascii) (Zm : list Z)
    (score_fn : ascii -> ascii -> Z) (G : Z) (i j : nat)
    (trace_X trace_Y : list ascii) :
  seq_X <> [] -> seq_Y <> [] ->
  well_scored seq_Y Zm G i j ->
  0 < cell seq_Y Zm i j ->
  (S (i + j) < length trace_X)%nat -> (S (i + j) < length trace_Y)%nat ->
  match walk seq_X seq_Y Zm score_fn G i j with
  | Some cols =>
      (1 <= length cols <= S (i + j))%nat
      /\ exists x y,
           LinearGap.trace_linear_gap_smith_waterman seq_X seq_Y Zm score_fn G
             trace_X trace_Y i j
           = LinearGap.Traced
               (rev (map fst cols) ++ NUL :: drop (S (length cols)) trace_X)
               (rev (map snd cols) ++ NUL :: drop (S (length cols)) trace_Y)
               x y
  | None =>
      LinearGap.trace_linear_gap_smith_waterman seq_X seq_Y Zm score_fn G
        trace_X trace_Y i j
      = LinearGap.TraceAssertionFailed
  end.
Proof.
  intros HX HY Hscored Hpos HbX HbY.
  apply trace_refines_walk; try assumption. lia.
Qed.

Lemma trace_linear_gap_smith_waterman_priority_witness :
  exists x y,
    LinearGap.trace_linear_gap_smith_waterman (chars "GGTTGACTA")
      (chars "TGTTACGG") example_matrix get_example_substitution 2
      (repeat "?"%char 14) (repeat "?"%char 14) 6 5
    = LinearGap.Traced
        (chars "GTTGAC" ++ NUL :: repeat "?"%char 7)
        (chars "GTT-AC" ++ NUL :: repeat "?"%char 7) x y.
Proof.
  refine (proj2 (trace_linear_gap_smith_waterman_priority
                   (chars "GGTTGACTA") (chars "TGTTACGG") example_matrix
                   get_example_substitution 2 6 5
                   (repeat "?"%char 14) (repeat "?"%char 14) _ _ _ _ _ _)).
  - discriminate.
  - discriminate.
  - left. split.
    + vm_compute. split; discriminate.
    + apply rd_range_forallb. vm_compute. reflexivity.
  - vm_compute. reflexivity.
  - cbn. lia.
  - cbn. lia.
Defined.

(** The example program: the best cell of its matrix is [(6, 5)], with
    score 13. *)
Example example_program_best_cell :
  LinearGap.best_linear_gap_smith_waterman_score_indices 9 8 example_matrix
    0 0 = (true, (6%nat, 5%nat))
  /\ rd example_matrix (6 * 8 + 5) = 13.
Proof. vm_compute. split; reflexivity. Qed.

(** ** The substitution table *)

Lemma EDNAFULL_NUC_4_4_length : Z.of_nat (length EDNAFULL_NUC_4_4) = 8100.
Proof. vm_compute. reflexivity. Qed.

Lemma size_t_of_char_ascii (c : ascii) :
  (nat_of_ascii c < 128)%nat -> size_t_of_char c = Z.of_nat (nat_of_ascii c).
Proof.
  intros H. unfold size_t_of_char, nat_of_ascii in *. cbn zeta.
  rewrite N_nat_Z.
  destruct (Z.ltb_spec (Z.of_N (N_of_ascii c)) 128); lia.
Qed.

(** A second character with a code from 90 on, lowercase letters among
    them, sends the index past the end of the table. *)
Lemma get_nuc_4_4_value_outside (a b : ascii) :
  (nat_of_ascii a < 128)%nat -> (90 <= nat_of_ascii b < 128)%nat ->
  get_nuc_4_4_value a b = None.
Proof.
  intros Ha Hb. unfold get_nuc_4_4_value, get_nuc_4_4_index.
  rewrite !size_t_of_char_ascii by lia.
  apply lookup_ge_None_2. pose proof EDNAFULL_NUC_4_4_length.
  int64_consts. rewrite Z.mod_small by lia. lia.
Qed.

Lemma nuc_4_4_score_range (a b : ascii) : in_int64 (nuc_4_4_score a b).
Proof.
  assert (forallb (fun z => (INT64_MIN <=? z) && (z <=? INT64_MAX))
            EDNAFULL_NUC_4_4 = true) as H by (vm_compute; reflexivity).
  unfold nuc_4_4_score, get_nuc_4_4_value.
  destruct (EDNAFULL_NUC_4_4 !! _) as [z|] eqn:E; cbn.
  - rewrite forallb_forall in H.
    specialize (H z ltac:(apply list_elem_of_In, list_elem_of_lookup; eauto)).
    apply andb_true_iff in H. destruct H as [H1 H2].
    apply Z.leb_le in H1, H2. split; assumption.
  - int64_consts. lia.
Qed.

Lemma table_entries_ok :
  forallb (fun i => forallb (fun j => table_entry_ok (ascii_of_nat i)
                                                     (ascii_of_nat j))
                            (seq 0 128))
          (seq 0 128) = true.
Proof. vm_compute. reflexivity. Qed.

Lemma get_nuc_4_4_index_ascii (a b : ascii) :
  (nat_of_ascii a < 128)%nat -> (nat_of_ascii b < 128)%nat ->
  get_nuc_4_4_index a b
  = Z.of_nat (nat_of_ascii a) + 90 * Z.of_nat (nat_of_ascii b).
Proof.
  intros Ha Hb. unfold get_nuc_4_4_index.
  rewrite !size_t_of_char_ascii by lia.
  int64_consts. apply Z.mod_small. lia.
Qed.

(** C4, as the code has it.  For every pair of ASCII byte codes [(a, b)]
    whose index [a + 90 * b] is below 8100, [get_nuc_4_4_value] reads inside
    the table and yields a defined [int64_t], and it yields 0 when one of
    the two bytes is outside the recognized codes.  The index is below 8100
    for every pair with [b <= 88] and for every pair of codes below 90, the
    uppercase letters from A to Y among them (the code of Z is 90). *)
Theorem get_nuc_4_4_value_in_table (a b : ascii) :
  (nat_of_ascii a < 128)%nat -> (nat_of_ascii b < 128)%nat ->
  ((nat_of_ascii b <= 88)%nat
   \/ ((nat_of_ascii a < 90)%nat /\ (nat_of_ascii b < 90)%nat) ->
   Z.of_nat (nat_of_ascii a) + 90 * Z.of_nat (nat_of_ascii b) < 8100)
  /\ (Z.of_nat (nat_of_ascii a) + 90 * Z.of_nat (nat_of_ascii b) < 8100 ->
      exists v : Z,
        get_nuc_4_4_value a b = Some v
        /\ in_int64 v
        /\ (recognized a && recognized b = false -> v = 0)).
Proof.
  intros Ha Hb. split; [lia|]. intros Hidx.
  pose proof table_entries_ok as H.
  rewrite forallb_forall in H.
  specialize (H (nat_of_ascii a) ltac:(apply in_seq; lia)).
  rewrite forallb_forall in H.
  specialize (H (nat_of_ascii b) ltac:(apply in_seq; lia)).
  rewrite !ascii_nat_embedding in H. unfold table_entry_ok in H.
  rewrite get_nuc_4_4_index_ascii in H by assumption.
  destruct (Z.ltb_spec (Z.of_nat (nat_of_ascii a)
                        + 90 * Z.of_nat (nat_of_ascii b)) 8100); [|lia].
  pose proof (nuc_4_4_score_range a b) as Hr. unfold nuc_4_4_score in Hr.
  destruct (get_nuc_4_4_value a b) as [v|]; [|discriminate].
  exists v. split; [reflexivity|]. split; [exact Hr|].
  intros Hrec. rewrite Hrec in H.
  cbn [orb] in H. apply Z.eqb_eq in H. exact H.
Qed.

Lemma get_nuc_4_4_value_in_table_witness :
  exists v : Z,
    get_nuc_4_4_value "A" "x" = None
    /\ get_nuc_4_4_value "x" "A" = Some v /\ v = 0.
Proof.
  destruct (get_nuc_4_4_value_in_table "x" "A") as [Hin Hval].
  - vm_compute. lia.
  - vm_compute. lia.
  - destruct Hval as (v & Hv & _ & Hz).
    + apply Hin. left. vm_compute. lia.
    + exists v. split; [reflexivity|]. split; [exact Hv|].
      apply Hz. reflexivity.
Defined.

(** C4 as stated fails at a pair of lowercase bases: the index computed for
    [('a', 'a')] is 8827, past the 8100 entries of the table, so the read is
    outside the table and no value, 0 or other, is defined. *)
Lemma get_nuc_4_4_value_lowercase :
  Z.of_nat (length EDNAFULL_NUC_4_4) = 8100
  /\ get_nuc_4_4_index "a" "a" = 8827
  /\ get_nuc_4_4_value "a" "a" = None.
Proof. vm_compute. repeat split; reflexivity. Qed.

(** ** The driver *)

(** C5 on the code: for ["AAAA"] against ["CCCC"] with gap penalty 16 the
    best score is 0 and the locator returns cell [(0, 0)], but the loop of
    the traceback is not entered, so offset 0 of both trace buffers keeps
    what [malloc] returned; only the NUL at offset 1 is written. *)
Theorem pure_mismatch_trace_not_written (mem : allocation) :
  get_linear_gap_smith_waterman_score mem (chars "AAAA") (chars "CCCC") 16
  = Some {| al_score := 0;
            al_trace_X := [prior_trace_X mem 0%nat; NUL; prior_trace_X mem 2%nat];
            al_trace_Y := [prior_trace_Y mem 0%nat; NUL; prior_trace_Y mem 2%nat];
            al_start_X := 0; al_start_Y := 0;
            al_stop_X := 0; al_stop_Y := 0 |}.
Proof. vm_compute. reflexivity. Qed.

(** The second row of a record always repeats the score of the first. *)
Lemma handle_fastq_tsv_record_scores (mem1 mem2 : allocation)
    (query_sequence_identifier query_sequence reverse_complement_sequence
     sequence_id sequence phred_scores : list ascii) (gap_penalty : Z)
    (row1 row2 : tsv_row) :
  handle_fastq_tsv_record mem1 mem2 query_sequence_identifier query_sequence
    reverse_complement_sequence sequence_id sequence phred_scores gap_penalty
  = Some (row1, row2) ->
  row_score row2 = row_score row1.
Proof.
  unfold handle_fastq_tsv_record. intros H.
  destruct (get_linear_gap_smith_waterman_score mem1 _ _ _); [|discriminate].
  destruct (count_mismatches _ _); [|discriminate].
  destruct (get_linear_gap_smith_waterman_score mem2 _ _ _); [|discriminate].
  destruct (count_mismatches _ _); [|discriminate].
  inversion H. reflexivity.
Qed.

(** C3 on the code: for the query ["AAG"] and the read ["CTTG"] the
    alignment against the reverse complement ["CTT"] scores 15, and its
    statistics and trace strings are those of the second row, but the score
    field of that row holds 5, the score of the first alignment. *)
Theorem handle_fastq_tsv_reverse_complement_row
    (mem1 mem2 : allocation) (prior : nat -> ascii) :
  let reverse_complement_sequence :=
    c_str (get_reverse_complement prior (chars "AAG")) in
  reverse_complement_sequence = chars "CTT"
  /\ handle_fastq_pair_reverse_complement_score mem2
       reverse_complement_sequence (chars "CTTG") 16 = Some 15
  /\ exists row1 row2 : tsv_row,
       handle_fastq_tsv_record mem1 mem2 (chars ">q") (chars "AAG")
         reverse_complement_sequence (chars "@r") (chars "CTTG")
         (chars "IJKL") 16 = Some (row1, row2)
       /\ row_reference_identifier row2 = chars "Reverse_Complement_q"
       /\ row_reference_alignment row2 = chars "CTT"
       /\ row_sequence_alignment row2 = chars "CTT"
       /\ row_identities row2 = 3
       /\ row_score row1 = 5
       /\ row_score row2 = 5.
Proof.
  cbn zeta. split; [vm_compute; reflexivity|].
  split; [vm_compute; reflexivity|].
  eexists. eexists. split; [vm_compute; reflexivity|].
  vm_compute. repeat split; reflexivity.
Qed.

(** ** The command line *)


Section CommandLineFacts.
Variable sscanf_lld : string -> sscanf_result.
Variables OUTPUT_TSV OUTPUT_PAIR : Z.
Variable file_system : string -> file_status.
Variable sequence_prior : nat -> ascii.
Variable line_prior : nat -> nat -> ascii.

Local Abbreviation step := (parse_option sscanf_lld OUTPUT_TSV OUTPUT_PAIR).
Local Abbreviation loop := (parse_loop sscanf_lld OUTPUT_TSV OUTPUT_PAIR).
Local Abbreviation parse :=
  (parse_ednafull_linear_smith_waterman_options sscanf_lld OUTPUT_TSV
     OUTPUT_PAIR).
Local Abbreviation run :=
  (main sscanf_lld OUTPUT_TSV OUTPUT_PAIR file_system sequence_prior
     line_prior).

Lemma parse_loop_app (o : options) (evs1 evs2 : list getopt_event) :
  loop o (evs1 ++ evs2)
  = match loop o evs1 with
    | inl r => inl r
    | inr o' => loop o' evs2
    end.
Proof.
  revert o. induction evs1 as [|ev evs1 IH]; intros o; cbn; [reflexivity|].
  destruct (step o ev); [reflexivity|apply IH].
Qed.






End CommandLineFacts.



(** ** The body of the pair format *)

Lemma bases_app (l1 l2 : list ascii) : bases (l1 ++ l2) = bases l1 + bases l2.
Proof. induction l1 as [|c l1 IH]; cbn [app bases]; lia. Qed.

Lemma bases_bound (l : list ascii) : 0 <= bases l <= Z.of_nat (length l).
Proof.
  induction l as [|c l IH]; cbn [bases length]; [lia|].
  destruct (Ascii.eqb c GAP); lia.
Qed.

Lemma bases_take_S (t : list ascii) (m : nat) :
  (m < length t)%nat ->
  bases (take (S m) t)
  = bases (take m t) + (if Ascii.eqb (char_at t m) GAP then 0 else 1).
Proof.
  intros H. destruct (lookup_lt_is_Some_2 t m H) as [c Hc].
  rewrite (take_S_r t m c Hc), bases_app, char_at_lookup, Hc.
  cbn. lia.
Qed.

Lemma has_base_bases (l : list ascii) : has_base l = (0 <? bases l).
Proof.
  induction l as [|c l IH]; [reflexivity|].
  cbn [has_base existsb bases]. fold (has_base l). rewrite IH.
  pose proof (bases_bound l).
  destruct (Ascii.eqb c GAP); cbn [negb orb];
    destruct (Z.ltb_spec 0 (bases l)), (Z.ltb_spec 0 (1 + bases l));
    try reflexivity; lia.
Qed.

Lemma bases_take_drop (t : list ascii) (first n : nat) :
  bases (take (first + n) t)
  = bases (take first t) + bases (take n (drop first t)).
Proof. rewrite <- take_take_drop, bases_app. reflexivity. Qed.

(** With traces of equal length and two identifiers it takes, the report
    passes its assertions and writes its blocks. *)
Lemma pair_alignment_body_defined
    (query_sequence_identifier sequence_identifier trace_X trace_Y
       : list ascii) :
  length trace_X = length trace_Y ->
  report_identifier sequence_identifier ->
  report_identifier query_sequence_identifier ->
  pair_alignment_body query_sequence_identifier sequence_identifier
    trace_X trace_Y
  = Some (segments
            (remainder_block query_sequence_identifier sequence_identifier
               trace_X trace_Y
               (fold_left
                  (full_block query_sequence_identifier sequence_identifier
                     trace_X trace_Y)
                  (seq 0 (length trace_X / 50))
                  {| prev_X := 0; current_X := 0; prev_Y := 0;
                     current_Y := 0; segments := [] |})
               (length trace_X / 50) (length trace_X mod 50))).
Proof.
  intros Hlen [Hs1 Hs2] [Hq1 Hq2]. unfold pair_alignment_body.
  rewrite Hlen, Nat.eqb_refl, <- Hlen.
  destruct (Nat.ltb_spec 1 (length sequence_identifier)); [|lia].
  destruct (Nat.ltb_spec 1 (length query_sequence_identifier)); [|lia].
  cbn [negb].
  destruct sequence_identifier as [|c s]; [cbn in Hs1; lia|].
  destruct query_sequence_identifier as [|d q]; [cbn in Hq1; lia|].
  cbn [char_at nth] in Hs2, Hq2.
  cbn [get_first_string_token_space_delimited].
  destruct (Ascii.eqb_spec c " "); [contradiction|].
  destruct (Ascii.eqb_spec d " "); [contradiction|].
  reflexivity.
Qed.

Section PairBodyFacts.
Variables (query_sequence_identifier sequence_identifier : list ascii).
Variables (trace_X trace_Y : list ascii).

Hypothesis Hlen : length trace_X = length trace_Y.
Hypothesis Hsize : Z.of_nat (length trace_X) < UINT64_MOD.

Local Abbreviation fmt :=
  (format_block query_sequence_identifier sequence_identifier trace_X trace_Y).

(** The counting loop of a block brings the running counts from the
    start of the block to its end. *)
Lemma advance_block (first n : nat) :
  (first + n <= length trace_X)%nat ->
  fold_left (advance trace_X trace_Y) (seq first n)
    (bases (take first trace_X), bases (take first trace_Y))
  = (bases (take (first + n) trace_X), bases (take (first + n) trace_Y)).
Proof.
  induction n as [|n IH]; intros Hn.
  - rewrite Nat.add_0_r. reflexivity.
  - rewrite fold_left_seq_S, IH by lia. unfold advance. cbn [fst snd].
    rewrite Nat.add_succ_r, !bases_take_S by lia.
    pose proof (bases_bound (take (first + n) trace_X)) as HbX.
    pose proof (bases_bound (take (first + n) trace_Y)) as HbY.
    rewrite length_take in HbX, HbY.
    destruct (Ascii.eqb (char_at trace_X (first + n)) GAP),
      (Ascii.eqb (char_at trace_Y (first + n)) GAP);
      rewrite ?incr_u64_small by lia; rewrite ?Z.add_0_r; reflexivity.
Qed.

Lemma format_block_coordinates (st : body_state) (first n : nat) :
  (first + n <= length trace_X)%nat ->
  current_X st = bases (take first trace_X) ->
  prev_X st = bases (take first trace_X) ->
  current_Y st = bases (take first trace_Y) ->
  prev_Y st = bases (take first trace_Y) ->
  exists seg,
    fmt st first n
    = (bases (take (first + n) trace_X), bases (take (first + n) trace_Y),
       seg)
    /\ block_coordinates trace_X trace_Y first n seg.
Proof.
  intros Hn HcX HpX HcY HpY. unfold format_block.
  rewrite HcX, HcY, advance_block by exact Hn.
  eexists. split; [reflexivity|].
  unfold block_coordinates.
  cbn [line_start line_end segment_X segment_Y].
  rewrite HpX, HpY, !has_base_bases, !bases_take_drop.
  pose proof (bases_bound (take first trace_X)) as H1.
  pose proof (bases_bound (take first trace_Y)) as H2.
  pose proof (bases_bound (take n (drop first trace_X))) as H3.
  pose proof (bases_bound (take n (drop first trace_Y))) as H4.
  rewrite !length_take, !length_drop in *.
  repeat split.
  - destruct (Z.gtb_spec (bases (take first trace_X)
                          + bases (take n (drop first trace_X)))
                         (bases (take first trace_X))),
      (Z.ltb_spec 0 (bases (take n (drop first trace_X)))); try lia.
    apply Z.mod_small. int64_consts. lia.
  - destruct (Z.gtb_spec (bases (take first trace_Y)
                          + bases (take n (drop first trace_Y)))
                         (bases (take first trace_Y))),
      (Z.ltb_spec 0 (bases (take n (drop first trace_Y)))); try lia.
    apply Z.mod_small. int64_consts. lia.
Qed.

(** State of the writer after [m] full blocks. *)
Lemma full_blocks (m : nat) :
  (m * 50 <= length trace_X)%nat ->
  let st :=
    fold_left
      (full_block query_sequence_identifier sequence_identifier trace_X trace_Y)
      (seq 0 m)
      {| prev_X := 0; current_X := 0; prev_Y := 0; current_Y := 0;
         segments := [] |} in
  current_X st = bases (take (m * 50) trace_X)
  /\ prev_X st = bases (take (m * 50) trace_X)
  /\ current_Y st = bases (take (m * 50) trace_Y)
  /\ prev_Y st = bases (take (m * 50) trace_Y)
  /\ length (segments st) = m
  /\ forall k seg, segments st !! k = Some seg ->
                   block_coordinates trace_X trace_Y (k * 50) 50 seg.
Proof.
  induction m as [|m IH]; intros Hm; cbn zeta.
  - cbn. do 5 (split; [reflexivity|]). intros k seg H. discriminate.
  - rewrite fold_left_seq_S. cbn [Nat.add].
    destruct IH as (HcX & HpX & HcY & HpY & Hl & Hsegs); [lia|].
    set (st := fold_left _ (seq 0 m) _) in *.
    unfold full_block.
    destruct (format_block_coordinates st (m * 50) 50 ltac:(lia)
                HcX HpX HcY HpY) as (seg & Hfmt & Hseg).
    rewrite Hfmt.
    cbn [current_X prev_X current_Y prev_Y segments].
    replace (S m * 50)%nat with (m * 50 + 50)%nat by lia.
    do 4 (split; [reflexivity|]). split.
    + rewrite length_app, Hl. cbn. lia.
    + intros k seg' Hk.
      apply lookup_app_Some in Hk. destruct Hk as [Hk|[Hge Hk]].
      * apply Hsegs. exact Hk.
      * rewrite Hl in *. destruct (k - m)%nat as [|d] eqn:Ed; [|destruct d; discriminate].
        cbn in Hk. inversion Hk; subst seg'.
        replace k with m by lia. exact Hseg.
Qed.
End PairBodyFacts.

(** C7. In the body of the pair format, whatever the alignment, the block
    number [k] of 50 columns (the shorter last block included) shows, for
    [trace_X] and for [trace_Y] alike: as start coordinate the number of
    non-gap characters before the block, plus one when the block holds at
    least one non-gap character of that trace and unchanged otherwise; as
    end coordinate the number of non-gap characters up to the end of the
    block.  The report is written when the traces have the same length and
    each identifier is longer than one character and does not start with a
    space: the assertions of the function ask for the first two, and the
    token of an identifier that starts with a space is empty. *)
Theorem pair_alignment_body_coordinates
    (query_sequence_identifier sequence_identifier trace_X trace_Y
       : list ascii) :
  length trace_X = length trace_Y ->
  Z.of_nat (length trace_X) < UINT64_MOD ->
  report_identifier sequence_identifier ->
  report_identifier query_sequence_identifier ->
  exists body : list body_segment,
    pair_alignment_body query_sequence_identifier sequence_identifier
      trace_X trace_Y = Some body
    /\ length body
       = (length trace_X / 50
          + (if (length trace_X mod 50 =? 0)%nat then 0 else 1))%nat
    /\ forall (k : nat) (seg : body_segment),
         body !! k = Some seg ->
         line_start (segment_X seg)
         = bases (take (50 * k) trace_X)
           + (if has_base (block k trace_X) then 1 else 0)
         /\ line_end (segment_X seg) = bases (take (50 * k + 50) trace_X)
         /\ line_start (segment_Y seg)
            = bases (take (50 * k) trace_Y)
              + (if has_base (block k trace_Y) then 1 else 0)
         /\ line_end (segment_Y seg) = bases (take (50 * k + 50) trace_Y).
Proof.
  intros Hlen Hsize Hsid Hqid.
  rewrite (pair_alignment_body_defined _ _ _ _ Hlen Hsid Hqid).
  set (L := length trace_X) in *.
  set (Q := (L / 50)%nat). set (R := (L mod 50)%nat).
  assert (L = Q * 50 + R /\ R < 50)%nat as [HL HR].
  { subst Q R. pose proof (Nat.div_mod_eq L 50).
    pose proof (Nat.mod_upper_bound L 50). lia. }
  destruct (full_blocks query_sequence_identifier sequence_identifier
              trace_X trace_Y Hlen Hsize Q ltac:(fold L; lia))
    as (HcX & HpX & HcY & HpY & Hl & Hsegs).
  set (st := fold_left _ (seq 0 Q) _) in *.
  assert (forall k seg, block_coordinates trace_X trace_Y (k * 50) 50 seg ->
            line_start (segment_X seg)
            = bases (take (50 * k) trace_X)
              + (if has_base (block k trace_X) then 1 else 0)
            /\ line_end (segment_X seg) = bases (take (50 * k + 50) trace_X)
            /\ line_start (segment_Y seg)
               = bases (take (50 * k) trace_Y)
                 + (if has_base (block k trace_Y) then 1 else 0)
            /\ line_end (segment_Y seg) = bases (take (50 * k + 50) trace_Y))
    as Hfull.
  { intros k seg H. unfold block_coordinates, block in *.
    replace (50 * k)%nat with (k * 50)%nat by lia. exact H. }
  eexists. split; [reflexivity|]. unfold remainder_block.
  destruct (Nat.eqb_spec R 0) as [HR0|HR0].
  - split; [rewrite Hl; lia|].
    intros k seg Hk. apply Hfull, Hsegs. exact Hk.
  - destruct (format_block_coordinates query_sequence_identifier
                sequence_identifier trace_X trace_Y Hlen Hsize st
                (Q * 50) R ltac:(fold L; lia) HcX HpX HcY HpY)
      as (seg & Hfmt & Hseg).
    rewrite Hfmt. cbn [segments].
    split; [rewrite length_app, Hl; cbn; lia|].
    intros k seg' Hk.
    apply lookup_app_Some in Hk. destruct Hk as [Hk|[Hge Hk]].
    + apply Hfull, Hsegs. exact Hk.
    + rewrite Hl in *.
      destruct (k - Q)%nat as [|d] eqn:Ed; [|destruct d; discriminate].
      cbn in Hk. inversion Hk; subst seg'.
      assert (k = Q) as -> by lia.
      unfold block_coordinates, block in *.
      replace (50 * Q)%nat with (Q * 50)%nat by lia.
      assert (forall t : list ascii, length t = L ->
                take R (drop (Q * 50) t) = take 50 (drop (Q * 50) t)
                /\ take (Q * 50 + R) t = take (Q * 50 + 50) t) as Htail.
      { intros t Ht. split.
        - rewrite !take_ge by (rewrite length_drop; lia). reflexivity.
        - rewrite !take_ge by lia. reflexivity. }
      destruct (Htail trace_X eq_refl) as [<- <-].
      destruct (Htail trace_Y (eq_sym Hlen)) as [<- <-].
      exact Hseg.
Qed.

Lemma pair_alignment_body_coordinates_witness :
  exists body : list body_segment,
    pair_alignment_body (chars ">query") (chars ">read 1")
      (chars "AC-T") (chars "A-GT") = Some body
    /\ length body = 1%nat.
Proof.
  destruct (pair_alignment_body_coordinates (chars ">query") (chars ">read 1")
              (chars "AC-T") (chars "A-GT") eq_refl eq_refl)
    as (body & Hb & Hl & _).
  - split; [cbn; lia|discriminate].
  - split; [cbn; lia|discriminate].
  - exists body. split; [exact Hb|exact Hl].
Defined.

(** ** The best-cell locator *)


(** ** A sequence against itself *)

Lemma c_str_terminated (s rest : list ascii) :
  Forall (fun c => c <> NUL) s -> c_str (s ++ NUL :: rest) = s.
Proof.
  induction 1 as [|c s Hc _ IH]; cbn [app c_str].
  - reflexivity.
  - destruct (Ascii.eqb_spec c NUL); [contradiction|]. rewrite IH. reflexivity.
Qed.


Section Identity.
Variable s : list ascii.
Variable score_fn : ascii -> ascii -> Z.
Variable G : Z.
Variable scores : list Z.
(** The score of every character of [s] against itself. *)
Variable m : Z.

Local Abbreviation n := (length s).
Local Abbreviation Zm :=
  (LinearGap.linear_gap_smith_waterman s s score_fn G scores).
Local Abbreviation Z_ i j := (rd Zm (i * length s + j)%nat).

Hypothesis Hs : (1 <= n)%nat.
Hypothesis Hlen : length scores = (n * n)%nat.
Hypothesis Hrange : forall a b, in_int64 (score_fn a b).
Hypothesis HG : 0 <= G <= INT64_MAX.
Hypothesis Hm : 0 < m.
Hypothesis Hself :
  forall i, (i < n)%nat -> score_fn (char_at s i) (char_at s i) = m.
Hypothesis Hother :
  forall i j, (i < n)%nat -> (j < n)%nat ->
              score_fn (char_at s i) (char_at s j) <= m.
Hypothesis Hfit : m * Z.of_nat n <= INT64_MAX.





End Identity.

(** *** NUC4.4 on the four bases *)











(** * Further properties of the code *)

(** ** The scoring kernel *)

(** X1.  [linear_gap_smith_waterman] stays inside [int64_t] and never
    stores a negative cell.  For a gap penalty that is not negative and
    scores of at most [M] on the two sequences, with [M] times the length of
    the shorter sequence inside [int64_t], each cell [(i, j)] of the matrix
    of two non-empty sequences ends between 0 and [M * (min i j + 1)]; the
    difference the kernel forms from it with the gap penalty and the sum it
    forms from it with the score of the next diagonal cell fit [int64_t],
    as do [0 - G] and [0 + score] for a neighbour outside the matrix, so
    no signed overflow occurs; the array keeps its length. *)
Theorem linear_gap_smith_waterman_floor
    (seq_X seq_Y : list ascii) (score_fn : ascii -> ascii -> Z) (G M : Z)
    (scores : list Z) :
  seq_X <> [] -> seq_Y <> [] ->
  (length seq_X * length seq_Y <= length scores)%nat ->
  0 <= G <= INT64_MAX ->
  (forall a b : ascii, in_int64 (score_fn a b)) ->
  0 <= M ->
  (forall i j : nat, (i < length seq_X)%nat -> (j < length seq_Y)%nat ->
     score_fn (char_at seq_X i) (char_at seq_Y j) <= M) ->
  M * Z.of_nat (Nat.min (length seq_X) (length seq_Y)) <= INT64_MAX ->
  let Zm := LinearGap.linear_gap_smith_waterman seq_X seq_Y score_fn G scores in
  length Zm = length scores
  /\ in_int64 (0 - G)
  /\ (forall a b : ascii, in_int64 (0 + score_fn a b))
  /\ forall i j : nat,
       (i < length seq_X)%nat -> (j < length seq_Y)%nat ->
       0 <= rd Zm (i * length seq_Y + j) <= M * (Z.of_nat (Nat.min i j) + 1)
       /\ M * (Z.of_nat (Nat.min i j) + 1) <= INT64_MAX
       /\ in_int64 (rd Zm (i * length seq_Y + j) - G)
       /\ ((S i < length seq_X)%nat -> (S j < length seq_Y)%nat ->
           in_int64 (rd Zm (i * length seq_Y + j)
                     + score_fn (char_at seq_X (S i)) (char_at seq_Y (S j)))).
Proof.
  intros HX HY Hlen HG Hrange HM HsM Hfit Zm.
  assert (1 <= length seq_X)%nat as HlX by (destruct seq_X; cbn; [congruence|lia]).
  assert (1 <= length seq_Y)%nat as HlY by (destruct seq_Y; cbn; [congruence|lia]).
  destruct (kernel_filled seq_X seq_Y score_fn G scores HlX HlY Hlen)
    as [Hl _].
  split; [exact Hl|]. split; [int64_consts; lia|].
  split; [intros a b; exact (Hrange a b)|].
  intros i j Hi Hj. subst Zm.
  pose proof (cell_range seq_X seq_Y score_fn G scores HlX HlY Hlen i j Hi Hj)
    as Hr.
  pose proof (cell_bound seq_X seq_Y score_fn G scores M HlX HlY Hlen Hrange
                HG HM HsM Hfit (i + j) i j eq_refl Hi Hj) as Hb.
  pose proof (cell_limit_fits seq_X seq_Y M HM Hfit i j Hi Hj) as Hf.
  unfold cell_limit in Hb, Hf.
  split; [lia|]. split; [exact Hf|]. split.
  - int64_consts. lia.
  - intros Hi' Hj'.
    pose proof (cell_limit_fits seq_X seq_Y M HM Hfit (S i) (S j) Hi' Hj')
      as Hf'.
    pose proof (cell_limit_diag M i j) as Hd. unfold cell_limit in Hf', Hd.
    pose proof (HsM (S i) (S j) Hi' Hj') as Hs.
    pose proof (Hrange (char_at seq_X (S i)) (char_at seq_Y (S j))) as Hs'.
    int64_consts. lia.
Qed.

Lemma linear_gap_smith_waterman_floor_witness :
  0 <= rd (LinearGap.linear_gap_smith_waterman (chars "GA") (chars "GT")
             get_example_substitution 2 [7; 7; 7; 7; 7]) (1 * 2 + 1)
  <= 3 * (Z.of_nat (Nat.min 1 1) + 1).
Proof.
  refine (proj1 (proj2 (proj2 (proj2
                   (linear_gap_smith_waterman_floor (chars "GA")
                      (chars "GT") get_example_substitution 2 3
                      [7; 7; 7; 7; 7] _ _ _ _ _ _ _ _)))
                   1%nat 1%nat _ _)).
  - discriminate.
  - discriminate.
  - cbn. lia.
  - vm_compute. split; discriminate.
  - intros a b. unfold get_example_substitution.
    destruct (Ascii.eqb a b); vm_compute; split; discriminate.
  - lia.
  - intros i j _ _. unfold get_example_substitution.
    destruct (Ascii.eqb _ _); lia.
  - vm_compute. discriminate.
  - cbn. lia.
  - cbn. lia.
Defined.

(** The kernel stores nothing from offset [len_X * len_Y] on. *)
Lemma kernel_frame (seq_X seq_Y : list ascii)
    (score_fn : ascii -> ascii -> Z) (G : Z) (scores : list Z) (k : nat) :
  (1 <= length seq_X)%nat -> (1 <= length seq_Y)%nat ->
  (length seq_X * length seq_Y <= k)%nat ->
  LinearGap.linear_gap_smith_waterman seq_X seq_Y score_fn G scores !! k
  = scores !! k.
Proof.
  intros HX HY Hk.
  set (I := fun (_ : nat) (sc : list Z) => sc !! k = scores !! k).
  assert (forall sc, I 0%nat sc ->
            I 0%nat (LinearGap.first_row seq_X seq_Y score_fn G sc)) as Hfirst.
  { intros sc Hsc. unfold LinearGap.first_row. cbn zeta.
    apply (fold_left_seq_invariant (fun j sc' => (j <= length seq_Y)%nat -> I 0%nat sc')
             _ 1 (length seq_Y - 1)); [| |lia].
    - intros _. unfold I in *. rewrite list_lookup_insert_ne by nia. exact Hsc.
    - intros j sc' Hj Hsc' _. unfold LinearGap.first_row_cell, I in *.
      rewrite list_lookup_insert_ne by nia. apply Hsc'. lia. }
  assert (forall i sc, (1 <= i < length seq_X)%nat -> I 0%nat sc ->
            I 0%nat (LinearGap.row seq_X seq_Y score_fn G sc i)) as Hrow.
  { intros i sc Hi Hsc. unfold LinearGap.row. cbn zeta.
    apply (fold_left_seq_invariant (fun j sc' => (j <= length seq_Y)%nat -> I 0%nat sc')
             _ 1 (length seq_Y - 1)); [| |lia].
    - intros _. unfold I in *. rewrite list_lookup_insert_ne by nia. exact Hsc.
    - intros j sc' Hj Hsc' _. unfold LinearGap.inner_cell, I in *.
      rewrite list_lookup_insert_ne by nia. apply Hsc'. lia. }
  unfold LinearGap.linear_gap_smith_waterman.
  apply (fold_left_seq_invariant (fun i sc' => (i <= length seq_X)%nat -> I 0%nat sc')
           _ 1 (length seq_X - 1)); [| |lia].
  - intros _. apply Hfirst. reflexivity.
  - intros i sc' Hi Hsc' _. apply Hrow; [lia|]. apply Hsc'. lia.
Qed.

(** X2.  [linear_gap_smith_waterman] overwrites exactly the first
    [len_X * len_Y] cells of the array it is given: what it stores there
    does not depend on what the array held on entry (the caller passes a
    fresh [malloc] block), and the cells from [len_X * len_Y] on keep their
    content. *)
Theorem linear_gap_smith_waterman_overwrites
    (seq_X seq_Y : list ascii) (score_fn : ascii -> ascii -> Z) (G : Z)
    (scores1 scores2 : list Z) :
  seq_X <> [] -> seq_Y <> [] ->
  (length seq_X * length seq_Y <= length scores1)%nat ->
  (length seq_X * length seq_Y <= length scores2)%nat ->
  let Z1 := LinearGap.linear_gap_smith_waterman seq_X seq_Y score_fn G scores1 in
  let Z2 := LinearGap.linear_gap_smith_waterman seq_X seq_Y score_fn G scores2 in
  (forall k : nat, (k < length seq_X * length seq_Y)%nat -> rd Z1 k = rd Z2 k)
  /\ (forall k : nat, (length seq_X * length seq_Y <= k)%nat ->
        Z1 !! k = scores1 !! k).
Proof.
  intros HX HY Hlen1 Hlen2 Z1 Z2.
  assert (1 <= length seq_X)%nat as HlX by (destruct seq_X; cbn; [congruence|lia]).
  assert (1 <= length seq_Y)%nat as HlY by (destruct seq_Y; cbn; [congruence|lia]).
  split; [|intros k Hk; apply kernel_frame; assumption].
  destruct (kernel_filled seq_X seq_Y score_fn G scores1 HlX HlY Hlen1)
    as [_ Hf1].
  destruct (kernel_filled seq_X seq_Y score_fn G scores2 HlX HlY Hlen2)
    as [_ Hf2].
  fold Z1 in Hf1. fold Z2 in Hf2.
  intros k. induction k as [k IH] using lt_wf_ind. intros Hk.
  pose proof (Nat.div_mod_eq k (length seq_Y)) as Hdm.
  pose proof (Nat.mod_upper_bound k (length seq_Y) ltac:(lia)) as Hm.
  set (i := (k / length seq_Y)%nat) in *.
  set (j := (k mod length seq_Y)%nat) in *.
  replace k with (i * length seq_Y + j)%nat in * by lia.
  rewrite Hf1, Hf2 by lia.
  unfold stored_value. cbn zeta.
  assert (forall k', (k' < i * length seq_Y + j)%nat -> rd Z1 k' = rd Z2 k')
    as IH' by (intros k' Hk'; apply IH; lia).
  destruct i as [|i'], j as [|j'];
    rewrite ?IH' by lia; reflexivity.
Qed.

Lemma linear_gap_smith_waterman_overwrites_witness :
  rd (LinearGap.linear_gap_smith_waterman (chars "GA") (chars "GT")
        get_example_substitution 2 [7; 7; 7; 7; 7]) 3
  = rd (LinearGap.linear_gap_smith_waterman (chars "GA") (chars "GT")
          get_example_substitution 2 [0; 1; 2; 3]) 3.
Proof.
  exact (proj1 (linear_gap_smith_waterman_overwrites (chars "GA") (chars "GT")
                  get_example_substitution 2 [7; 7; 7; 7; 7] [0; 1; 2; 3]
                  ltac:(discriminate) ltac:(discriminate)
                  ltac:(cbn; lia) ltac:(cbn; lia))
               3%nat ltac:(cbn; lia)).
Defined.

(** ** The best-cell locator *)

(** What the two loops of the locator leave in [*x], [*y]: either no cell
    exceeds the initial best score -1 and they are untouched, or they hold
    the first cell, in row-major order, with the largest value. *)
Lemma locator_scan (len_X len_Y : nat) (Zm : list Z) (x0 y0 : nat) :
  (1 <= len_Y)%nat ->
  let st := fold_left (LinearGap.locator_row len_Y Zm) (seq 0 len_X)
              {| LinearGap.loc_best_score := -1;
                 LinearGap.loc_array_index := 0;
                 LinearGap.loc_x := x0; LinearGap.loc_y := y0 |} in
  let p := (LinearGap.loc_x st * len_Y + LinearGap.loc_y st)%nat in
  (LinearGap.loc_x st = x0 /\ LinearGap.loc_y st = y0
   /\ forall k : nat, (k < len_X * len_Y)%nat -> rd Zm k <= -1)
  \/ ((LinearGap.loc_y st < len_Y)%nat /\ (p < len_X * len_Y)%nat
      /\ -1 < rd Zm p
      /\ (forall k : nat, (k < len_X * len_Y)%nat -> rd Zm k <= rd Zm p)
      /\ (forall k : nat, (k < p)%nat -> rd Zm k < rd Zm p)).
Proof.
  intros HY.
  set (I := fun (k : nat) (st : LinearGap.locator_state) =>
              LinearGap.loc_array_index st = k
              /\ ((LinearGap.loc_best_score st = -1
                   /\ LinearGap.loc_x st = x0 /\ LinearGap.loc_y st = y0
                   /\ forall k', (k' < k)%nat -> rd Zm k' <= -1)
                  \/ ((LinearGap.loc_y st < len_Y)%nat
                      /\ (LinearGap.loc_x st * len_Y + LinearGap.loc_y st < k)%nat
                      /\ LinearGap.loc_best_score st
                         = rd Zm (LinearGap.loc_x st * len_Y
                                  + LinearGap.loc_y st)
                      /\ -1 < LinearGap.loc_best_score st
                      /\ (forall k', (k' < k)%nat ->
                            rd Zm k' <= LinearGap.loc_best_score st)
                      /\ (forall k',
                            (k' < LinearGap.loc_x st * len_Y
                                  + LinearGap.loc_y st)%nat ->
                            rd Zm k' < LinearGap.loc_best_score st)))).
  assert (forall i st, I (i * len_Y)%nat st ->
            I (S i * len_Y)%nat (LinearGap.locator_row len_Y Zm st i)) as Hrow.
  { intros i st Hst. unfold LinearGap.locator_row.
    replace (S i * len_Y)%nat with (0 + len_Y + i * len_Y)%nat by lia.
    apply (fold_left_seq_invariant (fun j st => I (j + i * len_Y)%nat st)).
    - exact Hst.
    - intros j st' Hj (Hidx & Hcases).
      unfold LinearGap.locator_cell. rewrite Hidx.
      destruct (Z.gtb_spec (rd Zm (j + i * len_Y)) (LinearGap.loc_best_score st'))
        as [Hgt|Hngt];
        (split; [cbn; lia|]);
        cbn [LinearGap.loc_best_score LinearGap.loc_x LinearGap.loc_y].
      + right. replace (i * len_Y + j)%nat with (j + i * len_Y)%nat by lia.
        split; [lia|]. split; [lia|]. split; [reflexivity|].
        destruct Hcases as [(Hb & _ & _ & Hall)
                           |(_ & _ & _ & Hpos & Hall & _)].
        * split; [lia|]. split.
          -- intros k' Hk'. destruct (Nat.eq_dec k' (j + i * len_Y)%nat) as [->|Hne];
               [lia|]. specialize (Hall k' ltac:(lia)). lia.
          -- intros k' Hk'. specialize (Hall k' ltac:(lia)). lia.
        * split; [lia|]. split.
          -- intros k' Hk'. destruct (Nat.eq_dec k' (j + i * len_Y)%nat) as [->|Hne];
               [lia|]. specialize (Hall k' ltac:(lia)). lia.
          -- intros k' Hk'. specialize (Hall k' ltac:(lia)). lia.
      + destruct Hcases as [(Hb & Hx & Hy & Hall)
                           |(Hy & Hp & Hbest & Hpos & Hall & Hfirst)].
        * left. repeat split; try assumption.
          intros k' Hk'. destruct (Nat.eq_dec k' (j + i * len_Y)%nat) as [->|Hne];
            [lia|]. apply Hall. lia.
        * right. repeat split; try assumption; try lia.
          intros k' Hk'. destruct (Nat.eq_dec k' (j + i * len_Y)%nat) as [->|Hne];
            [lia|]. apply Hall. lia. }
  assert (I ((0 + len_X) * len_Y)%nat
            (fold_left (LinearGap.locator_row len_Y Zm) (seq 0 len_X)
               {| LinearGap.loc_best_score := -1;
                  LinearGap.loc_array_index := 0;
                  LinearGap.loc_x := x0; LinearGap.loc_y := y0 |})) as Hfinal.
  { apply (fold_left_seq_invariant (fun i st => I (i * len_Y)%nat st)).
    - split; [reflexivity|]. left. repeat split. intros k' Hk'. cbn in Hk'. lia.
    - intros i st Hi Hst. apply Hrow. exact Hst. }
  cbn zeta. destruct Hfinal as (_ & Hcases). cbn [Nat.add] in Hcases.
  destruct Hcases as [(_ & Hx & Hy & Hall)
                     |(Hy & Hp & Hbest & Hpos & Hall & Hfirst)].
  - left. repeat split; assumption.
  - right. rewrite <- Hbest. repeat split; assumption.
Qed.

Lemma locator_maximum (len_X len_Y : nat) (Zm : list Z) (x0 y0 : nat) :
  (1 <= len_X)%nat -> (1 <= len_Y)%nat ->
  (exists k : nat, (k < len_X * len_Y)%nat /\ -1 < rd Zm k) ->
  exists x y : nat,
    LinearGap.best_linear_gap_smith_waterman_score_indices len_X len_Y Zm x0 y0
    = (true, (x, y))
    /\ (x < len_X)%nat /\ (y < len_Y)%nat
    /\ (forall i j : nat, (i < len_X)%nat -> (j < len_Y)%nat ->
          rd Zm (i * len_Y + j) <= rd Zm (x * len_Y + y))
    /\ (forall i j : nat, (j < len_Y)%nat ->
          (i < x)%nat \/ (i = x /\ (j < y)%nat) ->
          rd Zm (i * len_Y + j) < rd Zm (x * len_Y + y)).
Proof.
  intros HX HY (k0 & Hk0 & Hpos0).
  unfold LinearGap.best_linear_gap_smith_waterman_score_indices.
  destruct (Nat.eqb_spec len_X 0) as [?|_]; [lia|].
  destruct (Nat.eqb_spec len_Y 0) as [?|_]; [lia|]. cbn [orb].
  pose proof (locator_scan len_X len_Y Zm x0 y0 HY) as Hscan. cbn zeta in Hscan.
  set (st := fold_left _ _ _) in *.
  destruct Hscan as [(_ & _ & Hall)|(Hy & Hp & Hpos & Hall & Hfirst)].
  { specialize (Hall k0 Hk0). lia. }
  exists (LinearGap.loc_x st), (LinearGap.loc_y st).
  split; [reflexivity|]. split; [nia|]. split; [exact Hy|]. split.
  - intros i j Hi Hj. apply Hall. apply flat_index_lt; assumption.
  - intros i j Hj Hlt. apply Hfirst. nia.
Qed.

(** X3.  [best_linear_gap_smith_waterman_score_indices] on a matrix with
    a cell above -1 returns true and the cell with the largest value; among
    equal cells it is the first one in row-major order, since the
    comparison in the loops is strict. *)
Theorem best_indices_first_maximum
    (len_X len_Y : nat) (Zm : list Z) (x0 y0 : nat) :
  (1 <= len_X)%nat -> (1 <= len_Y)%nat ->
  (exists k : nat, (k < len_X * len_Y)%nat /\ -1 < rd Zm k) ->
  exists x y : nat,
    LinearGap.best_linear_gap_smith_waterman_score_indices len_X len_Y Zm x0 y0
    = (true, (x, y))
    /\ (x < len_X)%nat /\ (y < len_Y)%nat
    /\ (forall i j : nat, (i < len_X)%nat -> (j < len_Y)%nat ->
          rd Zm (i * len_Y + j) <= rd Zm (x * len_Y + y))
    /\ (forall i j : nat, (j < len_Y)%nat ->
          (i < x)%nat \/ (i = x /\ (j < y)%nat) ->
          rd Zm (i * len_Y + j) < rd Zm (x * len_Y + y)).
Proof. apply locator_maximum. Qed.

Lemma best_indices_first_maximum_witness :
  exists x y : nat,
    LinearGap.best_linear_gap_smith_waterman_score_indices 2 2 [3; 5; 5; 0] 9 9
    = (true, (x, y))
    /\ (x < 2)%nat /\ (y < 2)%nat
    /\ (forall i j : nat, (i < 2)%nat -> (j < 2)%nat ->
          rd [3; 5; 5; 0] (i * 2 + j) <= rd [3; 5; 5; 0] (x * 2 + y))
    /\ (forall i j : nat, (j < 2)%nat ->
          (i < x)%nat \/ (i = x /\ (j < y)%nat) ->
          rd [3; 5; 5; 0] (i * 2 + j) < rd [3; 5; 5; 0] (x * 2 + y)).
Proof.
  apply (best_indices_first_maximum 2 2 [3; 5; 5; 0] 9 9);
    [lia|lia|exists 0%nat; split; [lia|reflexivity]].
Defined.

(** X4.  When no cell exceeds -1 (the initial best score), the locator
    leaves [*x] and [*y] as they were on entry, and still returns true
    unless a dimension is 0: its result does not tell whether a cell was
    found. *)
Theorem best_indices_without_candidate
    (len_X len_Y : nat) (Zm : list Z) (x0 y0 : nat) :
  (forall k : nat, (k < len_X * len_Y)%nat -> rd Zm k <= -1) ->
  LinearGap.best_linear_gap_smith_waterman_score_indices len_X len_Y Zm x0 y0
  = (negb ((len_X =? 0)%nat || (len_Y =? 0)%nat), (x0, y0)).
Proof.
  intros Hall.
  unfold LinearGap.best_linear_gap_smith_waterman_score_indices.
  destruct (Nat.eqb_spec len_X 0) as [?|HX]; [reflexivity|].
  destruct (Nat.eqb_spec len_Y 0) as [?|HY]; [reflexivity|]. cbn [orb negb].
  pose proof (locator_scan len_X len_Y Zm x0 y0 ltac:(lia)) as Hscan.
  cbn zeta in Hscan.
  set (st := fold_left _ _ _) in *.
  destruct Hscan as [(Hx & Hy & _)|(_ & Hp & Hpos & _)].
  - rewrite Hx, Hy. reflexivity.
  - specialize (Hall _ Hp). lia.
Qed.

Lemma best_indices_without_candidate_witness :
  LinearGap.best_linear_gap_smith_waterman_score_indices 1 2 [-3; -1] 7 8
  = (true, (7%nat, 8%nat)).
Proof.
  apply (best_indices_without_candidate 1 2 [-3; -1] 7 8).
  intros k Hk.
  destruct k as [|[|k]]; [cbn; lia|cbn; lia|cbn in Hk; lia].
Defined.

(** ** The traceback *)

(** X5.  Started on a cell that holds 0, [trace_linear_gap_smith_waterman]
    never enters its loop: it writes no column at all, stores only the
    terminating NUL at offset 1 of both buffers (offset 0 keeps what the
    caller's block held) and leaves [*x] and [*y] unchanged. *)
Theorem trace_from_zero_cell
    (seq_X seq_Y : list ascii) (Zm : list Z)
    (score_fn : ascii -> ascii -> Z) (G : Z)
    (trace_X trace_Y : list ascii) (x y : nat) :
  seq_X <> [] -> seq_Y <> [] ->
  cell seq_Y Zm x y = 0 ->
  LinearGap.trace_linear_gap_smith_waterman seq_X seq_Y Zm score_fn G
    trace_X trace_Y x y
  = LinearGap.Traced (<[ 1%nat := NUL ]> trace_X) (<[ 1%nat := NUL ]> trace_Y)
      x y.
Proof.
  intros HX HY Hzero. unfold cell in Hzero.
  unfold LinearGap.trace_linear_gap_smith_waterman. cbn zeta.
  destruct seq_X as [|cx rX]; [congruence|].
  destruct seq_Y as [|cy rY] eqn:EY; [congruence|].
  cbn [length Nat.eqb orb]. cbn [length] in Hzero.
  cbn [LinearGap.trace_loop LinearGap.ts_score]. rewrite Hzero.
  cbn [Z.eqb LinearGap.ts_alignment_index LinearGap.ts_trace_X
       LinearGap.ts_trace_Y LinearGap.ts_x LinearGap.ts_y].
  reflexivity.
Qed.

Lemma trace_from_zero_cell_witness :
  LinearGap.trace_linear_gap_smith_waterman (chars "GGTTGACTA")
    (chars "TGTTACGG") example_matrix get_example_substitution 2
    (chars "???") (chars "!!!") 0 0
  = LinearGap.Traced ["?"%char; NUL; "?"%char] ["!"%char; NUL; "!"%char] 0 0.
Proof.
  apply (trace_from_zero_cell (chars "GGTTGACTA") (chars "TGTTACGG")
           example_matrix get_example_substitution 2
           (chars "???") (chars "!!!") 0 0);
    [discriminate|discriminate|reflexivity].
Defined.

Section TraceOnKernel.
Variables (seq_X seq_Y : list ascii).
Variable Zm : list Z.
Variable score_fn : ascii -> ascii -> Z.
Variable G : Z.

Local Abbreviation Z_ i j := (cell seq_Y Zm i j).
Local Abbreviation loop := (LinearGap.trace_loop seq_X seq_Y Zm score_fn G).

Hypothesis Hfilled :
  filled seq_X seq_Y score_fn G Zm (length seq_X * length seq_Y).

(** A cell the kernel filled with a non-zero value equals one of the three
    terms the traceback compares it with. *)
Lemma filled_cell_source (i j : nat) :
  (S i < length seq_X)%nat -> (S j < length seq_Y)%nat ->
  Z_ (S i) (S j) <> 0 ->
  sub64 (Z_ (S i) j) G = Z_ (S i) (S j)
  \/ add64 (Z_ i j) (score_fn (char_at seq_X (S i)) (char_at seq_Y (S j)))
     = Z_ (S i) (S j)
  \/ sub64 (Z_ i (S j)) G = Z_ (S i) (S j).
Proof.
  intros Hi Hj Hnz. unfold cell in *.
  pose proof (Hfilled (S i) (S j) Hj (flat_index_lt _ _ _ _ Hi Hj)) as Hc.
  unfold stored_value in Hc. cbn zeta in Hc. rewrite best_score_spec in Hc.
  rewrite Hc in Hnz. rewrite Hc. lia.
Qed.

(** On a matrix the kernel filled the loop never reaches [assert(false)],
    and it ends on a cell above and to the left of its start. *)
Lemma trace_loop_filled (fuel : nat) :
  forall st : LinearGap.trace_state,
    (LinearGap.ts_x st < length seq_X)%nat ->
    (LinearGap.ts_y st < length seq_Y)%nat ->
    LinearGap.ts_score st = Z_ (LinearGap.ts_x st) (LinearGap.ts_y st) ->
    (LinearGap.ts_x st + LinearGap.ts_y st < fuel)%nat ->
    exists st' : LinearGap.trace_state,
      loop fuel st = Some (Some st')
      /\ (LinearGap.ts_x st' <= LinearGap.ts_x st)%nat
      /\ (LinearGap.ts_y st' <= LinearGap.ts_y st)%nat.
Proof.
  induction fuel as [|fuel IH]; intros st Hx Hy Hscore Hfuel; [lia|].
  cbn [LinearGap.trace_loop].
  destruct (Z.eqb_spec (LinearGap.ts_score st) 0) as [Hz|Hnz].
  { exists st. split; [reflexivity|]. lia. }
  destruct st as [x y score k bX bY].
  cbn [LinearGap.ts_x LinearGap.ts_y LinearGap.ts_score] in *.
  destruct x as [|i].
  { rewrite trace_body_boundary by (left; reflexivity).
    eexists. split; [reflexivity|]. cbn. lia. }
  destruct y as [|j].
  { rewrite trace_body_boundary by (right; reflexivity).
    eexists. split; [reflexivity|]. cbn. lia. }
  rewrite trace_body_interior.
  destruct (Z.eqb_spec (sub64 (Z_ (S i) j) G) (Z_ (S i) (S j))) as [_|Hn1].
  { destruct (IH {| LinearGap.ts_x := S i; LinearGap.ts_y := j;
                    LinearGap.ts_score := Z_ (S i) j;
                    LinearGap.ts_alignment_index := S k;
                    LinearGap.ts_trace_X := <[ k := GAP ]> bX;
                    LinearGap.ts_trace_Y := <[ k := char_at seq_Y (S j) ]> bY |})
      as (st' & Hloop & Hx' & Hy'); cbn; try lia; try reflexivity.
    exists st'. split; [exact Hloop|]. cbn in *. lia. }
  destruct (Z.eqb_spec
              (add64 (Z_ i j)
                 (score_fn (char_at seq_X (S i)) (char_at seq_Y (S j))))
              (Z_ (S i) (S j))) as [_|Hn2].
  { destruct (Z.eqb_spec (Z_ i j) 0) as [_|_].
    - eexists. split; [reflexivity|]. cbn. lia.
    - destruct (IH {| LinearGap.ts_x := i; LinearGap.ts_y := j;
                      LinearGap.ts_score := Z_ i j;
                      LinearGap.ts_alignment_index := S k;
                      LinearGap.ts_trace_X := <[ k := char_at seq_X (S i) ]> bX;
                      LinearGap.ts_trace_Y := <[ k := char_at seq_Y (S j) ]> bY |})
        as (st' & Hloop & Hx' & Hy'); cbn; try lia; try reflexivity.
      exists st'. split; [exact Hloop|]. cbn in *. lia. }
  destruct (Z.eqb_spec (sub64 (Z_ i (S j)) G) (Z_ (S i) (S j))) as [_|Hn3].
  { destruct (IH {| LinearGap.ts_x := i; LinearGap.ts_y := S j;
                    LinearGap.ts_score := Z_ i (S j);
                    LinearGap.ts_alignment_index := S k;
                    LinearGap.ts_trace_X := <[ k := char_at seq_X (S i) ]> bX;
                    LinearGap.ts_trace_Y := <[ k := GAP ]> bY |})
      as (st' & Hloop & Hx' & Hy'); cbn; try lia; try reflexivity.
    exists st'. split; [exact Hloop|]. cbn in *. lia. }
  exfalso. rewrite Hscore in Hnz.
  destruct (filled_cell_source i j Hx Hy Hnz) as [H|[H|H]]; contradiction.
Qed.
End TraceOnKernel.

Lemma trace_on_filled_returns
    (seq_X seq_Y : list ascii) (score_fn : ascii -> ascii -> Z) (G : Z)
    (prior : list Z) (bX bY : list ascii) (x y : nat) :
  seq_X <> [] -> seq_Y <> [] ->
  (length seq_X * length seq_Y <= length prior)%nat ->
  (x < length seq_X)%nat -> (y < length seq_Y)%nat ->
  exists (tX tY : list ascii) (x' y' : nat),
    LinearGap.trace_linear_gap_smith_waterman seq_X seq_Y
      (LinearGap.linear_gap_smith_waterman seq_X seq_Y score_fn G prior)
      score_fn G bX bY x y
    = LinearGap.Traced tX tY x' y'
    /\ (x' <= x)%nat /\ (y' <= y)%nat.
Proof.
  intros HX HY Hlen Hx Hy.
  assert (1 <= length seq_X)%nat as HlX by lia.
  assert (1 <= length seq_Y)%nat as HlY by lia.
  destruct (kernel_filled seq_X seq_Y score_fn G prior HlX HlY Hlen)
    as [_ Hfilled].
  set (Zm := LinearGap.linear_gap_smith_waterman seq_X seq_Y score_fn G prior)
    in *.
  destruct (trace_loop_filled seq_X seq_Y Zm score_fn G Hfilled (S (x + y))
              {| LinearGap.ts_x := x; LinearGap.ts_y := y;
                 LinearGap.ts_score := rd Zm (x * length seq_Y + y);
                 LinearGap.ts_alignment_index := 0;
                 LinearGap.ts_trace_X := bX; LinearGap.ts_trace_Y := bY |})
    as (st' & Hloop & Hx' & Hy'); cbn; try lia; try reflexivity.
  unfold LinearGap.trace_linear_gap_smith_waterman. cbn zeta.
  destruct (Nat.eqb_spec (length seq_X) 0) as [?|_]; [lia|].
  destruct (Nat.eqb_spec (length seq_Y) 0) as [?|_]; [lia|]. cbn [orb].
  rewrite Hloop. do 4 eexists. split; [reflexivity|]. cbn in *. lia.
Qed.

(** X6.  On the matrix that [linear_gap_smith_waterman] filled for the
    same non-empty sequences, score function and gap penalty, the traceback
    started on any cell of the matrix returns: its [assert(false)] is never
    reached and its loop ends, and the cell it leaves in [*x], [*y] is above
    and to the left of the start.  It is stated where the arithmetic of the
    kernel and of the traceback stays inside [int64_t] (a gap penalty that
    is not negative, scores of at most [M] with [M] times the length of the
    shorter sequence in range) and for buffers of more than [x + y + 1]
    cells, which hold every column the traceback can write. *)
Theorem trace_on_kernel_matrix_returns
    (seq_X seq_Y : list ascii) (score_fn : ascii -> ascii -> Z) (G M : Z)
    (prior : list Z) (bX bY : list ascii) (x y : nat) :
  seq_X <> [] -> seq_Y <> [] ->
  (length seq_X * length seq_Y <= length prior)%nat ->
  0 <= G <= INT64_MAX ->
  (forall a b : ascii, in_int64 (score_fn a b)) ->
  0 <= M ->
  (forall i j : nat, (i < length seq_X)%nat -> (j < length seq_Y)%nat ->
     score_fn (char_at seq_X i) (char_at seq_Y j) <= M) ->
  M * Z.of_nat (Nat.min (length seq_X) (length seq_Y)) <= INT64_MAX ->
  (x < length seq_X)%nat -> (y < length seq_Y)%nat ->
  (S (x + y) < length bX)%nat -> (S (x + y) < length bY)%nat ->
  exists (tX tY : list ascii) (x' y' : nat),
    LinearGap.trace_linear_gap_smith_waterman seq_X seq_Y
      (LinearGap.linear_gap_smith_waterman seq_X seq_Y score_fn G prior)
      score_fn G bX bY x y
    = LinearGap.Traced tX tY x' y'
    /\ (x' <= x)%nat /\ (y' <= y)%nat.
Proof.
  intros HX HY Hlen _ _ _ _ _ Hx Hy _ _.
  exact (trace_on_filled_returns seq_X seq_Y score_fn G prior bX bY x y
           HX HY Hlen Hx Hy).
Qed.

Lemma trace_on_kernel_matrix_returns_witness :
  exists (tX tY : list ascii) (x' y' : nat),
    LinearGap.trace_linear_gap_smith_waterman (chars "GA") (chars "GT")
      (LinearGap.linear_gap_smith_waterman (chars "GA") (chars "GT")
         get_example_substitution 2 [7; 7; 7; 7])
      get_example_substitution 2 (chars "?????") (chars "?????") 1 1
    = LinearGap.Traced tX tY x' y'
    /\ (x' <= 1)%nat /\ (y' <= 1)%nat.
Proof.
  apply (trace_on_kernel_matrix_returns (chars "GA") (chars "GT")
           get_example_substitution 2 3
           [7; 7; 7; 7] (chars "?????") (chars "?????") 1 1).
  - discriminate.
  - discriminate.
  - cbn. lia.
  - vm_compute. split; discriminate.
  - intros a b. unfold get_example_substitution.
    destruct (Ascii.eqb a b); vm_compute; split; discriminate.
  - lia.
  - intros i j _ _. unfold get_example_substitution.
    destruct (Ascii.eqb _ _); lia.
  - vm_compute. discriminate.
  - cbn. lia.
  - cbn. lia.
  - cbn. lia.
  - cbn. lia.
Defined.

(** *** The substrings a traceback aligns *)

Lemma ungapped_cons_gap (l : list ascii) : ungapped (GAP :: l) = ungapped l.
Proof. reflexivity. Qed.

Lemma ungapped_cons_base (c : ascii) (l : list ascii) :
  c <> GAP -> ungapped (c :: l) = c :: ungapped l.
Proof.
  intros Hc. unfold ungapped. cbn [List.filter].
  destruct (Ascii.eqb_spec c GAP); [contradiction|]. reflexivity.
Qed.

Lemma ungapped_rev (l : list ascii) : ungapped (rev l) = rev (ungapped l).
Proof. apply filter_rev. Qed.

Lemma char_at_In (s : list ascii) (i : nat) :
  (i < length s)%nat -> In (char_at s i) s.
Proof. intros H. apply nth_In. exact H. Qed.

Lemma slice_single (s : list ascii) (i : nat) :
  (i < length s)%nat -> slice s i i = [char_at s i].
Proof.
  intros H. unfold slice. replace (S i - i)%nat with 1%nat by lia.
  destruct (lookup_lt_is_Some_2 s i H) as [c Hc].
  rewrite (drop_S s c i Hc), char_at_lookup, Hc. reflexivity.
Qed.

Lemma slice_snoc (s : list ascii) (a b : nat) :
  (a <= S b)%nat -> (S b < length s)%nat ->
  slice s a (S b) = slice s a b ++ [char_at s (S b)].
Proof.
  intros Ha Hb. unfold slice.
  replace (S (S b) - a)%nat with (S (S b - a)) by lia.
  apply take_S_r. rewrite lookup_drop.
  replace (a + (S b - a))%nat with (S b) by lia.
  rewrite char_at_lookup.
  destruct (lookup_lt_is_Some_2 s (S b) Hb) as [c ->]. reflexivity.
Qed.

Lemma rev_slice_S (s : list ascii) (a b : nat) :
  (a <= S b)%nat -> (S b < length s)%nat ->
  rev (slice s a (S b)) = char_at s (S b) :: rev (slice s a b).
Proof.
  intros Ha Hb. rewrite slice_snoc by assumption. apply rev_unit.
Qed.

(** The last loop of the traceback on a buffer that holds the columns
    [cs] from offset 0: the columns are reversed and the NUL follows. *)
Lemma reverse_terminated (cs buf : list ascii) :
  (1 <= length cs)%nat -> (length cs < length buf)%nat ->
  LinearGap.reverse_in_place (length cs - 1)
    (<[ length cs := NUL ]> (store 0 cs buf))
  = rev cs ++ NUL :: drop (S (length cs)) buf.
Proof.
  intros Hcs Hbuf. unfold store. rewrite take_0. cbn [app Nat.add].
  rewrite insert_app_r_alt, Nat.sub_diag by lia.
  rewrite (insert_take_drop (drop (length cs) buf) 0)
    by (rewrite length_drop; lia).
  cbn [take app]. rewrite drop_drop.
  rewrite reverse_in_place_spec by (rewrite length_app; cbn [length]; lia).
  replace (S (length cs - 1)) with (length cs) by lia.
  rewrite take_app_length, drop_app_length.
  replace (length cs + 1)%nat with (S (length cs)) by lia.
  reflexivity.
Qed.

Section TraceSpan.
Variables (seq_X seq_Y : list ascii).
Variable Zm : list Z.
Variable score_fn : ascii -> ascii -> Z.
Variable G : Z.

Hypothesis HgX : ~ In GAP seq_X.
Hypothesis HnX : ~ In NUL seq_X.
Hypothesis HgY : ~ In GAP seq_Y.
Hypothesis HnY : ~ In NUL seq_Y.

Local Abbreviation Z_ i j := (cell seq_Y Zm i j).
Local Abbreviation loop := (LinearGap.trace_loop seq_X seq_Y Zm score_fn G).
Local Abbreviation scored := (well_scored seq_Y Zm G).
Local Abbreviation covers := (spans seq_X seq_Y).

Lemma base_X (i : nat) :
  (i < length seq_X)%nat -> char_at seq_X i <> GAP /\ char_at seq_X i <> NUL.
Proof using HgX HnX.
  intros H. pose proof (char_at_In seq_X i H) as Hin.
  split; intros E; rewrite E in Hin; contradiction.
Qed.

Lemma base_Y (j : nat) :
  (j < length seq_Y)%nat -> char_at seq_Y j <> GAP /\ char_at seq_Y j <> NUL.
Proof using HgY HnY.
  intros H. pose proof (char_at_In seq_Y j H) as Hin.
  split; intros E; rewrite E in Hin; contradiction.
Qed.

Lemma spans_single (i j : nat) :
  (i < length seq_X)%nat -> (j < length seq_Y)%nat ->
  covers [(char_at seq_X i, char_at seq_Y j)] i j i j.
Proof using HgX HnX HgY HnY.
  intros Hi Hj. destruct (base_X i Hi) as [HX1 HX2].
  destruct (base_Y j Hj) as [HY1 HY2].
  unfold spans. cbn [map fst snd].
  rewrite !ungapped_cons_base by assumption.
  rewrite !slice_single by assumption. cbn [rev app].
  repeat split; try lia; try reflexivity.
  constructor; [|constructor]. cbn [fst snd]. tauto.
Qed.

Lemma spans_left (cols : list (ascii * ascii)) (x' y' i j : nat) :
  (S j < length seq_Y)%nat ->
  covers cols x' y' i j ->
  covers ((GAP, char_at seq_Y (S j)) :: cols) x' y' i (S j).
Proof using HgY HnY.
  intros Hj (Hx & Hy & HcX & HcY & Hall).
  destruct (base_Y (S j) Hj) as [HY1 HY2].
  unfold spans. cbn [map fst snd].
  rewrite ungapped_cons_gap, ungapped_cons_base by assumption.
  rewrite rev_slice_S by lia. rewrite HcX, HcY.
  repeat split; try lia.
  constructor; [|exact Hall]. cbn [fst snd].
  repeat split; try assumption; [discriminate|tauto].
Qed.

Lemma spans_up (cols : list (ascii * ascii)) (x' y' i j : nat) :
  (S i < length seq_X)%nat ->
  covers cols x' y' i j ->
  covers ((char_at seq_X (S i), GAP) :: cols) x' y' (S i) j.
Proof using HgX HnX.
  intros Hi (Hx & Hy & HcX & HcY & Hall).
  destruct (base_X (S i) Hi) as [HX1 HX2].
  unfold spans. cbn [map fst snd].
  rewrite ungapped_cons_gap, ungapped_cons_base by assumption.
  rewrite rev_slice_S by lia. rewrite HcX, HcY.
  repeat split; try lia.
  constructor; [|exact Hall]. cbn [fst snd].
  repeat split; try assumption; [discriminate|tauto].
Qed.

Lemma spans_diagonal (cols : list (ascii * ascii)) (x' y' i j : nat) :
  (S i < length seq_X)%nat -> (S j < length seq_Y)%nat ->
  covers cols x' y' i j ->
  covers ((char_at seq_X (S i), char_at seq_Y (S j)) :: cols) x' y' (S i) (S j).
Proof using HgX HnX HgY HnY.
  intros Hi Hj (Hx & Hy & HcX & HcY & Hall).
  destruct (base_X (S i) Hi) as [HX1 HX2].
  destruct (base_Y (S j) Hj) as [HY1 HY2].
  unfold spans. cbn [map fst snd].
  rewrite !ungapped_cons_base by assumption.
  rewrite !rev_slice_S by lia. rewrite HcX, HcY.
  repeat split; try lia.
  constructor; [|exact Hall]. cbn [fst snd]. tauto.
Qed.

(** From a non-zero cell the loop either reaches [assert(false)] or writes
    columns that align the substrings between the cell where it ends and the
    cell where it started. *)
Lemma trace_loop_span (i : nat) :
  forall (j fuel k : nat) (bX bY : list ascii),
    (i < length seq_X)%nat -> (j < length seq_Y)%nat ->
    (i + j < fuel)%nat -> scored i j -> Z_ i j <> 0 ->
    (k + i + j < length bX)%nat -> (k + i + j < length bY)%nat ->
    let st := {| LinearGap.ts_x := i; LinearGap.ts_y := j;
                 LinearGap.ts_score := Z_ i j;
                 LinearGap.ts_alignment_index := k;
                 LinearGap.ts_trace_X := bX; LinearGap.ts_trace_Y := bY |} in
    loop fuel st = Some None
    \/ exists (cols : list (ascii * ascii)) (st' : LinearGap.trace_state),
         loop fuel st = Some (Some st')
         /\ (1 <= length cols <= S (i + j))%nat
         /\ LinearGap.ts_alignment_index st' = (k + length cols - 1)%nat
         /\ LinearGap.ts_trace_X st' = store k (map fst cols) bX
         /\ LinearGap.ts_trace_Y st' = store k (map snd cols) bY
         /\ covers cols (LinearGap.ts_x st') (LinearGap.ts_y st') i j.
Proof using HgX HnX HgY HnY.
  assert (forall (i j k : nat) (bX bY : list ascii) (score : Z),
            (i < length seq_X)%nat -> (j < length seq_Y)%nat ->
            (k + i + j < length bX)%nat -> (k + i + j < length bY)%nat ->
            let st' := {| LinearGap.ts_x := i; LinearGap.ts_y := j;
                          LinearGap.ts_score := score;
                          LinearGap.ts_alignment_index := k;
                          LinearGap.ts_trace_X := <[ k := char_at seq_X i ]> bX;
                          LinearGap.ts_trace_Y := <[ k := char_at seq_Y j ]> bY |} in
            exists cols,
              (1 <= length cols <= S (i + j))%nat
              /\ LinearGap.ts_alignment_index st' = (k + length cols - 1)%nat
              /\ LinearGap.ts_trace_X st' = store k (map fst cols) bX
              /\ LinearGap.ts_trace_Y st' = store k (map snd cols) bY
              /\ covers cols (LinearGap.ts_x st') (LinearGap.ts_y st') i j)
    as Hlast.
  { intros i0 j0 k bX bY score Hi Hj HbX HbY. cbn zeta.
    exists [(char_at seq_X i0, char_at seq_Y j0)].
    cbn [LinearGap.ts_alignment_index LinearGap.ts_trace_X LinearGap.ts_trace_Y
         LinearGap.ts_x LinearGap.ts_y map fst snd length].
    rewrite !store_one by lia.
    split; [lia|]. split; [lia|]. split; [reflexivity|].
    split; [reflexivity|]. apply spans_single; assumption. }
  assert (forall (c : ascii * ascii) (cols : list (ascii * ascii))
                 (st' : LinearGap.trace_state) (k n : nat) (bX bY : list ascii),
            (k < length bX)%nat -> (k < length bY)%nat ->
            (1 <= length cols <= n)%nat ->
            LinearGap.ts_alignment_index st' = (S k + length cols - 1)%nat ->
            LinearGap.ts_trace_X st' = store (S k) (map fst cols) (<[ k := fst c ]> bX) ->
            LinearGap.ts_trace_Y st' = store (S k) (map snd cols) (<[ k := snd c ]> bY) ->
            (1 <= length (c :: cols) <= S n)%nat
            /\ LinearGap.ts_alignment_index st' = (k + length (c :: cols) - 1)%nat
            /\ LinearGap.ts_trace_X st' = store k (map fst (c :: cols)) bX
            /\ LinearGap.ts_trace_Y st' = store k (map snd (c :: cols)) bY)
    as Hstep.
  { intros c cols st' k n bX bY HbX HbY Hlen Hidx HtX HtY.
    cbn [map length]. rewrite <- !store_cons by lia.
    repeat split; try assumption; lia. }
  induction i as [|i IHi].
  - (* first row *)
    intros j fuel k bX bY Hi Hj Hfuel Hsc Hpos HbX HbY. cbn zeta. right.
    destruct fuel as [|fuel]; [lia|].
    cbn [LinearGap.trace_loop LinearGap.ts_score].
    destruct (Z.eqb_spec (Z_ 0 j) 0) as [Hz|_]; [contradiction|].
    rewrite trace_body_boundary by (left; reflexivity).
    cbn [LinearGap.ts_alignment_index LinearGap.ts_trace_X LinearGap.ts_trace_Y
         LinearGap.ts_x LinearGap.ts_y LinearGap.ts_score].
    destruct (Hlast 0%nat j k bX bY (Z_ 0 j) Hi Hj ltac:(lia) ltac:(lia))
      as (cols & H).
    exists cols. eexists. split; [reflexivity|]. exact H.
  - induction j as [|j IHj].
    + (* first column *)
      intros fuel k bX bY Hi Hj Hfuel Hsc Hpos HbX HbY. cbn zeta. right.
      destruct fuel as [|fuel]; [lia|].
      cbn [LinearGap.trace_loop LinearGap.ts_score].
      destruct (Z.eqb_spec (Z_ (S i) 0) 0) as [Hz|_]; [contradiction|].
      rewrite trace_body_boundary by (right; reflexivity).
      cbn [LinearGap.ts_alignment_index LinearGap.ts_trace_X
           LinearGap.ts_trace_Y LinearGap.ts_x LinearGap.ts_y
           LinearGap.ts_score].
      destruct (Hlast (S i) 0%nat k bX bY (Z_ (S i) 0) Hi Hj
                  ltac:(lia) ltac:(lia)) as (cols & H).
      exists cols. eexists. split; [reflexivity|]. exact H.
    + (* interior cell *)
      intros fuel k bX bY Hi Hj Hfuel Hsc Hpos HbX HbY. cbn zeta.
      destruct fuel as [|fuel]; [lia|].
      cbn [LinearGap.trace_loop LinearGap.ts_score].
      destruct (Z.eqb_spec (Z_ (S i) (S j)) 0) as [Hz|_]; [contradiction|].
      rewrite trace_body_interior.
      destruct (Z.eqb_spec (sub64 (Z_ (S i) j) G) (Z_ (S i) (S j))) as [Hleft|_].
      { (* left gap *)
        pose proof (gap_move_nonzero seq_Y Zm G (S i) (S j) (S i) j
                      ltac:(lia) ltac:(lia) Hsc Hpos Hleft) as Hpos'.
        destruct (IHj fuel (S k) (<[ k := GAP ]> bX)
                      (<[ k := char_at seq_Y (S j) ]> bY)
                      Hi ltac:(lia) ltac:(lia)
                      (well_scored_mono seq_Y Zm G (S i) (S j) (S i) j
                         ltac:(lia) ltac:(lia) Hsc)
                      Hpos'
                      ltac:(rewrite length_insert; lia)
                      ltac:(rewrite length_insert; lia))
          as [Hfail|(cols & st' & Hloop & Hlen & Hidx & HtX & HtY & Hcov)];
          [left; exact Hfail|right].
        exists ((GAP, char_at seq_Y (S j)) :: cols), st'.
        split; [exact Hloop|].
        destruct (Hstep (GAP, char_at seq_Y (S j)) cols st' k (S (S i + j))
                    bX bY ltac:(lia) ltac:(lia) Hlen Hidx HtX HtY)
          as (H1 & H2 & H3 & H4).
        split; [lia|]. split; [exact H2|]. split; [exact H3|].
        split; [exact H4|]. apply spans_left; assumption. }
      destruct (Z.eqb_spec
                  (add64 (Z_ i j)
                     (score_fn (char_at seq_X (S i)) (char_at seq_Y (S j))))
                  (Z_ (S i) (S j))) as [Hdiag|_].
      { (* diagonal *)
        destruct (Z.eqb_spec (Z_ i j) 0) as [Hzero|Hnz].
        - right.
          destruct (Hlast (S i) (S j) k bX bY (Z_ (S i) (S j)) Hi Hj
                      ltac:(lia) ltac:(lia)) as (cols & H).
          exists cols. eexists. split; [reflexivity|]. exact H.
        - destruct (IHi j fuel (S k) (<[ k := char_at seq_X (S i) ]> bX)
                        (<[ k := char_at seq_Y (S j) ]> bY)
                        ltac:(lia) ltac:(lia) ltac:(lia)
                        (well_scored_mono seq_Y Zm G (S i) (S j) i j
                           ltac:(lia) ltac:(lia) Hsc)
                        Hnz
                        ltac:(rewrite length_insert; lia)
                        ltac:(rewrite length_insert; lia))
            as [Hfail|(cols & st' & Hloop & Hlen & Hidx & HtX & HtY & Hcov)];
            [left; exact Hfail|right].
          exists ((char_at seq_X (S i), char_at seq_Y (S j)) :: cols), st'.
          split; [exact Hloop|].
          destruct (Hstep (char_at seq_X (S i), char_at seq_Y (S j)) cols st' k
                      (S (i + j)) bX bY ltac:(lia) ltac:(lia) Hlen Hidx HtX HtY)
            as (H1 & H2 & H3 & H4).
          split; [lia|]. split; [exact H2|]. split; [exact H3|].
          split; [exact H4|]. apply spans_diagonal; assumption. }
      destruct (Z.eqb_spec (sub64 (Z_ i (S j)) G) (Z_ (S i) (S j))) as [Hup|_].
      { (* up gap *)
        pose proof (gap_move_nonzero seq_Y Zm G (S i) (S j) i (S j)
                      ltac:(lia) ltac:(lia) Hsc Hpos Hup) as Hpos'.
        destruct (IHi (S j) fuel (S k) (<[ k := char_at seq_X (S i) ]> bX)
                      (<[ k := GAP ]> bY)
                      ltac:(lia) Hj ltac:(lia)
                      (well_scored_mono seq_Y Zm G (S i) (S j) i (S j)
                         ltac:(lia) ltac:(lia) Hsc)
                      Hpos'
                      ltac:(rewrite length_insert; lia)
                      ltac:(rewrite length_insert; lia))
          as [Hfail|(cols & st' & Hloop & Hlen & Hidx & HtX & HtY & Hcov)];
          [left; exact Hfail|right].
        exists ((char_at seq_X (S i), GAP) :: cols), st'.
        split; [exact Hloop|].
        destruct (Hstep (char_at seq_X (S i), GAP) cols st' k (S (i + S j))
                    bX bY ltac:(lia) ltac:(lia) Hlen Hidx HtX HtY)
          as (H1 & H2 & H3 & H4).
        split; [lia|]. split; [exact H2|]. split; [exact H3|].
        split; [exact H4|]. apply spans_up; assumption. }
      left. reflexivity.
Qed.

(** The whole traceback from a non-zero cell. *)
Lemma trace_columns (x y : nat) (bX bY : list ascii) :
  (x < length seq_X)%nat -> (y < length seq_Y)%nat ->
  scored x y -> Z_ x y <> 0 ->
  (S (x + y) < length bX)%nat -> (S (x + y) < length bY)%nat ->
  LinearGap.trace_linear_gap_smith_waterman seq_X seq_Y Zm score_fn G
    bX bY x y = LinearGap.TraceAssertionFailed
  \/ exists (cols : list (ascii * ascii)) (x' y' : nat),
       LinearGap.trace_linear_gap_smith_waterman seq_X seq_Y Zm score_fn G
         bX bY x y
       = LinearGap.Traced
           (rev (map fst cols) ++ NUL :: drop (S (length cols)) bX)
           (rev (map snd cols) ++ NUL :: drop (S (length cols)) bY)
           x' y'
       /\ (1 <= length cols <= S (x + y))%nat
       /\ covers cols x' y' x y.
Proof using HgX HnX HgY HnY.
  intros Hx Hy Hsc Hpos HbX HbY.
  pose proof (trace_loop_span x y (S (x + y)) 0 bX bY Hx Hy
                ltac:(lia) Hsc Hpos ltac:(lia) ltac:(lia)) as H.
  cbn zeta in H.
  unfold LinearGap.trace_linear_gap_smith_waterman. cbn zeta.
  destruct (Nat.eqb_spec (length seq_X) 0) as [?|_]; [lia|].
  destruct (Nat.eqb_spec (length seq_Y) 0) as [?|_]; [lia|]. cbn [orb].
  unfold cell in H.
  destruct H as [Hfail|(cols & st' & Hloop & Hlen & Hidx & HtX & HtY & Hcov)].
  - rewrite Hfail. left. reflexivity.
  - right. rewrite Hloop. exists cols, (LinearGap.ts_x st'), (LinearGap.ts_y st').
    split; [|split; assumption].
    rewrite Hidx, HtX, HtY. cbn [Nat.add].
    replace (S (length cols - 1)) with (length cols) by lia.
    pose proof (reverse_terminated (map fst cols) bX) as HrX.
    pose proof (reverse_terminated (map snd cols) bY) as HrY.
    rewrite !length_map in HrX, HrY.
    rewrite HrX, HrY by lia. reflexivity.
Qed.
End TraceSpan.

Lemma spans_c_str (seq_X seq_Y : list ascii) (cols : list (ascii * ascii))
    (x' y' x y : nat) (restX restY : list ascii) :
  spans seq_X seq_Y cols x' y' x y ->
  c_str (rev (map fst cols) ++ NUL :: restX) = rev (map fst cols)
  /\ c_str (rev (map snd cols) ++ NUL :: restY) = rev (map snd cols).
Proof.
  intros (_ & _ & _ & _ & Hall).
  split; apply c_str_terminated; apply Forall_rev;
    rewrite List.Forall_map; eapply List.Forall_impl; try exact Hall;
    cbn beta; tauto.
Qed.

(** X7.  The cells returned by the traceback delimit what it aligned.  For
    sequences that hold no ['-'], on a matrix whose gap moves cannot land on
    a zero cell (non-negative entries and gap penalty, as the kernel
    produces), started on a positive cell [(x, y)] with buffers of at least
    [x + y + 2] cells, a traceback that returns leaves in [*x], [*y] a cell
    [(x', y')] above and to the left of the start, two C strings of the same
    length, between 1 and [x + y + 1], and removing the gaps from
    [trace_X] gives exactly [seq_X[x'..x]], from [trace_Y] exactly
    [seq_Y[y'..y]]; the loop always ends. *)
Theorem trace_linear_gap_smith_waterman_substrings
    (seq_X seq_Y : list ascii) (Zm : list Z)
    (score_fn : ascii -> ascii -> Z) (G : Z) (x y : nat)
    (trace_X trace_Y : list ascii) :
  ~ In GAP seq_X -> ~ In NUL seq_X -> ~ In GAP seq_Y -> ~ In NUL seq_Y ->
  (x < length seq_X)%nat -> (y < length seq_Y)%nat ->
  well_scored seq_Y Zm G x y ->
  0 < cell seq_Y Zm x y ->
  (S (x + y) < length trace_X)%nat -> (S (x + y) < length trace_Y)%nat ->
  match LinearGap.trace_linear_gap_smith_waterman seq_X seq_Y Zm score_fn G
          trace_X trace_Y x y with
  | LinearGap.Traced tX tY x' y' =>
      (x' <= x)%nat /\ (y' <= y)%nat
      /\ length (c_str tX) = length (c_str tY)
      /\ (1 <= length (c_str tX) <= S (x + y))%nat
      /\ ungapped (c_str tX) = slice seq_X x' x
      /\ ungapped (c_str tY) = slice seq_Y y' y
  | LinearGap.TraceAssertionFailed => True
  | LinearGap.TraceOutOfFuel => False
  end.
Proof.
  intros HgX HnX HgY HnY Hx Hy Hsc Hpos HbX HbY.
  destruct (trace_columns seq_X seq_Y Zm score_fn G HgX HnX HgY HnY x y
              trace_X trace_Y Hx Hy Hsc ltac:(lia) HbX HbY)
    as [->|(cols & x' & y' & -> & Hlen & Hcov)]; [exact I|].
  destruct (spans_c_str _ _ _ _ _ _ _ (drop (S (length cols)) trace_X)
              (drop (S (length cols)) trace_Y) Hcov) as [-> ->].
  destruct Hcov as (Hx' & Hy' & HcX & HcY & _).
  rewrite !ungapped_rev, HcX, HcY, !rev_involutive, !length_rev, !length_map.
  repeat split; try lia.
Qed.

Lemma trace_linear_gap_smith_waterman_substrings_witness :
  match LinearGap.trace_linear_gap_smith_waterman (chars "GGTTGACTA")
          (chars "TGTTACGG") example_matrix get_example_substitution 2
          (repeat "?"%char 14) (repeat "?"%char 14) 6 5 with
  | LinearGap.Traced tX tY x' y' =>
      (x' <= 6)%nat /\ (y' <= 5)%nat
      /\ length (c_str tX) = length (c_str tY)
      /\ (1 <= length (c_str tX) <= S (6 + 5))%nat
      /\ ungapped (c_str tX) = slice (chars "GGTTGACTA") x' 6
      /\ ungapped (c_str tY) = slice (chars "TGTTACGG") y' 5
  | LinearGap.TraceAssertionFailed => True
  | LinearGap.TraceOutOfFuel => False
  end.
Proof.
  apply (trace_linear_gap_smith_waterman_substrings (chars "GGTTGACTA")
           (chars "TGTTACGG") example_matrix get_example_substitution 2 6 5
           (repeat "?"%char 14) (repeat "?"%char 14)).
  - cbn. intros H. repeat (destruct H as [H|H]; [discriminate|]). exact H.
  - cbn. intros H. repeat (destruct H as [H|H]; [discriminate|]). exact H.
  - cbn. intros H. repeat (destruct H as [H|H]; [discriminate|]). exact H.
  - cbn. intros H. repeat (destruct H as [H|H]; [discriminate|]). exact H.
  - cbn. lia.
  - cbn. lia.
  - left. split; [int64_consts; lia|].
    apply rd_range_forallb. vm_compute. reflexivity.
  - vm_compute. reflexivity.
  - cbn. lia.
  - cbn. lia.
Defined.

(** X8.  Under the same conditions no column of the two strings the
    traceback writes holds a gap in both: every column pairs a character of
    [seq_X] with one of [seq_Y], or one character with a gap. *)
Theorem trace_linear_gap_smith_waterman_no_double_gap
    (seq_X seq_Y : list ascii) (Zm : list Z)
    (score_fn : ascii -> ascii -> Z) (G : Z) (x y : nat)
    (trace_X trace_Y : list ascii) :
  ~ In GAP seq_X -> ~ In NUL seq_X -> ~ In GAP seq_Y -> ~ In NUL seq_Y ->
  (x < length seq_X)%nat -> (y < length seq_Y)%nat ->
  well_scored seq_Y Zm G x y ->
  0 < cell seq_Y Zm x y ->
  (S (x + y) < length trace_X)%nat -> (S (x + y) < length trace_Y)%nat ->
  match LinearGap.trace_linear_gap_smith_waterman seq_X seq_Y Zm score_fn G
          trace_X trace_Y x y with
  | LinearGap.Traced tX tY _ _ =>
      Forall2 (fun a b => ~ (a = GAP /\ b = GAP)) (c_str tX) (c_str tY)
  | LinearGap.TraceAssertionFailed => True
  | LinearGap.TraceOutOfFuel => False
  end.
Proof.
  intros HgX HnX HgY HnY Hx Hy Hsc Hpos HbX HbY.
  destruct (trace_columns seq_X seq_Y Zm score_fn G HgX HnX HgY HnY x y
              trace_X trace_Y Hx Hy Hsc ltac:(lia) HbX HbY)
    as [->|(cols & x' & y' & -> & Hlen & Hcov)]; [exact I|].
  destruct (spans_c_str _ _ _ _ _ _ _ (drop (S (length cols)) trace_X)
              (drop (S (length cols)) trace_Y) Hcov) as [-> ->].
  destruct Hcov as (_ & _ & _ & _ & Hall).
  rewrite <- !map_rev. apply Forall_rev in Hall.
  induction Hall as [|c l Hc _ IH]; cbn [map]; constructor; tauto.
Qed.

Lemma trace_linear_gap_smith_waterman_no_double_gap_witness :
  match LinearGap.trace_linear_gap_smith_waterman (chars "GGTTGACTA")
          (chars "TGTTACGG") example_matrix get_example_substitution 2
          (repeat "?"%char 14) (repeat "?"%char 14) 6 5 with
  | LinearGap.Traced tX tY _ _ =>
      Forall2 (fun a b => ~ (a = GAP /\ b = GAP)) (c_str tX) (c_str tY)
  | LinearGap.TraceAssertionFailed => True
  | LinearGap.TraceOutOfFuel => False
  end.
Proof.
  apply (trace_linear_gap_smith_waterman_no_double_gap (chars "GGTTGACTA")
           (chars "TGTTACGG") example_matrix get_example_substitution 2 6 5
           (repeat "?"%char 14) (repeat "?"%char 14)).
  - cbn. intros H. repeat (destruct H as [H|H]; [discriminate|]). exact H.
  - cbn. intros H. repeat (destruct H as [H|H]; [discriminate|]). exact H.
  - cbn. intros H. repeat (destruct H as [H|H]; [discriminate|]). exact H.
  - cbn. intros H. repeat (destruct H as [H|H]; [discriminate|]). exact H.
  - cbn. lia.
  - cbn. lia.
  - left. split; [int64_consts; lia|].
    apply rd_range_forallb. vm_compute. reflexivity.
  - vm_compute. reflexivity.
  - cbn. lia.
  - cbn. lia.
Defined.

(** ** One alignment of the driver *)









Section ScoreBounds.
Variables (seq_X seq_Y : list ascii).
Variable score_fn : ascii -> ascii -> Z.
Variable G : Z.
Variable scores : list Z.
Variable M : Z.

Local Abbreviation len_X := (length seq_X).
Local Abbreviation len_Y := (length seq_Y).
Local Abbreviation Zm :=
  (LinearGap.linear_gap_smith_waterman seq_X seq_Y score_fn G scores).
Local Abbreviation Z_ i j := (rd Zm (i * length seq_Y + j)%nat).
Local Abbreviation s i j := (score_fn (char_at seq_X i) (char_at seq_Y j)).

Hypothesis HX : (1 <= len_X)%nat.
Hypothesis HY : (1 <= len_Y)%nat.
Hypothesis Hlen : (len_X * len_Y <= length scores)%nat.
Hypothesis Hrange : forall a b, in_int64 (score_fn a b).
Hypothesis HG : 0 <= G <= INT64_MAX.
Hypothesis HM : 0 <= M.
Hypothesis HsM :
  forall i j, (i < len_X)%nat -> (j < len_Y)%nat -> s i j <= M.
Hypothesis Hfit : M * Z.of_nat (Nat.min len_X len_Y) <= INT64_MAX.


End ScoreBounds.



(** ** The substitution table on the codes below 90 *)

Lemma table_code_bound (c : ascii) :
  table_code c = true -> (nat_of_ascii c < 90)%nat.
Proof. unfold table_code. intros H. apply Nat.ltb_lt in H. exact H. Qed.

(** A check run over every pair of codes below 90 holds for every pair of
    characters with such codes. *)
Lemma table_codes_check (check : ascii -> ascii -> bool) :
  forallb (fun i => forallb (fun j => check (ascii_of_nat i) (ascii_of_nat j))
                            (seq 0 90))
          (seq 0 90) = true ->
  forall a b : ascii,
    table_code a = true -> table_code b = true -> check a b = true.
Proof.
  intros H a b Ha Hb.
  apply table_code_bound in Ha, Hb.
  rewrite forallb_forall in H.
  specialize (H (nat_of_ascii a) ltac:(apply in_seq; lia)).
  rewrite forallb_forall in H.
  specialize (H (nat_of_ascii b) ltac:(apply in_seq; lia)).
  rewrite !ascii_nat_embedding in H. exact H.
Qed.

(** X12.  NUC4.4 as the table holds it is symmetric: for two codes below
    90 [get_nuc_4_4_value a b] and [get_nuc_4_4_value b a] read inside the
    table and are equal, so the score of an alignment does not depend on
    which sequence is passed as [seq_X]. *)
Theorem get_nuc_4_4_value_symmetric (a b : ascii) :
  table_code a = true -> table_code b = true ->
  exists v : Z,
    get_nuc_4_4_value a b = Some v /\ get_nuc_4_4_value b a = Some v.
Proof.
  intros Ha Hb.
  pose proof (table_codes_check
                (fun a b =>
                   match get_nuc_4_4_value a b, get_nuc_4_4_value b a with
                   | Some v, Some w => v =? w
                   | _, _ => false
                   end)
                ltac:(vm_compute; reflexivity) a b Ha Hb) as H.
  cbn beta in H.
  destruct (get_nuc_4_4_value a b) as [v|]; [|discriminate].
  destruct (get_nuc_4_4_value b a) as [w|]; [|discriminate].
  apply Z.eqb_eq in H. subst w. exists v. split; reflexivity.
Qed.

Lemma get_nuc_4_4_value_symmetric_witness :
  exists v : Z,
    get_nuc_4_4_value "A" "R" = Some v /\ get_nuc_4_4_value "R" "A" = Some v.
Proof.
  apply (get_nuc_4_4_value_symmetric "A" "R"); reflexivity.
Defined.

(** X13.  The values of the table: for two codes below 90 the score is
    between -4 and 5, and it is 5 exactly for one of A, C, G, T against
    itself; an ambiguity code never scores 5, not even against itself. *)
Theorem get_nuc_4_4_value_match (a b : ascii) :
  table_code a = true -> table_code b = true ->
  exists v : Z,
    get_nuc_4_4_value a b = Some v
    /\ -4 <= v <= 5
    /\ (v = 5 <-> a = b /\ is_acgt a = true).
Proof.
  intros Ha Hb.
  pose proof (table_codes_check
                (fun a b =>
                   match get_nuc_4_4_value a b with
                   | Some v =>
                       (-4 <=? v) && (v <=? 5)
                       && Bool.eqb (v =? 5) (Ascii.eqb a b && is_acgt a)
                   | None => false
                   end)
                ltac:(vm_compute; reflexivity) a b Ha Hb) as H.
  cbn beta in H.
  destruct (get_nuc_4_4_value a b) as [v|]; [|discriminate].
  apply andb_true_iff in H. destruct H as [H H3].
  apply andb_true_iff in H. destruct H as [H1 H2].
  apply Z.leb_le in H1, H2. apply Bool.eqb_prop in H3.
  exists v. split; [reflexivity|]. split; [lia|]. split.
  - intros Hv. apply Z.eqb_eq in Hv. rewrite Hv in H3. symmetry in H3.
    apply andb_true_iff in H3. destruct H3 as [Hab Hacgt].
    apply Ascii.eqb_eq in Hab. split; assumption.
  - intros [Hab Hacgt]. apply Ascii.eqb_eq in Hab.
    rewrite Hab, Hacgt in H3. apply Z.eqb_eq. exact H3.
Qed.

Lemma get_nuc_4_4_value_match_witness :
  exists v : Z,
    get_nuc_4_4_value "N" "N" = Some v
    /\ -4 <= v <= 5
    /\ (v = 5 <-> "N"%char = "N"%char /\ is_acgt "N" = true).
Proof.
  apply (get_nuc_4_4_value_match "N" "N"); reflexivity.
Defined.

(** ** Complement and reverse complement *)

(** A check run over the 256 bytes holds for every character. *)
Lemma all_bytes_check (check : ascii -> bool) :
  forallb (fun n => check (ascii_of_nat n)) (seq 0 256) = true ->
  forall c : ascii, check c = true.
Proof.
  intros H c. rewrite forallb_forall in H.
  specialize (H (nat_of_ascii c)
                ltac:(apply in_seq; pose proof (nat_ascii_bounded c); lia)).
  rewrite ascii_nat_embedding in H. exact H.
Qed.

Lemma complement_dna_base_NUL (c : ascii) :
  complement_dna_base c = NUL <-> complemented c = false.
Proof.
  pose proof (all_bytes_check
                (fun c => Bool.eqb (Ascii.eqb (complement_dna_base c) NUL)
                                   (negb (complemented c)))
                ltac:(vm_compute; reflexivity) c) as H.
  cbn beta in H. apply Bool.eqb_prop in H.
  rewrite <- Ascii.eqb_eq, H. destruct (complemented c); cbn; intuition congruence.
Qed.

Lemma complement_dna_base_twice (c : ascii) :
  complement_dna_base (complement_dna_base c) = c
  <-> self_inverse_base c = true \/ c = NUL.
Proof.
  pose proof (all_bytes_check
                (fun c =>
                   Bool.eqb
                     (Ascii.eqb (complement_dna_base (complement_dna_base c)) c)
                     (self_inverse_base c || Ascii.eqb c NUL))
                ltac:(vm_compute; reflexivity) c) as H.
  cbn beta in H. apply Bool.eqb_prop in H.
  rewrite <- Ascii.eqb_eq, H, orb_true_iff, Ascii.eqb_eq. reflexivity.
Qed.

(** X14.  [complement_dna_base] has a case for 28 bytes and returns NUL
    for every other one.  The IUPAC pairs M/K and R/Y are handled in one
    direction only: M gives K and Y gives R, but K, k, R and r have no case
    and give NUL.  The complement of the complement is the byte itself
    exactly for A, B, C, D, G, H, N, S, T, V, W in both cases (and for
    NUL); U gives A, whose complement is T. *)
Theorem complement_dna_base_cases (c : ascii) :
  (complement_dna_base c = NUL <-> complemented c = false)
  /\ (complement_dna_base (complement_dna_base c) = c
      <-> self_inverse_base c = true \/ c = NUL)
  /\ complement_dna_base "M" = "K"%char /\ complement_dna_base "K" = NUL
  /\ complement_dna_base "Y" = "R"%char /\ complement_dna_base "R" = NUL
  /\ complement_dna_base "k" = NUL /\ complement_dna_base "r" = NUL
  /\ complement_dna_base (complement_dna_base "U") = "T"%char.
Proof.
  split; [apply complement_dna_base_NUL|].
  split; [apply complement_dna_base_twice|].
  repeat split.
Qed.

(** The buffer [get_reverse_complement] returns: every cell is written. *)
Lemma reverse_complement_buffer (prior : nat -> ascii) (s : list ascii) :
  get_reverse_complement prior s = rev (map complement_dna_base s) ++ [NUL].
Proof.
  unfold get_reverse_complement. cbn zeta.
  set (n := length s).
  set (buf0 := <[ n := NUL ]> (malloc prior (S n))).
  assert (length buf0 = S n) as Hl0
    by (subst buf0; rewrite length_insert, malloc_length; reflexivity).
  assert (buf0 !! n = Some NUL) as Hn
    by (subst buf0; apply list_lookup_insert_eq; rewrite malloc_length; lia).
  set (step := fun (b : list ascii) (i : nat) =>
                 <[ (n - 1 - i)%nat := complement_dna_base (char_at s i) ]> b).
  assert (forall m, (m <= n)%nat ->
            let cur := fold_left step (seq 0 m) buf0 in
            length cur = S n
            /\ forall p, cur !! p
                 = if (n - m <=? p)%nat && (p <? n)%nat
                   then Some (complement_dna_base (char_at s (n - 1 - p)))
                   else buf0 !! p) as Hinv.
  { induction m as [|m IH]; intros Hm; cbn zeta.
    - cbn [seq fold_left]. split; [exact Hl0|]. intros p.
      destruct (Nat.leb_spec (n - 0) p), (Nat.ltb_spec p n); cbn;
        try reflexivity; lia.
    - rewrite fold_left_seq_S. cbn [Nat.add].
      destruct (IH ltac:(lia)) as [Hl Hp]. cbn zeta in Hl, Hp.
      set (cur := fold_left step (seq 0 m) buf0) in *.
      change (step cur m)
        with (<[ (n - 1 - m)%nat := complement_dna_base (char_at s m) ]> cur).
      rewrite length_insert. split; [exact Hl|]. intros p.
      destruct (Nat.eq_dec p (n - 1 - m)%nat) as [->|Hne].
      + rewrite list_lookup_insert_eq by lia.
        replace (n - 1 - (n - 1 - m))%nat with m by lia.
        destruct (Nat.leb_spec (n - S m) (n - 1 - m)),
          (Nat.ltb_spec (n - 1 - m) n); cbn; try reflexivity; lia.
      + rewrite list_lookup_insert_ne by lia. rewrite Hp.
        destruct (Nat.leb_spec (n - m) p), (Nat.leb_spec (n - S m) p),
          (Nat.ltb_spec p n); cbn; try reflexivity; lia. }
  destruct (Hinv n (Nat.le_refl n)) as [Hl Hp]. cbn zeta in Hl, Hp.
  fold step. apply list_eq. intros p. rewrite Hp.
  assert (length (rev (map complement_dna_base s)) = n) as Hlr
    by (rewrite length_rev, length_map; reflexivity).
  destruct (Nat.leb_spec (n - n) p) as [_|?]; [|lia].
  destruct (Nat.ltb_spec p n) as [Hlt|Hge]; cbn [andb].
  - rewrite lookup_app_l by lia.
    rewrite rev_lookup by (rewrite length_map; exact Hlt).
    rewrite length_map. fold n.
    rewrite list_lookup_fmap.
    replace (n - S p)%nat with (n - 1 - p)%nat by lia.
    rewrite char_at_lookup.
    destruct (lookup_lt_is_Some_2 s (n - 1 - p) ltac:(lia)) as [c ->].
    reflexivity.
  - rewrite lookup_app_r by lia. rewrite Hlr.
    destruct (Nat.eq_dec p n) as [->|Hne].
    + rewrite Nat.sub_diag. exact Hn.
    + rewrite lookup_ge_None_2 by lia.
      destruct (p - n)%nat as [|q] eqn:E; [lia|]. reflexivity.
Qed.

Lemma complemented_not_NUL (s : list ascii) :
  forallb complemented s = true ->
  Forall (fun c => c <> NUL) (rev (map complement_dna_base s)).
Proof.
  intros H. apply Forall_rev. rewrite List.Forall_map.
  rewrite forallb_forall in H. apply List.Forall_forall. intros c Hc Hnul.
  apply complement_dna_base_NUL in Hnul. rewrite (H c Hc) in Hnul.
  discriminate.
Qed.

(** X15.  [get_reverse_complement] fills its whole block for every
    sequence, whatever the block held: the complements of the characters in
    reverse order (NUL for a character without a [case]), then the NUL.
    Read as a C string the result is the reverse complement when every
    character has a complement; a character without one (K or R, a digit,
    ...) is stored as NUL and cuts the string there, so that only the
    reverse complement of what follows the last such character is left. *)
Theorem get_reverse_complement_string
    (prior : nat -> ascii) (sequence pre post : list ascii) (c : ascii) :
  get_reverse_complement prior sequence
  = rev (map complement_dna_base sequence) ++ [NUL]
  /\ (forallb complemented sequence = true ->
      c_str (get_reverse_complement prior sequence)
      = rev (map complement_dna_base sequence))
  /\ (sequence = pre ++ c :: post ->
      complemented c = false -> forallb complemented post = true ->
      c_str (get_reverse_complement prior sequence)
      = rev (map complement_dna_base post)).
Proof.
  rewrite !reverse_complement_buffer.
  split; [reflexivity|]. split.
  - intros Hall. apply c_str_terminated.
    exact (complemented_not_NUL sequence Hall).
  - intros -> Hc Hpost. apply complement_dna_base_NUL in Hc.
    rewrite map_app, rev_app_distr. cbn [map rev]. rewrite Hc.
    rewrite <- !app_assoc. cbn [app].
    apply c_str_terminated. exact (complemented_not_NUL post Hpost).
Qed.

Lemma get_reverse_complement_string_witness :
  get_reverse_complement (fun _ => "?"%char) (chars "ACKAAG")
  = rev (map complement_dna_base (chars "ACKAAG")) ++ [NUL]
  /\ c_str (get_reverse_complement (fun _ => "?"%char) (chars "ACKAAG"))
     = rev (map complement_dna_base (chars "AAG")).
Proof.
  destruct (get_reverse_complement_string (fun _ => "?"%char)
              (chars "ACKAAG") (chars "AC") (chars "AAG") "K")
    as (H0 & _ & H2).
  split; [exact H0|]. apply H2; reflexivity.
Defined.

(** X16.  The reverse complement of the reverse complement is the
    sequence itself when it is made of A, B, C, D, G, H, N, S, T, V, W in
    either case (the codes M, K, R, Y and U are not given back). *)
Theorem get_reverse_complement_involutive
    (prior1 prior2 : nat -> ascii) (s : list ascii) :
  forallb self_inverse_base s = true ->
  c_str (get_reverse_complement prior2
           (c_str (get_reverse_complement prior1 s))) = s.
Proof.
  intros Hs. rewrite forallb_forall in Hs.
  assert (forall c, In c s -> complemented c = true) as Hc.
  { intros c Hin. specialize (Hs c Hin).
    pose proof (all_bytes_check
                  (fun c => implb (self_inverse_base c) (complemented c))
                  ltac:(vm_compute; reflexivity) c) as H.
    cbn beta in H. rewrite Hs in H. exact H. }
  assert (forall c, In c s ->
            complemented (complement_dna_base c) = true) as Hcc.
  { intros c Hin. specialize (Hs c Hin).
    pose proof (all_bytes_check
                  (fun c => implb (self_inverse_base c)
                                  (complemented (complement_dna_base c)))
                  ltac:(vm_compute; reflexivity) c) as H.
    cbn beta in H. rewrite Hs in H. exact H. }
  rewrite (reverse_complement_buffer prior1 s).
  rewrite c_str_terminated
    by (apply complemented_not_NUL, forallb_forall; exact Hc).
  rewrite reverse_complement_buffer.
  rewrite c_str_terminated.
  - rewrite map_rev, rev_involutive, map_map.
    rewrite <- (map_id s) at 2. apply map_ext_in.
    intros c Hin. apply complement_dna_base_twice. left. apply Hs, Hin.
  - apply complemented_not_NUL, forallb_forall.
    intros c Hin. apply in_rev in Hin. apply in_map_iff in Hin.
    destruct Hin as (c0 & <- & Hin0). apply Hcc, Hin0.
Qed.

Lemma get_reverse_complement_involutive_witness :
  c_str (get_reverse_complement (fun _ => "?"%char)
           (c_str (get_reverse_complement (fun _ => "!"%char)
                     (chars "GATTACAN"))))
  = chars "GATTACAN".
Proof.
  apply (get_reverse_complement_involutive (fun _ => "!"%char)
           (fun _ => "?"%char) (chars "GATTACAN")).
  reflexivity.
Defined.

(** ** The counters of [count_mismatches] *)

Lemma count_loop_gaps (trace_X trace_Y : list ascii) (n : nat) :
  (n <= length trace_X)%nat -> (n <= length trace_Y)%nat ->
  Z.of_nat n < UINT64_MOD ->
  let c := count_loop trace_X trace_Y n in
  gaps_X c = Z.of_nat n - bases (take n trace_X)
  /\ gaps_Y c = Z.of_nat n - bases (take n trace_Y)
  /\ ((forall p : nat, (p < n)%nat ->
         ~ (char_at trace_X p = GAP /\ char_at trace_Y p = GAP)) ->
      gaps_X c + gaps_Y c <= mismatches c).
Proof.
  induction n as [|n IH]; intros HnX HnY Hn.
  - cbn. rewrite !take_0. cbn. lia.
  - rewrite count_loop_S.
    destruct IH as (HgX & HgY & Hmis); [lia|lia|lia|].
    pose proof (count_loop_bounds trace_X trace_Y n ltac:(lia)) as Hb.
    cbn zeta in Hb. destruct Hb as (Hi & Hx & Hy & Hm & Hsum).
    set (c := count_loop trace_X trace_Y n) in *.
    rewrite !bases_take_S by lia.
    assert ((forall p : nat, (p < S n)%nat ->
               ~ (char_at trace_X p = GAP /\ char_at trace_Y p = GAP)) ->
            gaps_X c + gaps_Y c <= mismatches c
            /\ ~ (char_at trace_X n = GAP /\ char_at trace_Y n = GAP)) as Hmis'.
    { intros H. split; [apply Hmis; intros p Hp; apply H; lia|apply H; lia]. }
    unfold count_column.
    destruct (Ascii.eqb_spec (char_at trace_X n) (char_at trace_Y n)) as [E|E],
      (Ascii.eqb_spec (char_at trace_X n) GAP) as [EX|EX],
      (Ascii.eqb_spec (char_at trace_Y n) GAP) as [EY|EY];
      cbn [identical gaps_X gaps_Y mismatches];
      rewrite ?incr_u64_small by lia;
      try (exfalso; congruence);
      (split; [lia|split; [lia|]]); intros H; destruct (Hmis' H) as [H1 H2];
      try lia; exfalso; apply H2; split; assumption.
Qed.

(** X17.  [count_mismatches] counts in [gaps_X] every ['-'] of [trace_X]
    and in [gaps_Y] every ['-'] of [trace_Y] (a column with two gaps counts
    in both and as one mismatch).  A column with one gap always counts as a
    mismatch as well, so for two strings without a column of two gaps, as
    the traceback writes them, the sum of the gaps never exceeds
    [mismatches]. *)
Theorem count_mismatches_gaps (trace_X trace_Y : list ascii) :
  length trace_X = length trace_Y ->
  Z.of_nat (length trace_X) < UINT64_MOD ->
  exists c : counters,
    count_mismatches trace_X trace_Y = Some c
    /\ gaps_X c + bases trace_X = Z.of_nat (length trace_X)
    /\ gaps_Y c + bases trace_Y = Z.of_nat (length trace_Y)
    /\ (Forall2 (fun a b => ~ (a = GAP /\ b = GAP)) trace_X trace_Y ->
        gaps_X c + gaps_Y c <= mismatches c).
Proof.
  intros Hlen Hsize.
  unfold count_mismatches. rewrite Hlen, Nat.eqb_refl. rewrite <- Hlen.
  eexists. split; [reflexivity|].
  destruct (count_loop_gaps trace_X trace_Y (length trace_X)
              ltac:(lia) ltac:(lia) Hsize) as (HgX & HgY & Hmis).
  rewrite !take_ge in HgX, HgY by lia.
  split; [lia|]. split; [lia|].
  intros Hall. apply Hmis.
  intros p Hp.
  destruct (lookup_lt_is_Some_2 trace_X p Hp) as [a Ha].
  destruct (lookup_lt_is_Some_2 trace_Y p ltac:(lia)) as [b Hb].
  rewrite !char_at_lookup, Ha, Hb. cbn.
  exact (Forall2_lookup_lr _ _ _ _ _ _ Hall Ha Hb).
Qed.

Lemma count_mismatches_gaps_witness :
  exists c : counters,
    count_mismatches (chars "A-C-") (chars "AG--") = Some c
    /\ gaps_X c + bases (chars "A-C-") = 4.
Proof.
  destruct (count_mismatches_gaps (chars "A-C-") (chars "AG--"))
    as (c & Hc & HgX & _).
  - reflexivity.
  - vm_compute. reflexivity.
  - exists c. split; [exact Hc|exact HgX].
Defined.

(** ** The command line as a whole *)

Section CommandLineOutcome.
Variable sscanf_lld : string -> sscanf_result.
Variables OUTPUT_TSV OUTPUT_PAIR : Z.
Variable file_system : string -> file_status.
Variable sequence_prior : nat -> ascii.
Variable line_prior : nat -> nat -> ascii.

Local Abbreviation step := (parse_option sscanf_lld OUTPUT_TSV OUTPUT_PAIR).
Local Abbreviation loop := (parse_loop sscanf_lld OUTPUT_TSV OUTPUT_PAIR).
Local Abbreviation run :=
  (main sscanf_lld OUTPUT_TSV OUTPUT_PAIR file_system sequence_prior
     line_prior).
Local Abbreviation ok := (accepted sscanf_lld).
Local Abbreviation types := (chosen_types OUTPUT_TSV OUTPUT_PAIR).
Local Abbreviation penalties := (stored_gap_penalties sscanf_lld).

(** The variables after a run of accepted options: each one holds what
    the last option that sets it stored. *)
Lemma parse_loop_accepted (evs : list getopt_event) :
  forall o : options,
    forallb ok evs = true ->
    loop o evs
    = inr {| query_sequence :=
               match last (stored_queries evs) with
               | Some q => Some q
               | None => query_sequence o
               end;
             sequence := sequence o;
             gap_penalty := default (gap_penalty o) (last (penalties evs));
             output_flag := default (output_flag o) (last (types evs)) |}.
Proof.
  induction evs as [|ev rest IH]; intros o Hok.
  - cbn. destruct o. reflexivity.
  - cbn [forallb] in Hok. apply andb_true_iff in Hok. destruct Hok as [Hev Hrest].
    cbn [parse_loop].
    unfold stored_queries, chosen_types, stored_gap_penalties.
    cbn [flat_map]. rewrite !last_app.
    fold (stored_queries rest). fold (types rest). fold (penalties rest).
    destruct ev as [name optarg|optarg| | |optarg|optopt|c];
      cbn [accepted] in Hev; try discriminate; cbn [parse_option].
    + destruct (String.eqb name "type"); cbn [negb orb] in Hev.
      * destruct (String.eqb optarg "tsv").
        { rewrite IH by exact Hrest. cbn.
          destruct (last (stored_queries rest)), (last (types rest)),
          (last (penalties rest)); reflexivity. }
        destruct (String.eqb optarg "pair"); [|discriminate].
        rewrite IH by exact Hrest. cbn.
        destruct (last (stored_queries rest)), (last (types rest)),
          (last (penalties rest)); reflexivity.
      * rewrite IH by exact Hrest. cbn.
        destruct (last (stored_queries rest)), (last (types rest)),
          (last (penalties rest)); reflexivity.
    + destruct (String.length optarg =? 0)%nat; [discriminate|].
      rewrite IH by exact Hrest. cbn.
      destruct (last (stored_queries rest)), (last (types rest)),
          (last (penalties rest)); reflexivity.
    + destruct (sscanf_lld optarg) as [| |v]; [discriminate| |].
      * rewrite IH by exact Hrest. cbn.
        destruct (last (stored_queries rest)), (last (types rest)),
          (last (penalties rest)); reflexivity.
      * rewrite IH by exact Hrest. cbn.
        destruct (last (stored_queries rest)), (last (types rest)),
          (last (penalties rest)); reflexivity.
Qed.

(** An option that is not accepted leaves the parser at once. *)
Lemma parse_option_rejected (o : options) (ev : getopt_event) :
  ok ev = false ->
  step o ev = inl (if rejection_status ev =? 0 then ParseExit 0
                   else ParseReturn (rejection_status ev) o).
Proof.
  intros Hev.
  destruct ev as [name optarg|optarg| | |optarg|optopt|c];
    cbn [accepted] in Hev; cbn [parse_option rejection_status Z.eqb];
    try reflexivity.
  - destruct (String.eqb name "type"); cbn [negb orb] in Hev; [|discriminate].
    destruct (String.eqb optarg "tsv"); [discriminate|].
    destruct (String.eqb optarg "pair"); [discriminate|]. reflexivity.
  - destruct (String.length optarg =? 0)%nat; [reflexivity|discriminate].
  - destruct (sscanf_lld optarg); try discriminate. reflexivity.
Qed.

Lemma first_rejected (evs : list getopt_event) :
  forallb ok evs = false ->
  exists before ev after,
    evs = before ++ ev :: after
    /\ forallb ok before = true /\ ok ev = false.
Proof.
  induction evs as [|ev rest IH]; intros H; [discriminate|].
  cbn [forallb] in H. destruct (ok ev) eqn:Hev.
  - cbn [andb] in H. destruct (IH H) as (before & ev' & after & -> & Hb & He).
    exists (ev :: before), ev', after. cbn [forallb app]. rewrite Hev.
    repeat split; assumption.
  - exists [], ev, rest. repeat split. exact Hev.
Qed.

Lemma main_rejected (before after : list getopt_event) (ev : getopt_event)
    (operands : list string) (output_flag0 : Z) :
  forallb ok before = true -> ok ev = false ->
  run (before ++ ev :: after) operands output_flag0
  = MainExit (rejection_status ev).
Proof.
  intros Hb Hev. unfold main, parse_ednafull_linear_smith_waterman_options.
  rewrite parse_loop_app, (parse_loop_accepted before _ Hb).
  cbn [parse_loop]. rewrite (parse_option_rejected _ ev Hev).
  destruct ev as [name optarg|optarg| | |optarg|optopt|c]; reflexivity.
Qed.

(** What [main] does once every option has been accepted. *)
Lemma main_accepted (evs : list getopt_event) (operands : list string)
    (output_flag0 : Z) :
  forallb ok evs = true ->
  let flag := default output_flag0 (last (types evs)) in
  let g := default 16 (last (penalties evs)) in
  run evs operands output_flag0
  = match last (stored_queries evs), operands with
    | Some q, [file] =>
        if fastq_name file then
          match read_file file_system q with
          | ReadAssertionFailed => MainAssertionFailed
          | ReadNull => MainUndefined
          | ReadData fasta_data =>
              match extract_fasta_sequence sequence_prior line_prior
                      (c_str fasta_data) with
              | FastaAssertionFailed => MainAssertionFailed
              | FastaUndefined => MainUndefined
              | FastaReturn _ _ None => MainExit 1
              | FastaReturn _ None (Some _) => MainUndefined
              | FastaReturn _ (Some identifier) (Some query) =>
                  match fastq_of file_system file with
                  | None => MainAssertionFailed
                  | Some data =>
                      if flag =? OUTPUT_TSV
                      then MainHandleFastqTsv file data identifier query g
                      else if flag =? OUTPUT_PAIR
                      then MainHandleFastqPair file data identifier query g
                      else MainExit 1
                  end
              end
          end
        else MainExit 1
    | _, _ => MainExit 1
    end.
Proof.
  intros Hok. cbn zeta.
  unfold main, parse_ednafull_linear_smith_waterman_options.
  rewrite (parse_loop_accepted evs _ Hok).
  cbn [query_sequence sequence gap_penalty output_flag].
  destruct (last (stored_queries evs)) as [q|]; [|reflexivity].
  destruct operands as [|file [|? ?]]; try reflexivity.
  unfold fastq_name, fastq_of.
  destruct (strstr_found file ".fq"), (strstr_found file ".fastq");
    cbn [negb andb orb Z.eqb query_sequence sequence gap_penalty output_flag];
    try reflexivity;
    destruct (read_file file_system q) as [| |fasta_data]; try reflexivity;
    destruct (extract_fasta_sequence sequence_prior line_prior
                (c_str fasta_data)) as [n [identifier|] [query|]| |];
    try reflexivity;
    destruct (read_file file_system file); reflexivity.
Qed.

(** A handler is called only on a command line that passes every test. *)
Lemma main_handler_called (evs : list getopt_event) (operands : list string)
    (output_flag0 : Z) :
  calls_handler (run evs operands output_flag0) = true ->
  let flag := default output_flag0 (last (types evs)) in
  forallb ok evs = true
  /\ exists (q file : string) (identifier query : list ascii)
       (data : option (list ascii)),
       last (stored_queries evs) = Some q
       /\ operands = [file]
       /\ fastq_name file = true
       /\ query_of file_system sequence_prior line_prior q
          = Some (identifier, query)
       /\ fastq_of file_system file = Some data
       /\ run evs operands output_flag0
          = (if flag =? OUTPUT_TSV
             then MainHandleFastqTsv file data identifier query
                    (default 16 (last (penalties evs)))
             else MainHandleFastqPair file data identifier query
                    (default 16 (last (penalties evs))))
       /\ (flag = OUTPUT_TSV \/ flag = OUTPUT_PAIR).
Proof.
  cbn zeta. intros Hcall.
  destruct (forallb ok evs) eqn:Hok.
  2:{ destruct (first_rejected evs Hok) as (before & ev & after & -> & Hb & He).
      rewrite (main_rejected _ _ _ _ _ Hb He) in Hcall. discriminate. }
  split; [reflexivity|].
  rewrite (main_accepted evs operands output_flag0 Hok) in Hcall |- *.
  cbn zeta in Hcall |- *. unfold query_of.
  destruct (last (stored_queries evs)) as [q|]; [|discriminate].
  destruct operands as [|file [|? ?]]; try discriminate.
  destruct (fastq_name file) eqn:Hname; [|discriminate].
  destruct (read_file file_system q) as [| |fasta_data] eqn:Hread;
    try discriminate.
  destruct (extract_fasta_sequence sequence_prior line_prior
              (c_str fasta_data)) as [n [identifier|] [query|]| |] eqn:Hext;
    try discriminate.
  destruct (fastq_of file_system file) as [data|] eqn:Hdata; [|discriminate].
  exists q, file, identifier, query, data.
  do 2 (split; [reflexivity|]). split; [exact Hname|].
  split; [rewrite Hread, Hext; reflexivity|].
  split; [exact Hdata|].
  destruct (Z.eqb_spec (default output_flag0 (last (types evs))) OUTPUT_TSV).
  - split; [reflexivity|]. left. assumption.
  - destruct (Z.eqb_spec (default output_flag0 (last (types evs)))
                OUTPUT_PAIR); [|discriminate].
    split; [reflexivity|]. right. assumption.
Qed.

(** On a command line that passes every test, [main] calls a handler or
    ends for want of an output type. *)
Lemma main_handler (evs : list getopt_event) (q file : string)
    (identifier query : list ascii) (data : option (list ascii))
    (output_flag0 : Z) :
  forallb ok evs = true ->
  last (stored_queries evs) = Some q ->
  fastq_name file = true ->
  query_of file_system sequence_prior line_prior q
  = Some (identifier, query) ->
  fastq_of file_system file = Some data ->
  let flag := default output_flag0 (last (types evs)) in
  let g := default 16 (last (penalties evs)) in
  run evs [file] output_flag0
  = if flag =? OUTPUT_TSV
    then MainHandleFastqTsv file data identifier query g
    else if flag =? OUTPUT_PAIR
    then MainHandleFastqPair file data identifier query g
    else MainExit 1.
Proof.
  intros Hok Hq Hname Hquery Hdata. cbn zeta.
  rewrite (main_accepted evs [file] output_flag0 Hok). cbn zeta.
  rewrite Hq, Hname, Hdata. unfold query_of in Hquery.
  destruct (read_file file_system q) as [| |fasta_data]; try discriminate.
  destruct (extract_fasta_sequence sequence_prior line_prior
              (c_str fasta_data)) as [n [i|] [s|]| |];
    try discriminate.
  injection Hquery as -> ->. reflexivity.
Qed.
End CommandLineOutcome.

(** X18.  [main] calls [handle_fastq_tsv] exactly when every option is
    accepted (no [-h], [-v], unknown option, missing argument, [--type]
    other than [tsv] and [pair], empty [-q] argument, [-P] on which
    [sscanf] returns [EOF]), a [-q] option is present, there is exactly one
    operand, [".fq"] or [".fastq"] occurs somewhere in its name (not only
    at its end), [read_file] returns the text of the file the last [-q]
    names and [extract_fasta_sequence] finds an identifier and a sequence
    in it, [read_file] does not stop on its assertion for the operand, and
    the output flag is [OUTPUT_TSV].  The handler receives the operand,
    the text of that file (NULL when [read_file] returned NULL), the
    identifier and the sequence extracted from the query file, and the
    integer stored by the last [-P] that stored one, 16 when none did; the
    flag is the one of the last [--type], and without any [--type] it is
    the indeterminate initial value of the local variable. *)
Theorem main_calls_handle_fastq_tsv
    (sscanf_lld : string -> sscanf_result) (OUTPUT_TSV OUTPUT_PAIR : Z)
    (file_system : string -> file_status) (sequence_prior : nat -> ascii)
    (line_prior : nat -> nat -> ascii)
    (evs : list getopt_event) (operands : list string) (output_flag0 : Z)
    (file : string) (data : option (list ascii))
    (identifier query : list ascii) (g : Z) :
  main sscanf_lld OUTPUT_TSV OUTPUT_PAIR file_system sequence_prior
    line_prior evs operands output_flag0
  = MainHandleFastqTsv file data identifier query g
  <-> forallb (accepted sscanf_lld) evs = true
      /\ (exists q : string,
            last (stored_queries evs) = Some q
            /\ query_of file_system sequence_prior line_prior q
               = Some (identifier, query))
      /\ operands = [file]
      /\ fastq_name file = true
      /\ fastq_of file_system file = Some data
      /\ default output_flag0 (last (chosen_types OUTPUT_TSV OUTPUT_PAIR evs))
         = OUTPUT_TSV
      /\ default 16 (last (stored_gap_penalties sscanf_lld evs)) = g.
Proof.
  split.
  - intros Hmain.
    destruct (main_handler_called sscanf_lld OUTPUT_TSV OUTPUT_PAIR
                file_system sequence_prior line_prior evs operands
                output_flag0 ltac:(rewrite Hmain; reflexivity))
      as (Hok & q & file' & i & s & d & Hq & Hops & Hname & Hquery & Hdata
          & Hrun & _).
    rewrite Hmain in Hrun.
    destruct (Z.eqb_spec
                (default output_flag0
                   (last (chosen_types OUTPUT_TSV OUTPUT_PAIR evs)))
                OUTPUT_TSV) as [Htsv|Htsv]; [|discriminate].
    injection Hrun as -> -> -> -> ->.
    split; [exact Hok|]. split; [exists q; split; assumption|].
    repeat split; assumption.
  - intros (Hok & (q & Hq & Hquery) & -> & Hname & Hdata & Hflag & <-).
    rewrite (main_handler sscanf_lld OUTPUT_TSV OUTPUT_PAIR file_system
               sequence_prior line_prior evs q file identifier query data
               output_flag0 Hok Hq Hname Hquery Hdata).
    cbn zeta. rewrite Hflag, Z.eqb_refl. reflexivity.
Qed.

(** X19.  [main] calls [handle_fastq_pair] under the same conditions on
    the options, the operand and the two files, with the output flag equal
    to [OUTPUT_PAIR] and different from [OUTPUT_TSV], which is tested
    first; it receives the same arguments. *)
Theorem main_calls_handle_fastq_pair
    (sscanf_lld : string -> sscanf_result) (OUTPUT_TSV OUTPUT_PAIR : Z)
    (file_system : string -> file_status) (sequence_prior : nat -> ascii)
    (line_prior : nat -> nat -> ascii)
    (evs : list getopt_event) (operands : list string) (output_flag0 : Z)
    (file : string) (data : option (list ascii))
    (identifier query : list ascii) (g : Z) :
  main sscanf_lld OUTPUT_TSV OUTPUT_PAIR file_system sequence_prior
    line_prior evs operands output_flag0
  = MainHandleFastqPair file data identifier query g
  <-> forallb (accepted sscanf_lld) evs = true
      /\ (exists q : string,
            last (stored_queries evs) = Some q
            /\ query_of file_system sequence_prior line_prior q
               = Some (identifier, query))
      /\ operands = [file]
      /\ fastq_name file = true
      /\ fastq_of file_system file = Some data
      /\ default output_flag0 (last (chosen_types OUTPUT_TSV OUTPUT_PAIR evs))
         <> OUTPUT_TSV
      /\ default output_flag0 (last (chosen_types OUTPUT_TSV OUTPUT_PAIR evs))
         = OUTPUT_PAIR
      /\ default 16 (last (stored_gap_penalties sscanf_lld evs)) = g.
Proof.
  split.
  - intros Hmain.
    destruct (main_handler_called sscanf_lld OUTPUT_TSV OUTPUT_PAIR
                file_system sequence_prior line_prior evs operands
                output_flag0 ltac:(rewrite Hmain; reflexivity))
      as (Hok & q & file' & i & s & d & Hq & Hops & Hname & Hquery & Hdata
          & Hrun & Hflag).
    rewrite Hmain in Hrun.
    destruct (Z.eqb_spec
                (default output_flag0
                   (last (chosen_types OUTPUT_TSV OUTPUT_PAIR evs)))
                OUTPUT_TSV) as [Htsv|Htsv]; [discriminate|].
    injection Hrun as -> -> -> -> ->.
    destruct Hflag as [Hflag|Hflag]; [contradiction|].
    split; [exact Hok|]. split; [exists q; split; assumption|].
    repeat split; assumption.
  - intros (Hok & (q & Hq & Hquery) & -> & Hname & Hdata & Htsv & Hflag & <-).
    rewrite (main_handler sscanf_lld OUTPUT_TSV OUTPUT_PAIR file_system
               sequence_prior line_prior evs q file identifier query data
               output_flag0 Hok Hq Hname Hquery Hdata).
    cbn zeta.
    destruct (Z.eqb_spec
                (default output_flag0
                   (last (chosen_types OUTPUT_TSV OUTPUT_PAIR evs)))
                OUTPUT_TSV) as [?|_]; [contradiction|].
    rewrite Hflag, Z.eqb_refl. reflexivity.
Qed.

(** X20.  The first option that is not accepted decides how the process
    ends, whatever follows it on the command line and whatever the operands
    are: [-h] and [-v] end it with status 0 before any file is looked at,
    an unexpected return of [getopt_long] with status 2, every other
    rejected option with status 1. *)
Theorem main_first_rejected_option
    (sscanf_lld : string -> sscanf_result) (OUTPUT_TSV OUTPUT_PAIR : Z)
    (file_system : string -> file_status) (sequence_prior : nat -> ascii)
    (line_prior : nat -> nat -> ascii)
    (before after : list getopt_event) (ev : getopt_event)
    (operands : list string) (output_flag0 : Z) :
  forallb (accepted sscanf_lld) before = true ->
  accepted sscanf_lld ev = false ->
  main sscanf_lld OUTPUT_TSV OUTPUT_PAIR file_system sequence_prior
    line_prior (before ++ ev :: after) operands output_flag0
  = MainExit (rejection_status ev).
Proof. apply main_rejected. Qed.

Lemma main_first_rejected_option_witness :
  main decimal_sscanf_lld 0 1 example_files (fun _ => "?"%char)
    (fun _ _ => "?"%char)
    ([OptQuery "gene.fasta"; OptGapPenalty "7"]
     ++ OptHelp :: [OptUnexpected "x"]) [] 0
  = MainExit 0.
Proof.
  apply (main_first_rejected_option decimal_sscanf_lld 0 1 example_files
           (fun _ => "?"%char) (fun _ _ => "?"%char)
           [OptQuery "gene.fasta"; OptGapPenalty "7"] [OptUnexpected "x"]
           OptHelp [] 0); reflexivity.
Defined.



(** ** The pair format *)

(** X22.  [get_first_string_token_space_delimited] returns the longest
    prefix of its argument without a space: the argument is the token
    followed by nothing or by a space and the rest; a string that starts
    with a space gives the empty token, a string without a space is
    returned whole. *)
Theorem get_first_string_token_space_delimited_prefix (s : list ascii) :
  let token := get_first_string_token_space_delimited s in
  ~ In " "%char token
  /\ (exists rest : list ascii,
        s = token ++ rest
        /\ (rest = [] \/ exists r, rest = " "%char :: r))
  /\ (~ In " "%char s -> token = s)
  /\ get_first_string_token_space_delimited token = token.
Proof.
  cbn zeta. induction s as [|c s (Hno & (rest & Hs & Hrest) & Hall & Hidem)].
  - cbn. repeat split; [tauto|exists []; split; [reflexivity|left; reflexivity]].
  - cbn [get_first_string_token_space_delimited].
    destruct (Ascii.eqb_spec c " ") as [->|Hc].
    + split; [cbn; tauto|]. split.
      * exists (" "%char :: s). split; [reflexivity|right; eexists; reflexivity].
      * split; [intros H; exfalso; apply H; left; reflexivity|reflexivity].
    + split; [cbn; intros [H|H]; [congruence|contradiction]|]. split.
      * exists rest. split; [cbn; rewrite <- Hs; reflexivity|exact Hrest].
      * split.
        -- intros H. f_equal. apply Hall. intros Hin. apply H. right. exact Hin.
        -- cbn [get_first_string_token_space_delimited].
           destruct (Ascii.eqb_spec c " "); [contradiction|].
           rewrite Hidem. reflexivity.
Qed.

Lemma indicator_absolute (trace_X trace_Y : list ascii) (first n : nat) :
  indicator trace_X trace_Y first n
  = map (fun p =>
           if Ascii.eqb (char_at trace_X p) (char_at trace_Y p)
           then if Ascii.eqb (char_at trace_X p) GAP
                then " "%char else "|"%char
           else " "%char)
        (seq first n).
Proof.
  assert (seq first n = map (Nat.add first) (seq 0 n)) as ->.
  { rewrite <- (Nat.add_0_r first) at 1. symmetry.
    apply (fmap_add_seq first 0 n). }
  unfold indicator. rewrite map_map. reflexivity.
Qed.

Lemma indicator_app (trace_X trace_Y : list ascii) (a b : nat) :
  indicator trace_X trace_Y 0 a ++ indicator trace_X trace_Y a b
  = indicator trace_X trace_Y 0 (a + b).
Proof.
  rewrite !indicator_absolute, <- map_app, <- seq_app. reflexivity.
Qed.

Lemma indicator_length (trace_X trace_Y : list ascii) (first n : nat) :
  length (indicator trace_X trace_Y first n) = n.
Proof. unfold indicator. rewrite length_map, length_seq. reflexivity. Qed.

Section PairBodyRows.
Variables (query_sequence_identifier sequence_identifier : list ascii).
Variables (trace_X trace_Y : list ascii).

Local Abbreviation fmt :=
  (format_block query_sequence_identifier sequence_identifier trace_X trace_Y).
Local Abbreviation rowX := (fun seg => line_alignment (segment_X seg)).
Local Abbreviation rowY := (fun seg => line_alignment (segment_Y seg)).

(** The three rows of a block. *)
Lemma format_block_rows (st : body_state) (first n : nat) :
  let seg := snd (fmt st first n) in
  rowX seg = take n (drop first trace_X)
  /\ rowY seg = take n (drop first trace_Y)
  /\ segment_matches seg = indicator trace_X trace_Y first n.
Proof.
  unfold format_block.
  destruct (fold_left _ _ _) as [cX cY]. cbn. repeat split.
Qed.

(** What a list of blocks shows of the first [n] columns. *)
Local Abbreviation shows body n :=
  (concat (map rowX body) = take n trace_X
   /\ concat (map rowY body) = take n trace_Y
   /\ concat (map segment_matches body) = indicator trace_X trace_Y 0 n).

Lemma shows_snoc (body : list body_segment) (st : body_state) (first n : nat) :
  shows body first ->
  shows (body ++ [snd (fmt st first n)]) (first + n)%nat.
Proof.
  intros (HX & HY & HM).
  destruct (format_block_rows st first n) as (HsX & HsY & HsM).
  cbn zeta in HsX, HsY, HsM.
  rewrite !map_app, !concat_app. cbn [map concat]. rewrite !app_nil_r.
  rewrite HX, HY, HM, HsX, HsY, HsM.
  rewrite !take_take_drop, indicator_app. repeat split.
Qed.

Lemma full_blocks_rows (m : nat) :
  (m * 50 <= length trace_X)%nat -> (m * 50 <= length trace_Y)%nat ->
  let st :=
    fold_left
      (full_block query_sequence_identifier sequence_identifier trace_X trace_Y)
      (seq 0 m)
      {| prev_X := 0; current_X := 0; prev_Y := 0; current_Y := 0;
         segments := [] |} in
  shows (segments st) (m * 50)%nat
  /\ Forall (fun seg => length (segment_matches seg) = 50%nat
                        /\ length (rowX seg) = 50%nat
                        /\ length (rowY seg) = 50%nat) (segments st).
Proof.
  induction m as [|m IH]; intros HmX HmY; cbn zeta.
  - cbn. rewrite !take_0. repeat split. constructor.
  - rewrite fold_left_seq_S. cbn [Nat.add].
    destruct IH as (Hshow & Hall); [lia|lia|].
    set (st := fold_left _ (seq 0 m) _) in *.
    unfold full_block.
    pose proof (shows_snoc (segments st) st (m * 50) 50 Hshow) as Hnext.
    destruct (format_block_rows st (m * 50) 50) as (HsX & HsY & HsM).
    cbn zeta in HsX, HsY, HsM.
    destruct (fmt st (m * 50) 50) as [[cX cY] seg]. cbn [snd] in *.
    cbn [segments].
    replace (S m * 50)%nat with (m * 50 + 50)%nat by lia.
    split; [exact Hnext|].
    apply Forall_app. split; [exact Hall|].
    constructor; [|constructor].
    rewrite HsX, HsY, HsM, indicator_length, !length_take, !length_drop.
    lia.
Qed.

Lemma pair_alignment_body_shows :
  length trace_X = length trace_Y ->
  report_identifier sequence_identifier ->
  report_identifier query_sequence_identifier ->
  exists body : list body_segment,
    pair_alignment_body query_sequence_identifier sequence_identifier
      trace_X trace_Y = Some body
    /\ shows body (length trace_X)
    /\ Forall (fun seg => (1 <= length (segment_matches seg) <= 50)%nat
                          /\ length (rowX seg) = length (segment_matches seg)
                          /\ length (rowY seg) = length (segment_matches seg))
              body.
Proof.
  intros Hlen Hsid Hqid.
  rewrite (pair_alignment_body_defined _ _ _ _ Hlen Hsid Hqid).
  set (L := length trace_X) in *.
  set (Q := (L / 50)%nat). set (R := (L mod 50)%nat).
  assert (L = Q * 50 + R /\ R < 50)%nat as [HL HR].
  { subst Q R. pose proof (Nat.div_mod_eq L 50).
    pose proof (Nat.mod_upper_bound L 50). lia. }
  destruct (full_blocks_rows Q ltac:(fold L; lia) ltac:(rewrite <- Hlen; fold L; lia))
    as (Hshow & Hall).
  cbn zeta in Hshow, Hall.
  set (st := fold_left _ (seq 0 Q) _) in *.
  assert (Forall (fun seg => (1 <= length (segment_matches seg) <= 50)%nat
                          /\ length (rowX seg) = length (segment_matches seg)
                          /\ length (rowY seg) = length (segment_matches seg))
            (segments st)) as Hall'.
  { eapply List.Forall_impl; [|exact Hall]. cbn beta. intros seg (-> & -> & ->).
    lia. }
  eexists. split; [reflexivity|]. unfold remainder_block.
  destruct (Nat.eqb_spec R 0) as [HR0|HR0].
  - replace L with (Q * 50)%nat by lia. split; [exact Hshow|exact Hall'].
  - pose proof (shows_snoc (segments st) st (Q * 50) R Hshow) as Hnext.
    destruct (format_block_rows st (Q * 50) R) as (HsX & HsY & HsM).
    cbn zeta in HsX, HsY, HsM.
    destruct (fmt st (Q * 50) R) as [[cX cY] seg]. cbn [snd] in *.
    cbn [segments]. rewrite HL. split; [exact Hnext|].
    apply Forall_app. split; [exact Hall'|].
    constructor; [|constructor].
    rewrite HsX, HsY, HsM, indicator_length, !length_take, !length_drop.
    fold L. rewrite <- Hlen. fold L. lia.
Qed.
End PairBodyRows.

(** X23.  The blocks of the body of the pair format partition the
    alignment.  For two traces of the same length and two identifiers the
    report takes (longer than one character, not starting with a space),
    the report is written and, put one after the other, the [trace_X] rows
    give [trace_X], the [trace_Y] rows give [trace_Y] and the indicator
    rows give the indicator of the whole alignment; every block has between
    1 and 50 columns and its three rows have the same number of columns. *)
Theorem pair_alignment_body_partition
    (query_sequence_identifier sequence_identifier trace_X trace_Y
       : list ascii) :
  length trace_X = length trace_Y ->
  report_identifier sequence_identifier ->
  report_identifier query_sequence_identifier ->
  exists body : list body_segment,
    pair_alignment_body query_sequence_identifier sequence_identifier
      trace_X trace_Y = Some body
    /\ concat (map (fun seg => line_alignment (segment_X seg)) body) = trace_X
    /\ concat (map (fun seg => line_alignment (segment_Y seg)) body) = trace_Y
    /\ concat (map segment_matches body)
       = indicator trace_X trace_Y 0 (length trace_X)
    /\ Forall (fun seg =>
                 (1 <= length (segment_matches seg) <= 50)%nat
                 /\ length (line_alignment (segment_X seg))
                    = length (segment_matches seg)
                 /\ length (line_alignment (segment_Y seg))
                    = length (segment_matches seg)) body.
Proof.
  intros Hlen Hsid Hqid.
  destruct (pair_alignment_body_shows query_sequence_identifier
              sequence_identifier trace_X trace_Y Hlen Hsid Hqid)
    as (body & Hbody & (HX & HY & HM) & Hall).
  exists body. split; [exact Hbody|].
  rewrite HX, HY, HM, !take_ge by lia.
  repeat split. exact Hall.
Qed.

Lemma pair_alignment_body_partition_witness :
  exists body : list body_segment,
    pair_alignment_body (chars ">query") (chars ">read 1")
      (chars "AC-T") (chars "A-GT") = Some body
    /\ concat (map (fun seg => line_alignment (segment_X seg)) body)
       = chars "AC-T".
Proof.
  destruct (pair_alignment_body_partition (chars ">query") (chars ">read 1")
              (chars "AC-T") (chars "A-GT") eq_refl)
    as (body & Hbody & HX & _).
  - split; [cbn; lia|discriminate].
  - split; [cbn; lia|discriminate].
  - exists body. split; [exact Hbody|exact HX].
Defined.

Lemma bars_app (l1 l2 : list ascii) : bars (l1 ++ l2) = bars l1 + bars l2.
Proof. induction l1 as [|c l1 IH]; cbn [app bars]; lia. Qed.

Lemma bars_indicator (trace_X trace_Y : list ascii) (n : nat) :
  Z.of_nat n < UINT64_MOD ->
  bars (indicator trace_X trace_Y 0 n)
  = identical (count_loop trace_X trace_Y n).
Proof.
  induction n as [|n IH]; intros Hn; [reflexivity|].
  replace (S n) with (n + 1)%nat at 1 by lia.
  rewrite <- indicator_app, bars_app, IH by lia.
  rewrite count_loop_S.
  pose proof (count_loop_bounds trace_X trace_Y n ltac:(lia)) as Hb.
  cbn zeta in Hb. destruct Hb as (Hi & _ & _ & Hm & Hsum).
  rewrite (indicator_absolute trace_X trace_Y n 1).
  unfold count_column. cbn [seq map bars].
  destruct (Ascii.eqb (char_at trace_X n) (char_at trace_Y n));
    destruct (Ascii.eqb (char_at trace_X n) GAP);
    try destruct (Ascii.eqb (char_at trace_Y n) GAP);
    cbn [identical Ascii.eqb Bool.eqb]; rewrite ?incr_u64_small by lia;
    cbn; lia.
Qed.

(** X24.  For two traces of the same length and two identifiers the
    report takes, the number of ['|'] the body of the pair format shows
    equals the [identical] counter of [count_mismatches] on the same two
    strings: a column is marked exactly when it holds the same character,
    not a gap, in both rows. *)
Theorem pair_alignment_body_bars
    (query_sequence_identifier sequence_identifier trace_X trace_Y
       : list ascii) :
  length trace_X = length trace_Y ->
  Z.of_nat (length trace_X) < UINT64_MOD ->
  report_identifier sequence_identifier ->
  report_identifier query_sequence_identifier ->
  exists (body : list body_segment) (c : counters),
    pair_alignment_body query_sequence_identifier sequence_identifier
      trace_X trace_Y = Some body
    /\ count_mismatches trace_X trace_Y = Some c
    /\ bars (concat (map segment_matches body)) = identical c.
Proof.
  intros Hlen Hsize Hsid Hqid.
  destruct (pair_alignment_body_shows query_sequence_identifier
              sequence_identifier trace_X trace_Y Hlen Hsid Hqid)
    as (body & Hbody & (_ & _ & HM) & _).
  exists body. eexists. split; [exact Hbody|].
  unfold count_mismatches. rewrite Hlen, Nat.eqb_refl, <- Hlen.
  split; [reflexivity|].
  rewrite HM. apply bars_indicator. exact Hsize.
Qed.

Lemma pair_alignment_body_bars_witness :
  exists (body : list body_segment) (c : counters),
    pair_alignment_body (chars ">query") (chars ">read 1")
      (chars "AC-T") (chars "A-GT") = Some body
    /\ count_mismatches (chars "AC-T") (chars "A-GT") = Some c
    /\ bars (concat (map segment_matches body)) = identical c.
Proof.
  apply (pair_alignment_body_bars (chars ">query") (chars ">read 1")
           (chars "AC-T") (chars "A-GT") eq_refl).
  - vm_compute. reflexivity.
  - split; [cbn; lia|discriminate].
  - split; [cbn; lia|discriminate].
Defined.

(** ** Lines of a file *)

Lemma map_char_at_seq (s : list ascii) (a n : nat) :
  (a + n <= length s)%nat ->
  map (char_at s) (seq a n) = take n (drop a s).
Proof.
  revert a. induction n as [|n IH]; intros a Ha.
  - rewrite take_0. reflexivity.
  - cbn [seq map]. rewrite IH by lia.
    destruct (lookup_lt_is_Some_2 s a ltac:(lia)) as [c Hc].
    rewrite (drop_S s c a Hc), char_at_lookup, Hc. reflexivity.
Qed.

Lemma chomp_snoc (l : list ascii) (c : ascii) :
  chomp (l ++ [c]) = if Ascii.eqb c CR then l else l ++ [c].
Proof.
  unfold chomp. rewrite rev_unit.
  destruct (Ascii.eqb c CR); [apply rev_involutive|reflexivity].
Qed.

Lemma chomp_no_NUL (l : list ascii) : ~ In NUL l -> ~ In NUL (chomp l).
Proof.
  induction l as [|c l _] using rev_ind; [intros H; exact H|].
  rewrite chomp_snoc. intros H.
  destruct (Ascii.eqb c CR); [|exact H].
  intros Hin. apply H, in_or_app. left. exact Hin.
Qed.

Lemma not_In_Forall (x : ascii) (l : list ascii) :
  ~ In x l -> Forall (fun c => c <> x) l.
Proof.
  intros H. apply List.Forall_forall. intros c Hc ->. contradiction.
Qed.

Lemma In_take_drop (x : ascii) (n k : nat) (l : list ascii) :
  In x (take n (drop k l)) -> In x l.
Proof.
  intros H. rewrite <- (take_drop k l). apply in_or_app. right.
  rewrite <- (take_drop n (drop k l)). apply in_or_app. left. exact H.
Qed.

(** The string [extract_line] returns for a line of [line_length >= 1]
    bytes that ends just before [data[idx]]. *)
Lemma extract_line_string (prior : nat -> ascii) (data : list ascii)
    (idx line_length : nat) :
  (1 <= line_length <= idx)%nat -> (idx <= length data)%nat ->
  let line := take line_length (drop (idx - line_length) data) in
  ~ In NUL line ->
  exists buf : list ascii,
    extract_line prior data idx line_length = Some buf
    /\ length buf = S line_length
    /\ c_str buf = chomp line.
Proof.
  intros Hlen Hidx line Hnul. unfold extract_line. cbn zeta.
  rewrite map_char_at_seq by lia. fold line.
  assert (length line = line_length) as Hl
    by (subst line; rewrite length_take, length_drop; lia).
  set (line0 := <[ line_length := NUL ]> (malloc prior (S line_length))).
  assert (store 0 line line0 = line ++ [NUL]) as ->.
  { unfold store. rewrite take_0, Hl. cbn [app Nat.add]. f_equal.
    subst line0.
    rewrite insert_take_drop by (rewrite malloc_length; lia).
    rewrite drop_app_length'
      by (rewrite length_take, malloc_length; lia).
    rewrite drop_ge by (rewrite malloc_length; lia). reflexivity. }
  destruct (Nat.eqb_spec line_length 0) as [?|_]; [lia|].
  induction line as [|c l _] using rev_ind; [cbn in Hl; lia|].
  rewrite length_app in Hl. cbn [length] in Hl.
  assert (~ In NUL l) as Hnl
    by (intros Hin; apply Hnul, in_or_app; left; exact Hin).
  assert (char_at ((l ++ [c]) ++ [NUL]) (line_length - 1) = c) as ->.
  { unfold char_at. rewrite <- app_assoc.
    replace (line_length - 1)%nat with (length l + 0)%nat by lia.
    rewrite app_nth2_plus. reflexivity. }
  rewrite chomp_snoc.
  destruct (Ascii.eqb_spec c CR) as [->|Hc].
  - eexists. split; [reflexivity|]. split.
    + rewrite length_insert, !length_app. cbn [length]. lia.
    + rewrite <- app_assoc.
      replace (line_length - 1)%nat with (length l + 0)%nat by lia.
      rewrite insert_app_r. cbn [app].
      change (<[ 0%nat := NUL ]> (CR :: [NUL])) with ([NUL; NUL]).
      apply c_str_terminated, not_In_Forall, Hnl.
  - eexists. split; [reflexivity|]. split.
    + rewrite !length_app. cbn [length]. lia.
    + rewrite <- (app_nil_r [NUL]).
      change ([NUL] ++ []) with (NUL :: @nil ascii).
      apply c_str_terminated, not_In_Forall, Hnul.
Qed.

(** X25.  [extract_line] copies the [line_length] bytes that end just
    before [data[idx]] into a fresh block and terminates them: the string
    it returns is the line without one final carriage return, whatever the
    block held.  An empty line ([line_length] 0) makes the test of the
    carriage return read the byte before the block. *)
Theorem extract_line_chomp (prior : nat -> ascii) (data : list ascii)
    (idx line_length : nat) :
  (line_length <= idx)%nat -> (idx <= length data)%nat ->
  ~ In NUL data ->
  let line := take line_length (drop (idx - line_length) data) in
  match extract_line prior data idx line_length with
  | Some buf =>
      (1 <= line_length)%nat
      /\ length buf = S line_length /\ c_str buf = chomp line
  | None => line_length = 0%nat
  end.
Proof.
  intros Hlen Hidx Hnul line.
  destruct (Nat.eq_dec line_length 0%nat) as [->|Hne].
  - reflexivity.
  - destruct (extract_line_string prior data idx line_length
                ltac:(lia) Hidx) as (buf & -> & Hl & Hs).
    + intros Hin. apply Hnul. eapply In_take_drop. exact Hin.
    + split; [lia|]. split; assumption.
Qed.

Lemma extract_line_chomp_witness :
  match extract_line (fun _ => "?"%char) (chars "@r1" ++ [CR; LF]) 4 4 with
  | Some buf =>
      (1 <= 4)%nat /\ length buf = 5%nat
      /\ c_str buf = chomp (take 4 (drop (4 - 4) (chars "@r1" ++ [CR; LF])))
  | None => 4%nat = 0%nat
  end.
Proof.
  apply (extract_line_chomp (fun _ => "?"%char) (chars "@r1" ++ [CR; LF]) 4 4).
  - lia.
  - cbn. lia.
  - cbn. intros H. repeat (destruct H as [H|H]; [discriminate|]). exact H.
Defined.

Ltac app_normal := repeat progress (rewrite <- ?app_assoc; cbn [app]).

Lemma char_at_middle (pre line post : list ascii) (i : nat) :
  (i < length line)%nat ->
  char_at (pre ++ line ++ post) (length pre + i) = char_at line i.
Proof.
  intros Hi. unfold char_at. rewrite app_nth2_plus. apply app_nth1. exact Hi.
Qed.

Lemma char_at_after (pre line post : list ascii) (c : ascii) :
  char_at (pre ++ line ++ c :: post) (length pre + length line) = c.
Proof.
  unfold char_at. rewrite app_nth2_plus.
  replace (length line) with (length line + 0)%nat by lia.
  rewrite app_nth2_plus. reflexivity.
Qed.

Lemma char_at_line_not_LF (pre line post : list ascii) (i : nat) :
  ~ In LF line ->
  (length pre <= i < length pre + length line)%nat ->
  char_at (pre ++ line ++ post) i <> LF.
Proof.
  intros Hno Hi.
  replace i with (length pre + (i - length pre))%nat by lia.
  rewrite char_at_middle by lia. intros E.
  apply Hno. rewrite <- E. apply char_at_In. lia.
Qed.

Lemma take_drop_line (pre line post : list ascii) :
  take (length line)
    (drop (length pre + length line - length line) (pre ++ line ++ post))
  = line.
Proof.
  replace (length pre + length line - length line)%nat with (length pre)
    by lia.
  rewrite drop_app_length, take_app_length. reflexivity.
Qed.

Lemma fold_left_seq_fixed {A : Type} (f : A -> nat -> A) (a : A)
    (start n : nat) :
  (forall i, (start <= i < start + n)%nat -> f a i = a) ->
  fold_left f (seq start n) a = a.
Proof.
  induction n as [|n IH]; intros H; [reflexivity|].
  rewrite fold_left_seq_S, IH by (intros i Hi; apply H; lia).
  apply H. lia.
Qed.

Lemma incr_u64_mod_4 (c : Z) : incr_u64 c mod 4 = (c mod 4 + 1) mod 4.
Proof.
  unfold incr_u64, UINT64_MOD.
  rewrite Z.mod_mod_divide by (exists (2 ^ 62); reflexivity).
  rewrite Z.add_mod by lia. rewrite (Z.mod_small 1 4) by lia. reflexivity.
Qed.

Lemma unlines_cons (line : list ascii) (lines : list (list ascii)) :
  unlines (line :: lines) = line ++ LF :: unlines lines.
Proof. unfold unlines. cbn [flat_map]. rewrite <- app_assoc. reflexivity. Qed.

Lemma unlines_app (l1 l2 : list (list ascii)) :
  unlines (l1 ++ l2) = unlines l1 ++ unlines l2.
Proof. unfold unlines. apply flat_map_app. Qed.

(** ** The loop over the lines of a FASTQ file *)

Section FastqScan.
Context {Out : Type}.
Variable body : nat -> fastq_record -> option Out.
Variable line_prior : nat -> nat -> ascii.
Variable data : list ascii.

Local Abbreviation step := (fastq_step body line_prior data).

(** Once the loop has stopped it stays stopped. *)
Lemma fold_left_fastq_step_None (indices : list nat) :
  fold_left step indices None = None.
Proof. induction indices as [|i l IH]; [reflexivity|exact IH]. Qed.

(** The passes over one line and its line feed. *)
Lemma fastq_line_scan (pre line post : list ascii) (s : fastq_state Out) :
  data = pre ++ line ++ LF :: post -> ~ In LF line ->
  fold_left step (seq (length pre) (S (length line))) (Some s)
  = fastq_newline body line_prior data s (length pre + length line).
Proof.
  intros Hdata Hno. rewrite fold_left_seq_S.
  rewrite fold_left_seq_fixed.
  - unfold fastq_step. rewrite Hdata, char_at_after. reflexivity.
  - intros i Hi. unfold fastq_step.
    destruct (Ascii.eqb_spec (char_at data i) LF) as [E|_]; [|reflexivity].
    exfalso. rewrite Hdata in E.
    exact (char_at_line_not_LF pre line (LF :: post) i Hno Hi E).
Qed.

Lemma fastq_extract_line (pre line post : list ascii) (p : nat -> ascii) :
  data = pre ++ line ++ LF :: post -> line <> [] -> ~ In NUL line ->
  exists buf : list ascii,
    extract_line p data (length pre + length line) (length line) = Some buf
    /\ c_str buf = chomp line.
Proof.
  intros Hdata Hne Hnul.
  assert (1 <= length line)%nat as Hl by (destruct line; cbn; [congruence|lia]).
  destruct (extract_line_string p data (length pre + length line)
              (length line) ltac:(lia)) as (buf & Hbuf & _ & Hs).
  - rewrite Hdata, !length_app. cbn [length]. lia.
  - rewrite Hdata, take_drop_line. exact Hnul.
  - exists buf. split; [exact Hbuf|].
    rewrite Hs, Hdata, take_drop_line. reflexivity.
Qed.

(** The passes over the four lines of a record: the three strings are
    extracted and the body of the fourth line is run on them, at the index
    of the line feed of the fourth line. *)
Lemma fastq_record_scan (pre post a b c d : list ascii)
    (s : fastq_state Out) :
  data = pre ++ unlines [a; b; c; d] ++ post ->
  a <> [] -> b <> [] -> d <> [] ->
  text_line a -> text_line b -> text_line c -> text_line d ->
  fq_last_newline s = length pre ->
  fq_line_count s mod 4 = 0 ->
  let record := {| fq_id := chomp a; fq_bases := chomp b;
                   fq_quality := chomp d |} in
  exists i : nat,
    fold_left step (seq (length pre) (length (unlines [a; b; c; d]))) (Some s)
    = match body i record with
      | None => None
      | Some out =>
          Some {| fq_line_count :=
                    incr_u64 (incr_u64 (incr_u64 (incr_u64
                                                    (fq_line_count s))));
                  fq_last_newline :=
                    (length pre + length (unlines [a; b; c; d]))%nat;
                  fq_sequence_id := None; fq_sequence := None;
                  fq_records := fq_records s ++ [(record, out)] |}
      end.
Proof.
  intros Hdata Ha Hb Hd [HaL HaN] [HbL HbN] [HcL _] [HdL HdN] Hlast Hcount.
  cbn zeta.
  exists (length (pre ++ a ++ LF :: b ++ LF :: c ++ [LF]) + length d)%nat.
  rewrite !unlines_cons in *. change (unlines []) with (@nil ascii) in *.
  assert (data = pre ++ a ++ LF :: (b ++ LF :: c ++ LF :: d ++ LF :: post))
    as H1 by (rewrite Hdata; app_normal; reflexivity).
  assert (data = (pre ++ a ++ [LF]) ++ b ++ LF :: (c ++ LF :: d ++ LF :: post))
    as H2 by (rewrite Hdata; app_normal; reflexivity).
  assert (data = (pre ++ a ++ LF :: b ++ [LF]) ++ c ++ LF :: (d ++ LF :: post))
    as H3 by (rewrite Hdata; app_normal; reflexivity).
  assert (data = (pre ++ a ++ LF :: b ++ LF :: c ++ [LF]) ++ d ++ LF :: post)
    as H4 by (rewrite Hdata; app_normal; reflexivity).
  assert (length (pre ++ a ++ [LF]) = S (length pre + length a)) as L2
    by (rewrite !length_app; cbn [length]; lia).
  assert (length (pre ++ a ++ LF :: b ++ [LF])
          = S (S (length pre + length a) + length b)) as L3
    by (rewrite !length_app; cbn [length]; rewrite length_app; cbn [length];
        lia).
  assert (length (pre ++ a ++ LF :: b ++ LF :: c ++ [LF])
          = S (S (S (length pre + length a) + length b) + length c)) as L4
    by (rewrite !length_app; cbn [length]; rewrite length_app; cbn [length];
        rewrite length_app; cbn [length]; lia).
  replace (length (a ++ LF :: b ++ LF :: c ++ LF :: d ++ [LF]))
    with (S (length a) + (S (length b) + (S (length c) + S (length d))))%nat
    by (rewrite !length_app; cbn [length]; rewrite length_app; cbn [length];
        rewrite length_app; cbn [length]; rewrite length_app; cbn [length];
        lia).
  rewrite !seq_app, !fold_left_app.
  (* first line: the identifier *)
  rewrite (fastq_line_scan pre a _ s H1 HaL).
  destruct (fastq_extract_line pre a _ (line_prior (length pre + length a)) H1 Ha HaN)
    as (bufa & Hbufa & Hsa).
  unfold fastq_newline at 1. rewrite incr_u64_mod_4, Hcount, Hlast.
  change ((0 + 1) mod 4) with 1. cbn [Z.eqb Pos.eqb].
  replace (length pre + length a - length pre)%nat with (length a) by lia.
  rewrite Hbufa.
  (* second line: the sequence *)
  replace (length pre + S (length a))%nat with (length (pre ++ a ++ [LF])) by lia.
  rewrite (fastq_line_scan _ b _ _ H2 HbL).
  destruct (fastq_extract_line _ b _
              (line_prior (length (pre ++ a ++ [LF]) + length b)) H2 Hb HbN)
    as (bufb & Hbufb & Hsb).
  unfold fastq_newline at 1.
  cbn [fq_line_count fq_last_newline fq_sequence_id fq_sequence fq_records].
  rewrite !incr_u64_mod_4, Hcount.
  change (((0 + 1) mod 4 + 1) mod 4) with 2. cbn [Z.eqb Pos.eqb].
  replace (length (pre ++ a ++ [LF]) + length b - S (length pre + length a))%nat
    with (length b) by lia.
  rewrite Hbufb.
  (* third line: ignored *)
  replace (length (pre ++ a ++ [LF]) + S (length b))%nat
    with (length (pre ++ a ++ LF :: b ++ [LF])) by lia.
  rewrite (fastq_line_scan _ c _ _ H3 HcL).
  unfold fastq_newline at 1.
  cbn [fq_line_count fq_last_newline fq_sequence_id fq_sequence fq_records].
  rewrite !incr_u64_mod_4, Hcount.
  change ((((0 + 1) mod 4 + 1) mod 4 + 1) mod 4) with 3. cbn [Z.eqb Pos.eqb].
  (* fourth line: the quality scores and the two alignments *)
  replace (length (pre ++ a ++ LF :: b ++ [LF]) + S (length c))%nat
    with (length (pre ++ a ++ LF :: b ++ LF :: c ++ [LF])) by lia.
  rewrite (fastq_line_scan _ d _ _ H4 HdL).
  destruct (fastq_extract_line _ d _
              (line_prior (length (pre ++ a ++ LF :: b ++ LF :: c ++ [LF])
                           + length d)) H4 Hd HdN)
    as (bufd & Hbufd & Hsd).
  unfold fastq_newline.
  cbn [fq_line_count fq_last_newline fq_sequence_id fq_sequence fq_records].
  rewrite !incr_u64_mod_4, Hcount.
  change (((((0 + 1) mod 4 + 1) mod 4 + 1) mod 4 + 1) mod 4) with 0.
  cbn [Z.eqb Pos.eqb].
  replace (length (pre ++ a ++ LF :: b ++ LF :: c ++ [LF]) + length d
           - S (length (pre ++ a ++ LF :: b ++ [LF]) + length c))%nat
    with (length d) by lia.
  rewrite Hbufd, Hsa, Hsb, Hsd.
  destruct (body _ _) as [out|]; [|reflexivity].
  do 2 f_equal. lia.
Qed.
End FastqScan.

(** The passes over a run of records: the loop stops at the first record on
    which its body does not return and otherwise keeps them all. *)
Lemma fastq_records_scan {Out : Type}
    (body : nat -> fastq_record -> option Out)
    (line_prior : nat -> nat -> ascii)
    (data tail post : list ascii)
    (rs : list (list ascii * list ascii * list ascii * list ascii)) :
  Forall fastq_well_formed rs -> ~ In LF tail ->
  forall (pre : list ascii) (s : fastq_state Out),
    data = pre ++ fastq_text rs ++ tail ++ post ->
    fq_last_newline s = length pre ->
    fq_line_count s mod 4 = 0 ->
    match fold_left (fastq_step body line_prior data)
            (seq (length pre) (length (fastq_text rs ++ tail))) (Some s) with
    | None =>
        exists (r : list ascii * list ascii * list ascii * list ascii)
          (i : nat),
          In r rs /\ body i (fastq_record_of r) = None
    | Some s' =>
        fq_last_newline s' = (length pre + length (fastq_text rs))%nat
        /\ fq_line_count s' mod 4 = 0
        /\ (exists kept,
              fq_records s' = fq_records s ++ kept
              /\ map fst kept = map fastq_record_of rs
              /\ Forall (fun ro => exists i : nat,
                           body i (fst ro) = Some (snd ro)) kept)
    end.
Proof.
  intros Hwf Htail. induction Hwf as [|[[[a b] c] d] rs Hr _ IH];
    intros pre s Hdata Hlast Hcount.
  - cbn [fastq_text flat_map app map length].
    rewrite fold_left_seq_fixed.
    + split; [lia|]. split; [exact Hcount|].
      exists []. rewrite app_nil_r. repeat split. constructor.
    + intros i Hi. unfold fastq_step.
      destruct (Ascii.eqb_spec (char_at data i) LF) as [E|_]; [|reflexivity].
      exfalso. rewrite Hdata in E. cbn [fastq_text flat_map app] in E.
      exact (char_at_line_not_LF pre tail post i Htail Hi E).
  - destruct Hr as (Ha & Hb & Hd & HaT & HbT & HcT & HdT).
    change (fastq_text ((a, b, c, d) :: rs))
      with (unlines [a; b; c; d] ++ fastq_text rs) in *.
    rewrite <- app_assoc in Hdata |- *.
    rewrite length_app, seq_app, fold_left_app.
    destruct (fastq_record_scan body line_prior data pre
                (fastq_text rs ++ tail ++ post)
                a b c d s Hdata Ha Hb Hd HaT HbT HcT HdT Hlast Hcount)
      as (i & ->). cbn zeta.
    destruct (body i {| fq_id := chomp a; fq_bases := chomp b;
                        fq_quality := chomp d |}) as [out|] eqn:Hout.
    2:{ rewrite fold_left_fastq_step_None.
        exists (a, b, c, d), i. split; [left; reflexivity|exact Hout]. }
    set (s1 := {| fq_line_count := _ |}).
    specialize (IH (pre ++ unlines [a; b; c; d]) s1).
    rewrite length_app in IH.
    destruct (fold_left _ (seq (length pre + length (unlines [a; b; c; d])) _)
                (Some s1)) as [s'|].
    + destruct IH as (Hlast' & Hcount' & kept & Hkept & Hmap & Hall).
      * rewrite Hdata, <- app_assoc. reflexivity.
      * reflexivity.
      * subst s1. cbn [fq_line_count]. rewrite !incr_u64_mod_4, Hcount.
        reflexivity.
      * split; [rewrite Hlast', !length_app; lia|].
        split; [exact Hcount'|].
        exists (({| fq_id := chomp a; fq_bases := chomp b;
                    fq_quality := chomp d |}, out) :: kept).
        split; [rewrite Hkept; subst s1; cbn [fq_records];
                rewrite <- app_assoc; reflexivity|].
        split; [cbn [map fst fastq_record_of]; rewrite Hmap; reflexivity|].
        constructor; [exists i; exact Hout|exact Hall].
    + destruct IH as (r & j & Hin & Hnone).
      * rewrite Hdata, <- app_assoc. reflexivity.
      * reflexivity.
      * subst s1. cbn [fq_line_count]. rewrite !incr_u64_mod_4, Hcount.
        reflexivity.
      * exists r, j. split; [right; exact Hin|exact Hnone].
Qed.


Ltac absent :=
  cbn; let H := fresh in
       intros H; repeat (destruct H as [H|H]; [discriminate|]); exact H.


(** X27.  A blank line where the identifier of a record is expected, for
    instance one more line feed after the last record of the file, makes
    [extract_line] read the byte before the block it has just allocated:
    the behaviour of the loop is undefined from there, whatever follows and
    whatever the body of the loop does with the records before it. *)
Theorem fastq_records_blank_line {Out : Type}
    (body : nat -> fastq_record -> option Out)
    (line_prior : nat -> nat -> ascii)
    (rs : list (list ascii * list ascii * list ascii * list ascii))
    (rest : list ascii) :
  Forall fastq_well_formed rs ->
  fastq_records body line_prior (fastq_text rs ++ LF :: rest) = None.
Proof.
  intros Hwf. unfold fastq_records.
  set (data := fastq_text rs ++ LF :: rest).
  pose proof (fastq_records_scan body line_prior data [] (LF :: rest) rs
                Hwf ltac:(intros []) []
                {| fq_line_count := 0; fq_last_newline := 0;
                   fq_sequence_id := None; fq_sequence := None;
                   fq_records := [] |} eq_refl eq_refl eq_refl)
    as Hscan.
  cbn [length Nat.add] in Hscan. rewrite app_nil_r in Hscan.
  replace (length data)
    with (length (fastq_text rs) + S (length rest))%nat
    by (subst data; rewrite length_app; reflexivity).
  rewrite seq_app, fold_left_app.
  destruct (fold_left _ (seq 0 (length (fastq_text rs))) _) as [s'|].
  2:{ rewrite fold_left_fastq_step_None. reflexivity. }
  destruct Hscan as (Hlast & Hcount & _).
  cbn [Nat.add seq fold_left].
  assert (fastq_step body line_prior data (Some s') (length (fastq_text rs))
          = None) as ->.
  { unfold fastq_step.
    assert (char_at data (length (fastq_text rs)) = LF) as ->.
    { subst data. unfold char_at.
      replace (length (fastq_text rs))
        with (length (fastq_text rs) + 0)%nat at 1 by lia.
      rewrite app_nth2_plus. reflexivity. }
    change (Ascii.eqb LF LF) with true. cbn match.
    unfold fastq_newline. rewrite incr_u64_mod_4, Hcount, Hlast.
    change ((0 + 1) mod 4) with 1. cbn [Z.eqb Pos.eqb].
    rewrite Nat.sub_diag. unfold extract_line. reflexivity. }
  rewrite fold_left_fastq_step_None. reflexivity.
Qed.

Lemma fastq_records_blank_line_witness :
  fastq_records (fun _ (_ : fastq_record) => Some tt) (fun _ _ => "?"%char)
    (fastq_text [(chars "@r1", chars "ACGT", chars "+", chars "IIII")]
     ++ LF :: [])
  = None.
Proof.
  apply (fastq_records_blank_line (fun _ (_ : fastq_record) => Some tt)
           (fun _ _ => "?"%char)
           [(chars "@r1", chars "ACGT", chars "+", chars "IIII")] []).
  constructor; [|constructor].
  split; [discriminate|]. split; [discriminate|]. split; [discriminate|].
  repeat split; absent.
Defined.

(** ** FASTA *)

Lemma scan_loop_app {St R : Type} (step : St -> nat -> R + St)
    (l1 l2 : list nat) (st : St) :
  scan_loop step (l1 ++ l2) st
  = match scan_loop step l1 st with
    | inl r => inl r
    | inr st' => scan_loop step l2 st'
    end.
Proof.
  revert st. induction l1 as [|i l1 IH]; intros st; [reflexivity|].
  cbn [app scan_loop]. destruct (step st i); [reflexivity|apply IH].
Qed.

Lemma scan_loop_fixed {St R : Type} (step : St -> nat -> R + St) (st : St)
    (start n : nat) :
  (forall i, (start <= i < start + n)%nat -> step st i = inr st) ->
  scan_loop step (seq start n) st = inr st.
Proof.
  revert start. induction n as [|n IH]; intros start H; [reflexivity|].
  cbn [seq scan_loop]. rewrite H by lia. apply IH. intros i Hi. apply H. lia.
Qed.

(** The passes of a loop that only acts on line feeds over one line and
    its line feed. *)
Lemma scan_line {St R : Type} (step : St -> nat -> R + St) (data : list ascii)
    (pre line post : list ascii) (st : St) :
  (forall st i, char_at data i <> LF -> step st i = inr st) ->
  data = pre ++ line ++ LF :: post -> ~ In LF line ->
  scan_loop step (seq (length pre) (S (length line))) st
  = step st (length pre + length line)%nat.
Proof.
  intros Hskip Hdata Hno.
  replace (S (length line)) with (length line + 1)%nat by lia.
  rewrite seq_app, scan_loop_app, scan_loop_fixed.
  - cbn [seq scan_loop]. destruct (step st _); reflexivity.
  - intros i Hi. apply Hskip. rewrite Hdata.
    apply char_at_line_not_LF; assumption.
Qed.

Lemma scan_tail {St R : Type} (step : St -> nat -> R + St) (data : list ascii)
    (pre tail : list ascii) (st : St) :
  (forall st i, char_at data i <> LF -> step st i = inr st) ->
  data = pre ++ tail -> ~ In LF tail ->
  scan_loop step (seq (length pre) (length tail)) st = inr st.
Proof.
  intros Hskip Hdata Hno. apply scan_loop_fixed.
  intros i Hi. apply Hskip. rewrite Hdata, <- (app_nil_r tail).
  apply char_at_line_not_LF; assumption.
Qed.

Lemma char_at_line_start (pre line post : list ascii) :
  char_at (pre ++ line ++ LF :: post) (length pre)
  = char_at (line ++ [LF]) 0.
Proof.
  unfold char_at.
  rewrite <- (Nat.add_0_r (length pre)), app_nth2_plus.
  destruct line; reflexivity.
Qed.

Lemma char_at_line_last (pre line post : list ascii) :
  line <> [] ->
  char_at (pre ++ line ++ post) (length pre + length line - 1)
  = char_at line (length line - 1).
Proof.
  intros Hne.
  assert (1 <= length line)%nat by (destruct line; cbn; [congruence|lia]).
  replace (length pre + length line - 1)%nat
    with (length pre + (length line - 1))%nat by lia.
  apply char_at_middle. lia.
Qed.

(** The bytes the loops copy from a line of the sequence. *)
Lemma chomp_length (line : list ascii) :
  line <> [] ->
  length (chomp line)
  = if Ascii.eqb (char_at line (length line - 1)) CR
    then (length line - 1)%nat else length line.
Proof.
  intros Hne. induction line as [|c l _] using rev_ind; [congruence|].
  rewrite chomp_snoc, length_app. cbn [length].
  replace (length l + 1 - 1)%nat with (length l + 0)%nat by lia.
  unfold char_at. rewrite app_nth2_plus. cbn [nth].
  destruct (Ascii.eqb c CR); [lia|]. rewrite length_app. cbn. lia.
Qed.

Lemma chomp_take (line : list ascii) :
  chomp line = take (length (chomp line)) line.
Proof.
  induction line as [|c l _] using rev_ind; [reflexivity|].
  rewrite chomp_snoc.
  destruct (Ascii.eqb c CR).
  - rewrite take_app_length. reflexivity.
  - rewrite take_ge by lia. reflexivity.
Qed.

Section FastaLength.
Variable data : list ascii.

Local Abbreviation step := (fasta_length_step data).

Lemma fasta_length_skip (st : fasta_length_state) (i : nat) :
  char_at data i <> LF -> step st i = inr st.
Proof.
  intros H. unfold fasta_length_step.
  destruct (Ascii.eqb_spec (char_at data i) LF); [contradiction|reflexivity].
Qed.

(** The pass on the line feed of a line, in terms of the line. *)
Lemma fasta_length_newline (pre line post : list ascii)
    (seen : bool) (sequence_length : nat) :
  data = pre ++ line ++ LF :: post ->
  let first := char_at (line ++ [LF]) 0 in
  let n := length line in
  let continue (seen : bool) (m : nat) :=
    inr {| fl_encountered_sequence_identifier := seen;
           fl_sequence_length := m;
           fl_last_newline := S (length pre + n) |} in
  step {| fl_encountered_sequence_identifier := seen;
          fl_sequence_length := sequence_length;
          fl_last_newline := length pre |}
       (length pre + length line)%nat
  = if negb seen then
      if Ascii.eqb first ">" then continue true sequence_length
      else if Ascii.eqb first ";" || Ascii.eqb first LF
      then continue false sequence_length
      else inl sequence_length
    else
      if Ascii.eqb first ">" then inl sequence_length
      else if Ascii.eqb first ";" then continue true sequence_length
      else if (n =? 0)%nat then inl sequence_length
      else if Ascii.eqb (char_at line (n - 1)) CR then
        if (n =? 1)%nat then inl sequence_length
        else continue true (sequence_length + n - 1)%nat
      else continue true (sequence_length + n)%nat.
Proof.
  intros Hdata. cbn zeta.
  assert (char_at data (length pre + length line) = LF) as E1
    by (rewrite Hdata; apply char_at_after).
  assert (char_at data (length pre) = char_at (line ++ [LF]) 0) as E2
    by (rewrite Hdata; apply char_at_line_start).
  assert (line <> [] ->
          char_at data (length pre + length line - 1)
          = char_at line (length line - 1)) as E3
    by (intros Hne; rewrite Hdata; apply char_at_line_last; exact Hne).
  unfold fasta_length_step. rewrite E1.
  change (Ascii.eqb LF LF) with true. cbn match.
  cbn [fl_encountered_sequence_identifier fl_sequence_length fl_last_newline].
  replace (length pre + length line - length pre)%nat with (length line)
    by lia.
  replace (length pre + length line - length line)%nat with (length pre)
    by lia.
  rewrite !E2.
  destruct line as [|c l] eqn:El.
  - cbn [length Nat.eqb]. rewrite Nat.add_0_r. reflexivity.
  - rewrite <- El in *. rewrite E3 by (rewrite El; discriminate).
    reflexivity.
Qed.

(** The passes over a whole line and its line feed. *)
Lemma fasta_length_line (pre line post : list ascii)
    (seen : bool) (sequence_length : nat) :
  data = pre ++ line ++ LF :: post -> ~ In LF line ->
  scan_loop step (seq (length pre) (S (length line)))
    {| fl_encountered_sequence_identifier := seen;
       fl_sequence_length := sequence_length;
       fl_last_newline := length pre |}
  = step {| fl_encountered_sequence_identifier := seen;
            fl_sequence_length := sequence_length;
            fl_last_newline := length pre |}
         (length pre + length line)%nat.
Proof.
  intros Hdata Hno.
  exact (scan_line step data pre line post _ fasta_length_skip Hdata Hno).
Qed.

(** Comment lines and empty lines before the identifier are skipped. *)
Lemma fasta_length_comments (comments : list (list ascii)) :
  Forall comment_line comments ->
  forall (pre post : list ascii) (sequence_length : nat),
    data = pre ++ unlines comments ++ post ->
    scan_loop step (seq (length pre) (length (unlines comments)))
      {| fl_encountered_sequence_identifier := false;
         fl_sequence_length := sequence_length;
         fl_last_newline := length pre |}
    = inr {| fl_encountered_sequence_identifier := false;
             fl_sequence_length := sequence_length;
             fl_last_newline := (length pre + length (unlines comments))%nat |}.
Proof.
  induction 1 as [|line comments [[HL _] Hline] _ IH];
    intros pre post m Hdata.
  - cbn. rewrite Nat.add_0_r. reflexivity.
  - rewrite unlines_cons in *.
    assert (data = pre ++ line ++ LF :: (unlines comments ++ post)) as Hd
      by (rewrite Hdata; app_normal; reflexivity).
    replace (length (line ++ LF :: unlines comments))
      with (S (length line) + length (unlines comments))%nat
      by (rewrite length_app; cbn [length]; lia).
    rewrite seq_app, scan_loop_app.
    rewrite (fasta_length_line pre line _ false m Hd HL).
    rewrite (fasta_length_newline pre line _ false m Hd). cbn zeta.
    cbn [negb].
    assert (Ascii.eqb (char_at (line ++ [LF]) 0) ">" = false
            /\ Ascii.eqb (char_at (line ++ [LF]) 0) ";"
               || Ascii.eqb (char_at (line ++ [LF]) 0) LF = true) as [-> ->].
    { destruct Hline as [->|Hc]; [split; reflexivity|].
      destruct line as [|c l]; [discriminate|].
      cbn in Hc |- *. rewrite Hc. split; reflexivity. }
    assert (length (pre ++ line ++ [LF]) = S (length pre + length line)) as Hl
      by (rewrite !length_app; cbn [length]; lia).
    replace (length pre + S (length line))%nat
      with (length (pre ++ line ++ [LF])) by lia.
    rewrite <- Hl.
    rewrite (IH (pre ++ line ++ [LF]) post m)
      by (rewrite Hd; app_normal; reflexivity).
    do 2 f_equal. lia.
Qed.

(** The lines of the sequence are added up. *)
Lemma fasta_length_lines (lines : list (list ascii)) :
  Forall sequence_line lines ->
  forall (pre post : list ascii) (sequence_length : nat),
    data = pre ++ unlines lines ++ post ->
    scan_loop step (seq (length pre) (length (unlines lines)))
      {| fl_encountered_sequence_identifier := true;
         fl_sequence_length := sequence_length;
         fl_last_newline := length pre |}
    = inr {| fl_encountered_sequence_identifier := true;
             fl_sequence_length :=
               (sequence_length + length (concat (map chomp lines)))%nat;
             fl_last_newline := (length pre + length (unlines lines))%nat |}.
Proof.
  induction 1 as [|line lines ([HL _] & Hne & Hcr & Hgt & Hsc) _ IH];
    intros pre post m Hdata.
  - cbn. rewrite !Nat.add_0_r. reflexivity.
  - rewrite unlines_cons in *.
    assert (data = pre ++ line ++ LF :: (unlines lines ++ post)) as Hd
      by (rewrite Hdata; app_normal; reflexivity).
    replace (length (line ++ LF :: unlines lines))
      with (S (length line) + length (unlines lines))%nat
      by (rewrite length_app; cbn [length]; lia).
    rewrite seq_app, scan_loop_app.
    rewrite (fasta_length_line pre line _ true m Hd HL).
    rewrite (fasta_length_newline pre line _ true m Hd). cbn zeta.
    cbn [negb].
    assert (1 <= length line)%nat as Hl1
      by (destruct line; cbn; [congruence|lia]).
    assert (char_at (line ++ [LF]) 0 = char_at line 0) as ->
      by (destruct line; [congruence|reflexivity]).
    destruct (Ascii.eqb_spec (char_at line 0) ">"); [contradiction|].
    destruct (Ascii.eqb_spec (char_at line 0) ";"); [contradiction|].
    destruct (Nat.eqb_spec (length line) 0); [lia|].
    pose proof (chomp_length line Hne) as Hchomp.
    assert (length (pre ++ line ++ [LF]) = S (length pre + length line)) as Hl
      by (rewrite !length_app; cbn [length]; lia).
    assert ((if Ascii.eqb (char_at line (length line - 1)) CR
             then if (length line =? 1)%nat
                  then inl m
                  else inr {| fl_encountered_sequence_identifier := true;
                              fl_sequence_length := (m + length line - 1)%nat;
                              fl_last_newline :=
                                S (length pre + length line) |}
             else inr {| fl_encountered_sequence_identifier := true;
                         fl_sequence_length := (m + length line)%nat;
                         fl_last_newline := S (length pre + length line) |})
            = (inr {| fl_encountered_sequence_identifier := true;
                      fl_sequence_length := (m + length (chomp line))%nat;
                      fl_last_newline := length (pre ++ line ++ [LF]) |}
               : nat + fasta_length_state)) as ->.
    { rewrite Hl.
      destruct (Ascii.eqb_spec (char_at line (length line - 1)) CR) as [E|E].
      - destruct (Nat.eqb_spec (length line) 1) as [E1|E1].
        + exfalso. apply Hcr. destruct line as [|c [|c' l]]; cbn in E1; try lia.
          cbn in E. rewrite E. reflexivity.
        + rewrite Hchomp. do 2 f_equal. lia.
      - rewrite Hchomp. reflexivity. }
    replace (length pre + S (length line))%nat
      with (length (pre ++ line ++ [LF])) by lia.
    rewrite (IH (pre ++ line ++ [LF]) post (m + length (chomp line))%nat)
      by (rewrite Hd; app_normal; reflexivity).
    cbn [map concat]. rewrite ?length_app. cbn [length].
    do 2 f_equal; lia.
Qed.
End FastaLength.

(** The sequence length [get_length_fasta_sequence] finds in a FASTA text
    of the shape above. *)
Lemma fasta_length_total (comments : list (list ascii)) (name : list ascii)
    (lines : list (list ascii)) (e : fasta_ending) :
  Forall comment_line comments -> text_line name ->
  Forall sequence_line lines -> ending_ok e ->
  get_length_fasta_sequence (fasta_text comments name lines e)
  = length (concat (map chomp lines)).
Proof.
  intros Hcomments [HnameL _] Hlines He.
  unfold get_length_fasta_sequence.
  set (data := fasta_text comments name lines e).
  assert (data = [] ++ unlines comments
                 ++ (unlines [">"%char :: name] ++ unlines lines ++ ending_text e))
    as HdC by reflexivity.
  assert (data = unlines comments ++ (">"%char :: name)
                 ++ LF :: (unlines lines ++ ending_text e)) as HdH
    by (subst data; unfold fasta_text; rewrite unlines_cons; app_normal;
        reflexivity).
  assert (data = (unlines comments ++ unlines [">"%char :: name]) ++ unlines lines
                 ++ ending_text e) as HdL
    by (subst data; unfold fasta_text; app_normal; reflexivity).
  assert (length (unlines [">"%char :: name]) = S (length (">"%char :: name))) as HlH
    by (rewrite unlines_cons, length_app; cbn [length unlines flat_map]; lia).
  set (before := (length (unlines comments) + S (length (">"%char :: name))
                  + length (unlines lines))%nat).
  assert (length data = before + length (ending_text e))%nat as Hlen
    by (subst data before; unfold fasta_text; rewrite !length_app, HlH; lia).
  rewrite Hlen. subst before.
  rewrite !seq_app, !scan_loop_app. cbn [Nat.add].
  (* comments *)
  pose proof (fasta_length_comments data comments Hcomments [] _ 0%nat HdC)
    as Hc.
  cbn [length Nat.add] in Hc. rewrite Hc. clear Hc.
  (* the identifier line *)
  assert (~ In LF (">"%char :: name)) as HhL.
  { intros [E|E]; [discriminate|contradiction]. }
  rewrite (fasta_length_line data (unlines comments) (">"%char :: name)
             _ false 0 HdH HhL).
  rewrite (fasta_length_newline data (unlines comments) (">"%char :: name)
             _ false 0 HdH).
  cbn zeta. cbn [negb].
  change (Ascii.eqb (char_at ((">"%char :: name) ++ [LF]) 0) ">") with true.
  cbn match.
  (* the lines of the sequence *)
  assert (length (unlines comments ++ unlines [">"%char :: name])
          = S (length (unlines comments) + length (">"%char :: name))) as HlCH
    by (rewrite length_app, HlH; lia).
  replace (length (unlines comments) + S (length (">"%char :: name)))%nat
    with (length (unlines comments ++ unlines [">"%char :: name])) by lia.
  rewrite <- HlCH.
  rewrite (fasta_length_lines data lines Hlines
             (unlines comments ++ unlines [">"%char :: name]) _ 0 HdL).
  cbn [Nat.add].
  (* what follows *)
  set (pre := (unlines comments ++ unlines [">"%char :: name])
              ++ unlines lines).
  assert (length pre
          = (length (unlines comments ++ unlines [">"%char :: name])
             + length (unlines lines))%nat) as Hpre
    by (subst pre; rewrite length_app; reflexivity).
  rewrite <- Hpre.
  assert (data = pre ++ ending_text e) as HdE
    by (subst pre; rewrite HdL; app_normal; reflexivity).
  destruct e as [tail|rest|next rest]; cbn [ending_text ending_ok] in *.
  - destruct He as [HtL _].
    rewrite (scan_tail (fasta_length_step data) data pre tail _
               (fasta_length_skip data) HdE HtL).
    reflexivity.
  - cbn [length].
    replace (S (length rest)) with (1 + length rest)%nat by lia.
    rewrite seq_app, scan_loop_app.
    assert (data = pre ++ [] ++ LF :: rest) as HdB by exact HdE.
    pose proof (fasta_length_line data pre [] rest true
                  (length (concat (map chomp lines))) HdB ltac:(intros []))
      as Hb.
    cbn [length] in Hb. rewrite Hb. clear Hb.
    rewrite (fasta_length_newline data pre [] rest true _ HdB).
    reflexivity.
  - destruct He as [[HnL _] _].
    assert (~ In LF (">"%char :: next)) as HxL
      by (intros [E|E]; [discriminate|contradiction]).
    assert (data = pre ++ (">"%char :: next) ++ LF :: rest) as HdN by exact HdE.
    replace (length ((">"%char :: next) ++ LF :: rest))
      with (S (length (">"%char :: next)) + length rest)%nat
      by (rewrite length_app; cbn [length]; lia).
    rewrite seq_app, scan_loop_app.
    rewrite (fasta_length_line data pre _ rest true _ HdN HxL).
    rewrite (fasta_length_newline data pre _ rest true _ HdN).
    reflexivity.
Qed.

Lemma line_bytes (pre line post : list ascii) (m : nat) :
  (m <= length line)%nat ->
  map (char_at (pre ++ line ++ post)) (seq (length pre) m) = take m line.
Proof.
  intros Hm. rewrite map_char_at_seq by (rewrite !length_app; lia).
  rewrite drop_app_length, take_app_le by lia. reflexivity.
Qed.

Lemma store_copied (copied cs block : list ascii) :
  store (length copied) cs (copied ++ drop (length copied) block)
  = (copied ++ cs) ++ drop (length (copied ++ cs)) block.
Proof.
  unfold store. rewrite take_app_length, drop_app_add', drop_drop, length_app
    by reflexivity.
  rewrite <- app_assoc. reflexivity.
Qed.

Lemma sequence_line_chomp (line : list ascii) :
  sequence_line line ->
  (1 <= length (chomp line))%nat /\ ~ In NUL (chomp line).
Proof.
  intros ([_ HN] & Hne & Hcr & _). split; [|apply chomp_no_NUL, HN].
  rewrite chomp_length by exact Hne.
  destruct line as [|c [|c' l]]; [congruence| |].
  - cbn. destruct (Ascii.eqb_spec c CR) as [->|_]; [congruence|lia].
  - destruct (Ascii.eqb _ CR); cbn [length]; lia.
Qed.

Lemma sequence_lines_chomp (lines : list (list ascii)) :
  Forall sequence_line lines ->
  ~ In NUL (concat (map chomp lines))
  /\ (lines <> [] -> (1 <= length (concat (map chomp lines)))%nat).
Proof.
  induction 1 as [|line lines Hline _ [IH1 IH2]].
  - split; [intros []|congruence].
  - destruct (sequence_line_chomp line Hline) as [Hl Hn].
    cbn [map concat]. split.
    + intros Hin. apply in_app_or in Hin. tauto.
    + intros _. rewrite length_app. lia.
Qed.

Section FastaExtract.
Variable line_prior : nat -> nat -> ascii.
Variable data : list ascii.
Variable sequence_length : nat.
Variable block : list ascii.

Local Abbreviation step := (fasta_step line_prior data sequence_length).
Local Abbreviation state seen copied last identifier :=
  {| fa_encountered_sequence_identifier := seen;
     fa_total_bytes_copied := length copied;
     fa_last_newline := last;
     fa_identifier := identifier;
     fa_sequence := copied ++ drop (length copied) block |}.

Lemma fasta_skip (st : fasta_state) (i : nat) :
  char_at data i <> LF -> step st i = inr st.
Proof.
  intros H. unfold fasta_step.
  destruct (Ascii.eqb_spec (char_at data i) LF); [contradiction|reflexivity].
Qed.

Lemma fasta_line (pre line post : list ascii) (st : fasta_state) :
  data = pre ++ line ++ LF :: post -> ~ In LF line ->
  scan_loop step (seq (length pre) (S (length line))) st
  = step st (length pre + length line)%nat.
Proof.
  intros Hdata Hno.
  exact (scan_line step data pre line post st fasta_skip Hdata Hno).
Qed.

(** The pass on the line feed of a line, in terms of the line. *)
Lemma fasta_newline (pre line post copied : list ascii) (seen : bool)
    (identifier : option (list ascii)) :
  data = pre ++ line ++ LF :: post ->
  let first := char_at (line ++ [LF]) 0 in
  let n := length line in
  let st := state seen copied (length pre) identifier in
  let next := S (length pre + n) in
  step st (length pre + length line)%nat
  = if negb seen then
      if Ascii.eqb first ">" then
        match extract_line (line_prior (length pre + n)) data
                (length pre + n) n with
        | None => inl FastaUndefined
        | Some l => inr (state true copied next (Some l))
        end
      else if Ascii.eqb first ";" || Ascii.eqb first LF
      then inr (state seen copied next identifier)
      else inl (FastaReturn (length pre + n) identifier None)
    else
      if Ascii.eqb first ">"
      then inl (fasta_return sequence_length (length pre) st)
      else if Ascii.eqb first ";"
      then inr (state seen copied next identifier)
      else if (n =? 0)%nat
      then inl (fasta_return sequence_length (length pre + n) st)
      else if Ascii.eqb (char_at line (n - 1)) CR then
        if (n =? 1)%nat
        then inl (fasta_return sequence_length (length pre + n) st)
        else inr (state true (copied ++ take (n - 1) line) next identifier)
      else inr (state true (copied ++ line) next identifier).
Proof.
  intros Hdata. cbn zeta.
  assert (char_at data (length pre + length line) = LF) as E1
    by (rewrite Hdata; apply char_at_after).
  assert (char_at data (length pre) = char_at (line ++ [LF]) 0) as E2
    by (rewrite Hdata; apply char_at_line_start).
  assert (line <> [] ->
          char_at data (length pre + length line - 1)
          = char_at line (length line - 1)) as E3
    by (intros Hne; rewrite Hdata; apply char_at_line_last; exact Hne).
  assert (forall m, (m <= length line)%nat ->
            store (length copied) (map (char_at data) (seq (length pre) m))
              (copied ++ drop (length copied) block)
            = (copied ++ take m line)
              ++ drop (length (copied ++ take m line)) block) as E4.
  { intros m Hm. rewrite Hdata, line_bytes by exact Hm.
    apply store_copied. }
  assert (forall m, (m <= length line)%nat ->
            (length copied + m)%nat = length (copied ++ take m line)) as E5
    by (intros m Hm; rewrite length_app, length_take; lia).
  unfold fasta_step. rewrite E1.
  change (Ascii.eqb LF LF) with true. cbn match.
  cbn [fa_encountered_sequence_identifier fa_total_bytes_copied
       fa_last_newline fa_identifier fa_sequence].
  replace (length pre + length line - length pre)%nat with (length line)
    by lia.
  replace (length pre + length line - length line)%nat with (length pre)
    by lia.
  rewrite !E2.
  destruct line as [|c l] eqn:El.
  - cbn [length Nat.eqb]. rewrite Nat.add_0_r.
    destruct seen; reflexivity.
  - rewrite <- El in *. rewrite E3 by (rewrite El; discriminate).
    rewrite !E4, !E5 by lia. rewrite (take_ge line (length line)) by lia.
    destruct seen; reflexivity.
Qed.

(** Comment lines and empty lines before the identifier are skipped. *)
Lemma fasta_comments (comments : list (list ascii)) :
  Forall comment_line comments ->
  forall (pre post copied : list ascii) (identifier : option (list ascii)),
    data = pre ++ unlines comments ++ post ->
    scan_loop step (seq (length pre) (length (unlines comments)))
      (state false copied (length pre) identifier)
    = inr (state false copied (length pre + length (unlines comments))%nat
             identifier).
Proof.
  induction 1 as [|line comments [[HL _] Hline] _ IH];
    intros pre post copied identifier Hdata.
  - cbn. rewrite Nat.add_0_r. reflexivity.
  - rewrite unlines_cons in *.
    assert (data = pre ++ line ++ LF :: (unlines comments ++ post)) as Hd
      by (rewrite Hdata; app_normal; reflexivity).
    replace (length (line ++ LF :: unlines comments))
      with (S (length line) + length (unlines comments))%nat
      by (rewrite length_app; cbn [length]; lia).
    rewrite seq_app, scan_loop_app.
    rewrite (fasta_line pre line _ _ Hd HL).
    rewrite (fasta_newline pre line _ copied false identifier Hd). cbn zeta.
    cbn [negb].
    assert (Ascii.eqb (char_at (line ++ [LF]) 0) ">" = false
            /\ Ascii.eqb (char_at (line ++ [LF]) 0) ";"
               || Ascii.eqb (char_at (line ++ [LF]) 0) LF = true) as [-> ->].
    { destruct Hline as [->|Hc]; [split; reflexivity|].
      destruct line as [|c l]; [discriminate|].
      cbn in Hc |- *. rewrite Hc. split; reflexivity. }
    assert (length (pre ++ line ++ [LF]) = S (length pre + length line)) as Hl
      by (rewrite !length_app; cbn [length]; lia).
    replace (length pre + S (length line))%nat
      with (length (pre ++ line ++ [LF])) by lia.
    rewrite <- Hl.
    rewrite (IH (pre ++ line ++ [LF]) post copied identifier)
      by (rewrite Hd; app_normal; reflexivity).
    do 2 f_equal. lia.
Qed.

(** The lines of the sequence are copied one after the other. *)
Lemma fasta_lines (lines : list (list ascii)) :
  Forall sequence_line lines ->
  forall (pre post copied : list ascii) (identifier : option (list ascii)),
    data = pre ++ unlines lines ++ post ->
    scan_loop step (seq (length pre) (length (unlines lines)))
      (state true copied (length pre) identifier)
    = inr (state true (copied ++ concat (map chomp lines))
             (length pre + length (unlines lines))%nat identifier).
Proof.
  induction 1 as [|line lines ([HL _] & Hne & Hcr & Hgt & Hsc) _ IH];
    intros pre post copied identifier Hdata.
  - cbn. rewrite !Nat.add_0_r, !app_nil_r. reflexivity.
  - rewrite unlines_cons in *.
    assert (data = pre ++ line ++ LF :: (unlines lines ++ post)) as Hd
      by (rewrite Hdata; app_normal; reflexivity).
    replace (length (line ++ LF :: unlines lines))
      with (S (length line) + length (unlines lines))%nat
      by (rewrite length_app; cbn [length]; lia).
    rewrite seq_app, scan_loop_app.
    rewrite (fasta_line pre line _ _ Hd HL).
    rewrite (fasta_newline pre line _ copied true identifier Hd). cbn zeta.
    cbn [negb].
    assert (1 <= length line)%nat as Hl1
      by (destruct line; cbn; [congruence|lia]).
    assert (char_at (line ++ [LF]) 0 = char_at line 0) as ->
      by (destruct line; [congruence|reflexivity]).
    destruct (Ascii.eqb_spec (char_at line 0) ">"); [contradiction|].
    destruct (Ascii.eqb_spec (char_at line 0) ";"); [contradiction|].
    destruct (Nat.eqb_spec (length line) 0); [lia|].
    pose proof (chomp_length line Hne) as Hchomp.
    pose proof (chomp_take line) as Htake.
    assert (length (pre ++ line ++ [LF]) = S (length pre + length line)) as Hl
      by (rewrite !length_app; cbn [length]; lia).
    assert ((if Ascii.eqb (char_at line (length line - 1)) CR
             then if (length line =? 1)%nat
                  then inl (fasta_return sequence_length
                              (length pre + length line)
                              (state true copied (length pre) identifier))
                  else inr (state true
                              (copied ++ take (length line - 1) line)
                              (S (length pre + length line)) identifier)
             else inr (state true (copied ++ line)
                         (S (length pre + length line)) identifier))
            = (inr (state true (copied ++ chomp line)
                      (length (pre ++ line ++ [LF])) identifier)
               : fasta_result + fasta_state)) as ->.
    { rewrite Hl.
      destruct (Ascii.eqb_spec (char_at line (length line - 1)) CR) as [E|E].
      - destruct (Nat.eqb_spec (length line) 1) as [E1|E1].
        + exfalso. apply Hcr. destruct line as [|c [|c' l]]; cbn in E1; try lia.
          cbn in E. rewrite E. reflexivity.
        + rewrite Htake at 1 2 3. rewrite Hchomp. reflexivity.
      - rewrite Htake at 1 2 3. rewrite Hchomp.
        rewrite take_ge by lia. reflexivity. }
    replace (length pre + S (length line))%nat
      with (length (pre ++ line ++ [LF])) by lia.
    rewrite (IH (pre ++ line ++ [LF]) post (copied ++ chomp line) identifier)
      by (rewrite Hd; app_normal; reflexivity).
    cbn [map concat]. rewrite <- !app_assoc, Hl.
    do 2 f_equal; lia.
Qed.
End FastaExtract.

Lemma terminated_block (prior : nat -> ascii) (n : nat) :
  drop n (<[ n := NUL ]> (malloc prior (S n))) = [NUL].
Proof.
  rewrite insert_take_drop by (rewrite malloc_length; lia).
  rewrite drop_app_length' by (rewrite length_take, malloc_length; lia).
  rewrite drop_ge by (rewrite malloc_length; lia). reflexivity.
Qed.

(** The end of [extract_fasta_sequence] once the whole sequence is in the
    block: the assertion on its length passes. *)
Lemma fasta_return_copied (prior : nat -> ascii) (copied : list ascii)
    (parsed last : nat) (seen : bool) (identifier : option (list ascii)) :
  ~ In NUL copied ->
  fasta_return (length copied) parsed
    {| fa_encountered_sequence_identifier := seen;
       fa_total_bytes_copied := length copied;
       fa_last_newline := last;
       fa_identifier := identifier;
       fa_sequence :=
         copied
         ++ drop (length copied)
              (<[ length copied := NUL ]>
                 (malloc prior (S (length copied)))) |}
  = FastaReturn parsed identifier (Some (copied ++ [NUL])).
Proof.
  intros Hnul. unfold fasta_return. cbn [fa_sequence fa_identifier].
  rewrite terminated_block.
  rewrite (c_str_terminated copied []) by (apply not_In_Forall, Hnul).
  rewrite Nat.eqb_refl. reflexivity.
Qed.

Lemma fasta_round_trip (sequence_prior : nat -> ascii)
    (line_prior : nat -> nat -> ascii)
    (comments : list (list ascii)) (name : list ascii)
    (lines : list (list ascii)) (e : fasta_ending) :
  Forall comment_line comments -> text_line name ->
  Forall sequence_line lines -> lines <> [] -> ending_ok e ->
  let data := fasta_text comments name lines e in
  let before :=
    length (unlines comments ++ unlines [">"%char :: name] ++ unlines lines) in
  exists identifier : list ascii,
    extract_fasta_sequence sequence_prior line_prior data
    = FastaReturn (ending_parsed before e) (Some identifier)
        (Some (concat (map chomp lines) ++ [NUL]))
    /\ c_str identifier = chomp (">"%char :: name).
Proof.
  intros Hcomments Hname Hlines Hne He. cbn zeta.
  unfold extract_fasta_sequence.
  rewrite (fasta_length_total comments name lines e Hcomments Hname Hlines He).
  set (data := fasta_text comments name lines e).
  set (before :=
         length (unlines comments ++ unlines [">"%char :: name]
                 ++ unlines lines)).
  destruct Hname as [HnameL HnameN].
  destruct (sequence_lines_chomp lines Hlines) as [HcN HcL].
  specialize (HcL Hne).
  set (copied := concat (map chomp lines)) in *.
  destruct (Nat.eqb_spec (length copied) 0) as [?|_]; [lia|].
  set (block := <[ length copied := NUL ]>
                  (malloc sequence_prior (S (length copied)))).
  assert (data = [] ++ unlines comments
                 ++ (unlines [">"%char :: name] ++ unlines lines
                     ++ ending_text e))
    as HdC by reflexivity.
  assert (data = unlines comments ++ (">"%char :: name)
                 ++ LF :: (unlines lines ++ ending_text e)) as HdH
    by (subst data; unfold fasta_text; rewrite unlines_cons; app_normal;
        reflexivity).
  assert (data = (unlines comments ++ unlines [">"%char :: name])
                 ++ unlines lines ++ ending_text e) as HdL
    by (subst data; unfold fasta_text; app_normal; reflexivity).
  assert (length (unlines [">"%char :: name])
          = S (length (">"%char :: name))) as HlH
    by (rewrite unlines_cons, length_app; cbn [length unlines flat_map]; lia).
  assert (length data
          = (length (unlines comments) + S (length (">"%char :: name))
             + length (unlines lines) + length (ending_text e))%nat) as Hlen
    by (subst data; unfold fasta_text; rewrite !length_app, HlH; lia).
  assert (before = (length (unlines comments)
                    + S (length (">"%char :: name))
                    + length (unlines lines))%nat) as Hbefore
    by (subst before; rewrite !length_app, HlH; lia).
  assert (~ In LF (">"%char :: name)) as HhL
    by (intros [E|E]; [discriminate|contradiction]).
  assert (~ In NUL (">"%char :: name)) as HhN
    by (intros [E|E]; [discriminate|contradiction]).
  destruct (fastq_extract_line data (unlines comments) (">"%char :: name) _
              (line_prior (length (unlines comments)
                           + length (">"%char :: name))%nat)
              HdH ltac:(discriminate) HhN) as (identifier & Hid & Hids).
  cbn [length] in Hid.
  exists identifier. split; [|exact Hids].
  rewrite Hlen at 1.
  rewrite !seq_app, !scan_loop_app. cbn [Nat.add].
  (* comments *)
  pose proof (fasta_comments line_prior data (length copied) block comments
                Hcomments [] _ [] None HdC) as Hc.
  cbn [length Nat.add app] in Hc. rewrite drop_0 in Hc. rewrite Hc. clear Hc.
  (* the identifier line *)
  rewrite (fasta_line line_prior data (length copied) (unlines comments)
             (">"%char :: name) _ _ HdH HhL).
  pose proof (fasta_newline line_prior data (length copied) block
                (unlines comments) (">"%char :: name) _ [] false None HdH)
    as Hh.
  cbn zeta in Hh. cbn [length Nat.add app negb] in Hh.
  rewrite !drop_0 in Hh.
  cbn [length Nat.add]. rewrite Hh. clear Hh.
  change (Ascii.eqb (char_at (">"%char :: name ++ [LF]) 0) ">") with true.
  cbn match.
  rewrite Hid.
  (* the lines of the sequence *)
  assert (length (unlines comments ++ unlines [">"%char :: name])
          = S (length (unlines comments) + S (length name))) as HlCH
    by (rewrite length_app, HlH; cbn [length]; lia).
  replace (length (unlines comments) + S (S (length name)))%nat
    with (length (unlines comments ++ unlines [">"%char :: name])) by lia.
  rewrite <- HlCH.
  pose proof (fasta_lines line_prior data (length copied) block lines Hlines
                (unlines comments ++ unlines [">"%char :: name]) _ []
                (Some identifier) HdL) as Hl.
  cbn [length app] in Hl. rewrite !drop_0 in Hl. rewrite Hl. clear Hl.
  fold copied.
  (* what follows *)
  set (pre := (unlines comments ++ unlines [">"%char :: name])
              ++ unlines lines).
  assert (length pre
          = (length (unlines comments ++ unlines [">"%char :: name])
             + length (unlines lines))%nat) as Hpre
    by (subst pre; rewrite length_app; reflexivity).
  rewrite <- Hpre.
  assert (before = length pre) as -> by (rewrite Hpre, HlCH, Hbefore;
                                         cbn [length]; lia).
  assert (data = pre ++ ending_text e) as HdE
    by (subst pre; rewrite HdL; app_normal; reflexivity).
  destruct e as [tail|rest|next rest];
    cbn [ending_text ending_ok ending_parsed] in *.
  - destruct He as [HtL _].
    rewrite (scan_tail (fasta_step line_prior data (length copied)) data pre
               tail _ (fasta_skip line_prior data (length copied)) HdE HtL).
    subst block. rewrite fasta_return_copied by exact HcN.
    rewrite HdE, length_app. reflexivity.
  - cbn [length].
    replace (S (length rest)) with (1 + length rest)%nat by lia.
    rewrite seq_app, scan_loop_app.
    assert (data = pre ++ [] ++ LF :: rest) as HdB by exact HdE.
    pose proof (fasta_line line_prior data (length copied) pre [] rest
                  {| fa_encountered_sequence_identifier := true;
                     fa_total_bytes_copied := length copied;
                     fa_last_newline := length pre;
                     fa_identifier := Some identifier;
                     fa_sequence := copied ++ drop (length copied) block |}
                  HdB ltac:(intros [])) as Hb.
    cbn [length] in Hb. rewrite Hb. clear Hb.
    pose proof (fasta_newline line_prior data (length copied) block pre []
                  rest copied true (Some identifier) HdB) as Hn.
    cbn zeta in Hn. cbn [length app negb Nat.eqb] in Hn.
    change (Ascii.eqb (char_at [LF] 0) ">") with false in Hn.
    change (Ascii.eqb (char_at [LF] 0) ";") with false in Hn.
    cbn match in Hn. cbn [length]. rewrite Hn. clear Hn.
    subst block. rewrite fasta_return_copied by exact HcN.
    rewrite Nat.add_0_r. reflexivity.
  - destruct He as [[HnL _] _].
    assert (~ In LF (">"%char :: next)) as HxL
      by (intros [E|E]; [discriminate|contradiction]).
    assert (data = pre ++ (">"%char :: next) ++ LF :: rest) as HdN by exact HdE.
    replace (length ((">"%char :: next) ++ LF :: rest))
      with (S (length (">"%char :: next)) + length rest)%nat
      by (rewrite length_app; cbn [length]; lia).
    rewrite seq_app, scan_loop_app.
    rewrite (fasta_line line_prior data (length copied) pre _ rest _ HdN HxL).
    pose proof (fasta_newline line_prior data (length copied) block pre
                  (">"%char :: next) rest copied true (Some identifier) HdN)
      as Hn.
    cbn zeta in Hn. cbn [negb] in Hn.
    change (Ascii.eqb (char_at ((">"%char :: next) ++ [LF]) 0) ">")
      with true in Hn.
    cbn match in Hn. rewrite Hn. clear Hn.
    subst block. rewrite fasta_return_copied by exact HcN.
    reflexivity.
Qed.

(** X28.  The first record of a FASTA text.  For a text made of comment or
    empty lines, an identifier line [>name], at least one line of sequence
    and one of the three endings (the end of the text, perhaps after a last
    line without line feed; an empty line; the identifier of a second
    record), [get_length_fasta_sequence] is the total length of the sequence
    lines without their carriage returns, and [extract_fasta_sequence]
    stores the identifier line and the concatenated sequence lines, both
    without carriage return, passes its assertion, and returns the index
    where the record ends.  A last line without line feed is not part of
    the sequence. *)
Theorem extract_fasta_sequence_first_record (sequence_prior : nat -> ascii)
    (line_prior : nat -> nat -> ascii)
    (comments : list (list ascii)) (name : list ascii)
    (lines : list (list ascii)) (e : fasta_ending) :
  Forall comment_line comments -> text_line name ->
  Forall sequence_line lines -> lines <> [] -> ending_ok e ->
  get_length_fasta_sequence (fasta_text comments name lines e)
  = length (concat (map chomp lines))
  /\ exists identifier : list ascii,
       extract_fasta_sequence sequence_prior line_prior
         (fasta_text comments name lines e)
       = FastaReturn
           (ending_parsed
              (length (unlines comments ++ unlines [">"%char :: name]
                       ++ unlines lines)) e)
           (Some identifier)
           (Some (concat (map chomp lines) ++ [NUL]))
       /\ c_str identifier = chomp (">"%char :: name).
Proof.
  intros Hcomments Hname Hlines Hne He. split.
  - exact (fasta_length_total comments name lines e Hcomments Hname Hlines He).
  - exact (fasta_round_trip sequence_prior line_prior comments name lines e
             Hcomments Hname Hlines Hne He).
Qed.

Lemma extract_fasta_sequence_first_record_witness :
  get_length_fasta_sequence
    (fasta_text [chars ";note"; []] (chars "q1" ++ [CR])
       [chars "ACG" ++ [CR]; chars "TT"] (NextRecord (chars "q2") (chars "GG")))
  = length (concat (map chomp [chars "ACG" ++ [CR]; chars "TT"]))
  /\ exists identifier : list ascii,
       extract_fasta_sequence (fun _ => "?"%char) (fun _ _ => "?"%char)
         (fasta_text [chars ";note"; []] (chars "q1" ++ [CR])
            [chars "ACG" ++ [CR]; chars "TT"]
            (NextRecord (chars "q2") (chars "GG")))
       = FastaReturn
           (ending_parsed
              (length (unlines [chars ";note"; []]
                       ++ unlines [">"%char :: chars "q1" ++ [CR]]
                       ++ unlines [chars "ACG" ++ [CR]; chars "TT"]))
              (NextRecord (chars "q2") (chars "GG")))
           (Some identifier)
           (Some (concat (map chomp [chars "ACG" ++ [CR]; chars "TT"])
                  ++ [NUL]))
       /\ c_str identifier = chomp (">"%char :: chars "q1" ++ [CR]).
Proof.
  apply (extract_fasta_sequence_first_record (fun _ => "?"%char)
           (fun _ _ => "?"%char) [chars ";note"; []] (chars "q1" ++ [CR])
           [chars "ACG" ++ [CR]; chars "TT"]
           (NextRecord (chars "q2") (chars "GG"))).
  - constructor; [|constructor; [|constructor]].
    + split; [split; absent|right; reflexivity].
    + split; [split; absent|left; reflexivity].
  - split; absent.
  - constructor; [|constructor; [|constructor]].
    + split; [split; absent|]. repeat split; discriminate.
    + split; [split; absent|]. repeat split; discriminate.
  - discriminate.
  - split; [split; absent|absent].
Defined.

(** The length found in a text whose first line that is neither empty nor a
    comment does not start with [>]. *)
Lemma fasta_length_headless (comments : list (list ascii))
    (line rest : list ascii) :
  Forall comment_line comments -> ~ In LF line -> line <> [] ->
  char_at line 0 <> ">"%char -> char_at line 0 <> ";"%char ->
  get_length_fasta_sequence (unlines comments ++ line ++ LF :: rest) = 0%nat.
Proof.
  intros Hcomments HL Hne Hgt Hsc.
  unfold get_length_fasta_sequence.
  set (data := unlines comments ++ line ++ LF :: rest).
  assert (data = [] ++ unlines comments ++ (line ++ LF :: rest)) as HdC
    by reflexivity.
  assert (data = unlines comments ++ line ++ LF :: rest) as HdH
    by reflexivity.
  assert (length data
          = (length (unlines comments) + (S (length line) + length rest))%nat)
    as Hlen by (subst data; rewrite !length_app; cbn [length]; lia).
  rewrite Hlen, !seq_app, !scan_loop_app. cbn [Nat.add].
  pose proof (fasta_length_comments data comments Hcomments [] _ 0%nat HdC)
    as Hc.
  cbn [length Nat.add] in Hc. rewrite Hc. clear Hc.
  rewrite scan_loop_app.
  rewrite (fasta_length_line data (unlines comments) line rest false 0 HdH HL).
  rewrite (fasta_length_newline data (unlines comments) line rest false 0 HdH).
  cbn zeta. cbn [negb].
  assert (char_at (line ++ [LF]) 0 = char_at line 0) as ->
    by (destruct line; [congruence|reflexivity]).
  assert (char_at line 0 <> LF) as Hlf.
  { destruct line as [|c l]; [congruence|].
    intros E. apply HL. left. exact E. }
  destruct (Ascii.eqb_spec (char_at line 0) ">"); [contradiction|].
  destruct (Ascii.eqb_spec (char_at line 0) ";"); [contradiction|].
  destruct (Ascii.eqb_spec (char_at line 0) LF); [contradiction|].
  reflexivity.
Qed.

(** X29.  A sequence without identifier.  When the first line that is
    neither empty nor a [;] comment does not start with [>],
    [get_length_fasta_sequence] is 0 whatever follows, however many records
    there are further down, and [extract_fasta_sequence] returns 0 with both
    pointers NULL. *)
Theorem extract_fasta_sequence_without_identifier
    (sequence_prior : nat -> ascii) (line_prior : nat -> nat -> ascii)
    (comments : list (list ascii)) (line rest : list ascii) :
  Forall comment_line comments -> ~ In LF line -> line <> [] ->
  char_at line 0 <> ">"%char -> char_at line 0 <> ";"%char ->
  get_length_fasta_sequence (unlines comments ++ line ++ LF :: rest) = 0%nat
  /\ extract_fasta_sequence sequence_prior line_prior
       (unlines comments ++ line ++ LF :: rest)
     = FastaReturn 0 None None.
Proof.
  intros Hcomments HL Hne Hgt Hsc.
  pose proof (fasta_length_headless comments line rest Hcomments HL Hne Hgt
                Hsc) as H0.
  split; [exact H0|].
  unfold extract_fasta_sequence. rewrite H0. reflexivity.
Qed.

Lemma extract_fasta_sequence_without_identifier_witness :
  get_length_fasta_sequence
    (unlines [chars ";note"] ++ chars "ACGT" ++ LF :: chars ">q" ++ LF
       :: chars "TT" ++ [LF]) = 0%nat
  /\ extract_fasta_sequence (fun _ => "?"%char) (fun _ _ => "?"%char)
       (unlines [chars ";note"] ++ chars "ACGT" ++ LF :: chars ">q" ++ LF
          :: chars "TT" ++ [LF])
     = FastaReturn 0 None None.
Proof.
  apply (extract_fasta_sequence_without_identifier (fun _ => "?"%char)
           (fun _ _ => "?"%char) [chars ";note"] (chars "ACGT")
           (chars ">q" ++ LF :: chars "TT" ++ [LF])).
  - constructor; [|constructor].
    split; [split; absent|right; reflexivity].
  - absent.
  - discriminate.
  - discriminate.
  - discriminate.
Defined.

(** X30.  An identifier without sequence.  When the identifier line is
    followed at once by the end of the text (perhaps after a last line
    without line feed), by an empty line or by the identifier of another
    record, the length is 0 and [extract_fasta_sequence] returns 0 with both
    pointers NULL: the identifier is not given back, and a last sequence
    line that lacks its line feed is lost with it. *)
Theorem extract_fasta_sequence_without_sequence
    (sequence_prior : nat -> ascii) (line_prior : nat -> nat -> ascii)
    (comments : list (list ascii)) (name : list ascii) (e : fasta_ending) :
  Forall comment_line comments -> text_line name -> ending_ok e ->
  get_length_fasta_sequence (fasta_text comments name [] e) = 0%nat
  /\ extract_fasta_sequence sequence_prior line_prior
       (fasta_text comments name [] e)
     = FastaReturn 0 None None.
Proof.
  intros Hcomments Hname He.
  pose proof (fasta_length_total comments name [] e Hcomments Hname
                (List.Forall_nil _) He) as H0.
  cbn [map concat length] in H0.
  split; [exact H0|].
  unfold extract_fasta_sequence. rewrite H0. reflexivity.
Qed.

Lemma extract_fasta_sequence_without_sequence_witness :
  get_length_fasta_sequence
    (fasta_text [] (chars "q1") [] (EndOfText (chars "ACGT"))) = 0%nat
  /\ extract_fasta_sequence (fun _ => "?"%char) (fun _ _ => "?"%char)
       (fasta_text [] (chars "q1") [] (EndOfText (chars "ACGT")))
     = FastaReturn 0 None None.
Proof.
  apply (extract_fasta_sequence_without_sequence (fun _ => "?"%char)
           (fun _ _ => "?"%char) [] (chars "q1") (EndOfText (chars "ACGT"))).
  - constructor.
  - split; absent.
  - split; absent.
Defined.
